(** * Remote snapshotter: a shallow embedding of the snapshotter state
      machine and of the stargz filesystem layer, with the properties
      that the specification states about them.

    The development follows the Go packages of the repository:

    - [snapshot] (the overlay-style snapshotter with the remote-snapshot
      fast path: [Prepare], [View], [Commit], [Remove], [Cleanup],
      [Usage], [Mounts], [prepareRemoteSnapshot], [checkAvailability],
      and the chain of plugins that [InitFn] builds);
    - [service] (the combinator [sources] of the providers of a layer's
      sources);
    - [stargz] (the filesystem plugin: [NewFilesystem], [Mount], [Check],
      [resolve], [getSize], and the FUSE nodes [node], [file], [state],
      [statFile] with their attributes).

    Go values are modelled as the code has them: [map[string]string] as
    [gmap string string], fixed-width integers as [Z] with the wrap-around
    written out, the [error] interface as an inductive type with the
    wrapping of [github.com/pkg/errors], [float64] as the primitive
    binary64 floats.  Packages of other projects (containerd's metadata
    [storage], the operating system, the HTTP transport, the reference
    parsers, the CRFS archive, the FUSE server, [encoding/json]) are
    modelled by their contract or taken as parameters.

    The file has four parts: the packages; the predicates in which their
    properties are stated; a snapshotter and a plugin to run; the
    properties, each followed by the examples that exercise it. *)

From Stdlib Require Import ZArith String Ascii List Bool Lia Floats Uint63.
From Stdlib Require Import Sorting.Sorted.
From stdpp Require Import gmap strings list fin_maps sorting.

Local Open Scope Z_scope.

(** ** Errors and results *)

(** Go's [error] values that the two packages create or inspect.  The
    first five are the sentinels of [containerd/errdefs]; [ErrNew] is
    [errors.New] / [fmt.Errorf]; [ErrWrap] is [errors.Wrap(f)], which
    keeps the cause. *)
Inductive error : Type :=
| ErrAlreadyExists
| ErrNotFound
| ErrUnavailable
| ErrInvalidArgument
| ErrFailedPrecondition
| ErrNew (msg : string)
| ErrWrap (cause : error) (msg : string).

(** [errors.Cause]: strip the wrappers. *)
Fixpoint Cause (e : error) : error :=
  match e with
  | ErrWrap c _ => Cause c
  | _ => e
  end.

Definition IsAlreadyExists (e : error) : bool :=
  match Cause e with ErrAlreadyExists => true | _ => false end.

Definition IsUnavailable (e : error) : bool :=
  match Cause e with ErrUnavailable => true | _ => false end.

(** A Go pair [(value, error)] in which exactly one side is meaningful. *)
Inductive result (A : Type) : Type :=
| Ok (a : A)
| Err (e : error).
Arguments Ok {A} a.
Arguments Err {A} e.

Definition is_ok {A} (r : result A) : bool :=
  match r with Ok _ => true | Err _ => false end.

(** A Go [error] return: [None] is [nil]. *)
Definition succeeded (r : option error) : bool :=
  match r with None => true | Some _ => false end.

(** ** Decimal integers: [fmt.Sprintf("%d", n)] and [strconv.ParseInt] *)

Module strconv.

Definition digit_char (d : Z) : ascii := ascii_of_N (Z.to_N (48 + d)).

(** Digits of a non-negative number, most significant first; [fuel]
    bounds the number of digits. *)
Fixpoint digits (fuel : nat) (n : Z) (acc : string) : string :=
  match fuel with
  | O => acc
  | S fuel' =>
      let acc' := String (digit_char (n mod 10)) acc in
      if n <? 10 then acc' else digits fuel' (n / 10) acc'
  end.

(** [fmt.Sprintf("%d", n)] / [strconv.FormatInt(n, 10)]. *)
Definition FormatInt (n : Z) : string :=
  if n <? 0
  then String "-" (digits (S (Z.to_nat (Z.log2 (- n)))) (- n) EmptyString)
  else digits (S (Z.to_nat (Z.log2 n))) n EmptyString.

Definition digit_of (c : ascii) : option Z :=
  let n := Z.of_N (N_of_ascii c) in
  if (48 <=? n) && (n <=? 57) then Some (n - 48) else None.

(** The digit loop of [ParseUint] for base 10 (no underscores in an
    explicit base); the range check is done by the caller on the exact
    value. *)
Fixpoint parse_digits (s : string) (acc : Z) : option Z :=
  match s with
  | EmptyString => Some acc
  | String c s' =>
      match digit_of c with
      | Some d => parse_digits s' (acc * 10 + d)
      | None => None
      end
  end.

Definition ParseUint (s : string) : option Z :=
  match s with
  | EmptyString => None
  | _ => parse_digits s 0
  end.

(** [strconv.ParseInt(s, 10, 64)]: [None] stands for a non-nil error
    (syntax or range). *)
Definition ParseInt (s : string) : option Z :=
  match s with
  | EmptyString => None
  | String c rest =>
      let '(neg, body) :=
        if Ascii.eqb c "+" then (false, rest)
        else if Ascii.eqb c "-" then (true, rest)
        else (false, s) in
      match ParseUint body with
      | None => None
      | Some un =>
          let cutoff := 2 ^ 63 in
          if negb neg && (cutoff <=? un) then None
          else if neg && (cutoff <? un) then None
          else Some (if neg then - un else un)
      end
  end.

End strconv.

(** ** Package [snapshots] (containerd): the snapshot vocabulary *)

Definition dq : string := String (ascii_of_nat 34) EmptyString.

(** [fmt]'s [%q] verb on a string without characters to escape. *)
Definition quote (s : string) : string := dq +:+ s +:+ dq.

(** [strings.Join]. *)
Fixpoint strings_Join (elems : list string) (sep : string) : string :=
  match elems with
  | [] => EmptyString
  | [x] => x
  | x :: rest => x +:+ sep +:+ strings_Join rest sep
  end.

(** [filepath.Join]: empty elements are ignored and the rest is joined
    with a slash.  The final [Clean] of the Go function is the identity
    on the paths built here from a clean root and decimal identifiers,
    and is not modelled. *)
Definition filepath_Join (elems : list string) : string :=
  strings_Join (filter (λ e, e ≠ EmptyString) elems) "/".

Module snapshots.

Inductive Kind : Type := KindUnknown | KindView | KindActive | KindCommitted.

#[export] Instance Kind_eq_dec : EqDecision Kind.
Proof. solve_decision. Defined.

(** [snapshots.Info] without its two timestamps, which no operation
    modelled here reads. *)
Record Info : Type := mkInfo {
  Info_Kind : Kind;
  Info_Name : string;
  Info_Parent : string;
  Info_Labels : gmap string string;
}.

Record Usage : Type := mkUsage {
  Usage_Inodes : Z;
  Usage_Size : Z;
}.

(** The zero values [snapshots.Info{}] and [snapshots.Usage{}]; a nil
    label map reads like the empty map. *)
Definition Info_zero : Info := mkInfo KindUnknown EmptyString EmptyString ∅.
Definition Usage_zero : Usage := mkUsage 0 0.

(** [type Opt func(info *Info) error]. *)
Definition Opt : Type := Info → result Info.

Definition WithLabels (labels : gmap string string) : Opt :=
  λ info, Ok (mkInfo (Info_Kind info) (Info_Name info) (Info_Parent info) labels).

(** [for _, opt := range opts { if err := opt(&base); err != nil { return err } }] *)
Fixpoint apply_opts (opts : list Opt) (base : Info) : result Info :=
  match opts with
  | [] => Ok base
  | opt :: rest =>
      match opt base with
      | Ok base' => apply_opts rest base'
      | Err e => Err e
      end
  end.

End snapshots.
Import snapshots.

Module mount.
(** [mount.Mount]. *)
Record Mount : Type := mkMount {
  Type_ : string;
  Source : string;
  Options : list string;
}.
End mount.

(** ** Package [storage] (containerd): the metadata store

    The snapshotter keeps its records in containerd's bolt-backed
    [storage] package, which is not part of this repository.  It is
    modelled in memory by its contract: one bucket per key holding the
    numeric id, kind, parent key, labels and usage, and a sequence that
    numbers the snapshots.  Every call of the package runs inside a
    transaction that the snapshotter commits on success and rolls back on
    error, so a failing operation leaves the store as it was; opening and
    committing the transaction itself do not fail in the model. *)
Module storage.

Record bucket : Type := mkBucket {
  b_id : Z;
  b_kind : Kind;
  b_parent : string;
  b_labels : gmap string string;
  b_usage : Usage;
}.

Record MetaStore : Type := mkMetaStore {
  buckets : gmap string bucket;
  sequence : Z;
}.

Definition empty : MetaStore := mkMetaStore ∅ 0.

(** [storage.Snapshot]. *)
Record Snapshot : Type := mkSnapshot {
  Snapshot_Kind : Kind;
  Snapshot_ID : string;
  Snapshot_ParentIDs : list string;
}.

(** [GetInfo(ctx, key)] returns the id, the info and the usage. *)
Definition GetInfo (ms : MetaStore) (key : string)
  : result (string * Info * Usage) :=
  match buckets ms !! key with
  | None =>
      Err (ErrWrap ErrNotFound ("snapshot " +:+ key +:+ " does not exist"))
  | Some b =>
      Ok (strconv.FormatInt (b_id b),
          mkInfo (b_kind b) key (b_parent b) (b_labels b),
          b_usage b)
  end.

(** The loop of [parents]: the ids along the parent links, nearest
    first, starting at the bucket [b].  [None] when [fuel] links were
    followed without reaching a snapshot that has no parent. *)
Fixpoint parentsN (fuel : nat) (ms : MetaStore) (b : bucket)
  : option (result (list string)) :=
  match fuel with
  | O => None
  | S fuel' =>
      let id := strconv.FormatInt (b_id b) in
      if decide (b_parent b = EmptyString) then Some (Ok [id])
      else
        match buckets ms !! b_parent b with
        | None => Some (Err (ErrWrap ErrNotFound "missing parent"))
        | Some pb =>
            match parentsN fuel' ms pb with
            | None => None
            | Some (Err e) => Some (Err e)
            | Some (Ok l) => Some (Ok (id :: l))
            end
        end
  end.

(** Ids are handed out by the sequence, and a parent is older than its
    children, so a chain is no longer than the sequence is high. *)
Definition chain_fuel (ms : MetaStore) : nat := S (Z.to_nat (sequence ms)).

Definition parents (ms : MetaStore) (b : bucket) : result (list string) :=
  match parentsN (chain_fuel ms) ms b with
  | Some r => r
  | None => Err (ErrNew "parent chain does not end")
  end.

(** [GetSnapshot(ctx, key)]: only for active snapshots and views. *)
Definition GetSnapshot (ms : MetaStore) (key : string) : result Snapshot :=
  match buckets ms !! key with
  | None =>
      Err (ErrWrap ErrNotFound ("snapshot " +:+ key +:+ " does not exist"))
  | Some b =>
      if negb (bool_decide (b_kind b = KindActive))
         && negb (bool_decide (b_kind b = KindView))
      then Err (ErrWrap ErrFailedPrecondition
                  ("requested snapshot " +:+ key +:+ " not active or view"))
      else if decide (b_parent b = EmptyString)
      then Ok (mkSnapshot (b_kind b) (strconv.FormatInt (b_id b)) [])
      else
        match buckets ms !! b_parent b with
        | None =>
            Err (ErrWrap ErrNotFound
                   ("parent does not exist " +:+ b_parent b))
        | Some pb =>
            match parents ms pb with
            | Err e =>
                Err (ErrWrap e ("failed to get parent chain for snapshot "
                                  +:+ key))
            | Ok ids =>
                Ok (mkSnapshot (b_kind b) (strconv.FormatInt (b_id b)) ids)
            end
        end
  end.

(** [CreateSnapshot(ctx, kind, key, parent, opts...)]. *)
Definition CreateSnapshot (ms : MetaStore) (kind : Kind)
    (key parent : string) (opts : list Opt)
  : result (Snapshot * MetaStore) :=
  match kind with
  | KindActive | KindView =>
      match apply_opts opts Info_zero with
      | Err e => Err e
      | Ok base =>
          let create (pb : option bucket) : result (Snapshot * MetaStore) :=
            if decide (key = EmptyString)
            then Err (ErrNew "bucket name required")
            else
              match buckets ms !! key with
              | Some _ =>
                  Err (ErrWrap ErrAlreadyExists ("snapshot " +:+ key))
              | None =>
                  let id := sequence ms + 1 in
                  let b := mkBucket id kind parent (Info_Labels base)
                             Usage_zero in
                  let ms' := mkMetaStore (<[key := b]> (buckets ms)) id in
                  match pb with
                  | None =>
                      Ok (mkSnapshot kind (strconv.FormatInt id) [], ms')
                  | Some pb =>
                      match parents ms' pb with
                      | Err e =>
                          Err (ErrWrap e
                                 ("failed to get parent chain for snapshot "
                                    +:+ key))
                      | Ok ids =>
                          Ok (mkSnapshot kind (strconv.FormatInt id) ids, ms')
                      end
                  end
              end in
          if decide (parent = EmptyString) then create None
          else
            match buckets ms !! parent with
            | None =>
                Err (ErrWrap ErrNotFound
                       ("missing parent " +:+ quote parent +:+ " bucket"))
            | Some pb =>
                if decide (b_kind pb = KindCommitted) then create (Some pb)
                else Err (ErrWrap ErrInvalidArgument
                            ("parent " +:+ quote parent
                               +:+ " is not committed snapshot"))
            end
      end
  | _ =>
      Err (ErrWrap ErrInvalidArgument
             "only snapshots of type Active or View can be created")
  end.

(** [CommitActive(ctx, key, name, usage, opts...)]: the active snapshot
    [key] becomes the committed snapshot [name]; it keeps its id and
    parent, and its labels are replaced by those of [opts]. *)
Definition CommitActive (ms : MetaStore) (key name : string)
    (usage : Usage) (opts : list Opt) : result (string * MetaStore) :=
  match apply_opts opts Info_zero with
  | Err e => Err e
  | Ok base =>
      if decide (name = EmptyString)
      then Err (ErrWrap (ErrNew "bucket name required")
                  ("committed snapshot " +:+ name))
      else
        match buckets ms !! name with
        | Some _ =>
            Err (ErrWrap ErrAlreadyExists ("committed snapshot " +:+ name))
        | None =>
            match buckets ms !! key with
            | None =>
                Err (ErrWrap ErrNotFound
                       ("failed to get active snapshot " +:+ quote key))
            | Some sb =>
                if decide (b_kind sb = KindActive)
                then
                  let db := mkBucket (b_id sb) KindCommitted (b_parent sb)
                              (Info_Labels base) usage in
                  Ok (strconv.FormatInt (b_id sb),
                      mkMetaStore
                        (<[name := db]> (delete key (buckets ms)))
                        (sequence ms))
                else Err (ErrWrap ErrFailedPrecondition
                            ("snapshot " +:+ quote key +:+ " is not active"))
            end
        end
  end.

(** [Remove(ctx, key)] returns the id and the kind of the snapshot it
    removed; a snapshot that another one names as its parent is not
    removed. *)
Definition Remove (ms : MetaStore) (key : string)
  : result (string * Kind * MetaStore) :=
  match buckets ms !! key with
  | None => Err (ErrWrap ErrNotFound ("snapshot " +:+ key))
  | Some b =>
      if bool_decide (map_Exists (λ _ cb, b_parent cb = key) (buckets ms))
      then Err (ErrWrap ErrFailedPrecondition
                  "cannot remove snapshot with child")
      else Ok (strconv.FormatInt (b_id b), b_kind b,
               mkMetaStore (delete key (buckets ms)) (sequence ms))
  end.

(** [IDMap(ctx)]: the key of every snapshot under its id. *)
Definition IDMap (ms : MetaStore) : gmap string string :=
  list_to_map
    ((λ kv, (strconv.FormatInt (b_id kv.2), kv.1)) <$> map_to_list (buckets ms)).

End storage.

(** ** Package [snapshot]: the remote snapshotter *)

Module snapshot.
Import storage mount.

Definition targetSnapshotLabel : string := "containerd.io/snapshot.ref".
Definition filesystemIDLabel : string := "containerd.io/snapshot/filesystem.id".

(** The interface [fsplugin.FileSystem] as the snapshotter sees it: a
    plugin answers a [Mount] or a [Check] on a mountpoint with an error
    or with nil.  The answers stand for what the plugin and the registry
    behind it do; the snapshotter reads nothing else from a plugin. *)
Record FileSystem : Type := mkFileSystem {
  Mount : string → gmap string string → option error;
  Check : string → option error;
}.

(** The calls into the operating system and into [continuity/fs], each
    with the outcome it has on the machine at hand. *)
Record OS : Type := mkOS {
  TempDir : string → string → result string;
  Mkdir : string → Z → option error;
  Stat_owner : string → result (Z * Z);
  Lchown : string → Z → Z → option error;
  Rename : string → string → option error;
  RemoveAll : string → option error;
  DiskUsage : string → result Usage;
}.

(** [type snapshotter struct]; the metadata store [ms] that the struct
    points to is threaded through the operations as an argument. *)
Record snapshotter : Type := mkSnapshotter {
  root : string;
  asyncRemove : bool;
  fsChain : list FileSystem;
  os : OS;
}.

Section Operations.
Variable o : snapshotter.

Definition upperPath (id : string) : string :=
  filepath_Join [root o; "snapshots"; id; "fs"].

Definition workPath (id : string) : string :=
  filepath_Join [root o; "snapshots"; id; "work"].

(** [Stat]. *)
Definition Stat (ms : MetaStore) (key : string) : result Info :=
  match GetInfo ms key with
  | Err e => Err e
  | Ok (_, info, _) => Ok info
  end.

(** [Usage]. *)
Definition Usage (ms : MetaStore) (key : string) : result snapshots.Usage :=
  match GetInfo ms key with
  | Err e => Err e
  | Ok (id, info, usage) =>
      let upperPath := upperPath id in
      if decide (Info_Kind info = KindActive) then
        match DiskUsage (os o) upperPath with
        | Err e => Err e
        | Ok du => Ok du
        end
      else Ok usage
  end.

(** The body of [checkAvailability] after the lower layers were found
    available: the label, its parse, the bound, the plugin's
    [Check]. *)
Definition checkLayer (id : string) (info : Info) : bool :=
  match Info_Labels info !! filesystemIDLabel with
  | None => true (* normal overlayfs layer *)
  | Some fsidLabel =>
      match strconv.ParseInt fsidLabel with
      | None => false
      | Some fsid =>
          if (fsid <? 0) || (Z.of_nat (length (fsChain o)) <=? fsid)
          then false
          else
            match fsChain o !! Z.to_nat fsid with
            | None => false
            | Some f => succeeded (Check f (upperPath id))
            end
      end
  end.

(** [checkAvailability], with the depth of the recursion bounded by
    [fuel]; [None] when the bound is reached. *)
Fixpoint checkAvailabilityN (fuel : nat) (ms : MetaStore) (key : string)
  : option bool :=
  match fuel with
  | O => None
  | S fuel' =>
      match GetInfo ms key with
      | Err _ => Some false
      | Ok (id, info, _) =>
          let lower :=
            if decide (Info_Parent info = EmptyString) then Some true
            else checkAvailabilityN fuel' ms (Info_Parent info) in
          match lower with
          | None => None
          | Some false => Some false
          | Some true => Some (checkLayer id info)
          end
      end
  end.

(** [checkAvailability].  The recursion along the parent links ends
    within [chain_fuel] steps on every store that the package
    [storage] can produce (lemma [checkAvailabilityN_enough]). *)
Definition checkAvailability (ms : MetaStore) (key : string) : bool :=
  match checkAvailabilityN (chain_fuel ms) ms key with
  | Some b => b
  | None => false
  end.

(** [mounts]. *)
Definition mounts (ms : MetaStore) (s : Snapshot) (checkKey : string)
  : result (list mount.Mount) :=
  if negb (bool_decide (checkKey = EmptyString))
     && negb (checkAvailability ms checkKey)
  then Err (ErrWrap ErrUnavailable
              ("layer " +:+ quote (Snapshot_ID s) +:+ " unavailable"))
  else
    match Snapshot_ParentIDs s with
    | [] =>
        let roFlag :=
          if decide (Snapshot_Kind s = KindView) then "ro" else "rw" in
        Ok [ mkMount "bind" (upperPath (Snapshot_ID s)) [roFlag; "rbind"] ]
    | p0 :: rest =>
        let lowerdir :=
          "lowerdir=" +:+
            strings_Join (upperPath <$> Snapshot_ParentIDs s) ":" in
        if decide (Snapshot_Kind s = KindActive) then
          Ok [ mkMount "overlay" "overlay"
                 [ "workdir=" +:+ workPath (Snapshot_ID s);
                   "upperdir=" +:+ upperPath (Snapshot_ID s);
                   lowerdir ] ]
        else
          match rest with
          | [] => Ok [ mkMount "bind" (upperPath p0) ["ro"; "rbind"] ]
          | _ => Ok [ mkMount "overlay" "overlay" [lowerdir] ]
          end
    end.

(** [Mounts]. *)
Definition Mounts (ms : MetaStore) (key : string)
  : result (list mount.Mount) :=
  match GetSnapshot ms key with
  | Err e => Err (ErrWrap e "failed to get active mount")
  | Ok s => mounts ms s key
  end.

(** [cleanupSnapshotDirectory]: the unmount of [dir/fs] may fail and
    is ignored. *)
Definition cleanupSnapshotDirectory (dir : string) : option error :=
  match RemoveAll (os o) dir with
  | Some e => Some (ErrWrap e ("failed to remove directory " +:+ dir))
  | None => None
  end.

(** [prepareDirectory] returns the temporary directory also when a
    later step failed. *)
Definition prepareDirectory (snapshotDir : string) (kind : Kind)
  : string * option error :=
  match TempDir (os o) snapshotDir "new-" with
  | Err e => (EmptyString, Some (ErrWrap e "failed to create temp dir"))
  | Ok td =>
      match Mkdir (os o) (filepath_Join [td; "fs"]) 493 (* 0755 *) with
      | Some e => (td, Some e)
      | None =>
          if decide (kind = KindActive) then
            match Mkdir (os o) (filepath_Join [td; "work"]) 457 (* 0711 *) with
            | Some e => (td, Some e)
            | None => (td, None)
            end
          else (td, None)
      end
  end.

(** The deferred function of [createSnapshot] once [path] is set: a
    failure to reclaim the directory is wrapped around the error. *)
Definition reclaim (path : string) (err : error) : error :=
  match cleanupSnapshotDirectory path with
  | Some err1 => ErrWrap err "failed to remove path"
  | None => err
  end.

(** [createSnapshot]: the store changes only when the transaction is
    committed, which is after the directory was renamed into place. *)
Definition createSnapshot (ms : MetaStore) (kind : Kind)
    (key parent : string) (opts : list Opt)
  : result (list mount.Mount) * MetaStore :=
  let snapshotDir := filepath_Join [root o; "snapshots"] in
  match prepareDirectory snapshotDir kind with
  | (_, Some err) =>
      (Err (ErrWrap err "failed to create prepare snapshot dir"), ms)
  | (td, None) =>
      match CreateSnapshot ms kind key parent opts with
      | Err err => (Err (ErrWrap err "failed to create snapshot"), ms)
      | Ok (s, ms') =>
          let chown : option error :=
            match Snapshot_ParentIDs s with
            | [] => None
            | p0 :: _ =>
                match Stat_owner (os o) (upperPath p0) with
                | Err err => Some (ErrWrap err "failed to stat parent")
                | Ok (uid, gid) =>
                    match Lchown (os o) (filepath_Join [td; "fs"]) uid gid with
                    | Some err => Some (ErrWrap err "failed to chown")
                    | None => None
                    end
                end
            end in
          match chown with
          | Some err => (Err err, ms)
          | None =>
              let path := filepath_Join [snapshotDir; Snapshot_ID s] in
              match Rename (os o) td path with
              | Some err =>
                  (Err (reclaim path (ErrWrap err "failed to rename")), ms)
              | None =>
                  match mounts ms' s parent with
                  | Err err => (Err (reclaim path err), ms')
                  | Ok m => (Ok m, ms')
                  end
              end
          end
      end
  end.

(** [View]. *)
Definition View (ms : MetaStore) (key parent : string) (opts : list Opt)
  : result (list mount.Mount) * MetaStore :=
  createSnapshot ms KindView key parent opts.

(** [Commit]. *)
Definition Commit (ms : MetaStore) (name key : string) (opts : list Opt)
  : option error * MetaStore :=
  match GetInfo ms key with
  | Err err => (Some err, ms)
  | Ok (id, info, _) =>
      (* Avoid walking through mounted remote snapshot. *)
      let usage : result snapshots.Usage :=
        match Info_Labels info !! targetSnapshotLabel with
        | Some _ => Ok Usage_zero
        | None => DiskUsage (os o) (upperPath id)
        end in
      match usage with
      | Err err => (Some err, ms)
      | Ok usage =>
          match CommitActive ms key name usage opts with
          | Err err => (Some (ErrWrap err "failed to commit snapshot"), ms)
          | Ok (_, ms') => (None, ms')
          end
      end
  end.

(** The loop of [prepareRemoteSnapshot] over the plugins from index
    [fsid] on: the first plugin whose [Mount] returns nil wins. *)
Fixpoint mountFirst (chain : list FileSystem) (fsid : Z)
    (mountpoint : string) (labels : gmap string string) : option Z :=
  match chain with
  | [] => None
  | f :: rest =>
      match Mount f mountpoint labels with
      | None => Some fsid
      | Some _ => mountFirst rest (fsid + 1) mountpoint labels
      end
  end.

(** [prepareRemoteSnapshot]. *)
Definition prepareRemoteSnapshot (ms : MetaStore) (key : string)
    (labels : gmap string string) : result Z :=
  match GetInfo ms key with
  | Err err => Err err
  | Ok (id, _, _) =>
      match mountFirst (fsChain o) 0 (upperPath id) labels with
      | Some fsid => Ok fsid
      | None => Err (ErrNew "mountable remote layer not found")
      end
  end.

(** [Prepare]. *)
Definition Prepare (ms : MetaStore) (key parent : string)
    (opts : list Opt) : result (list mount.Mount) * MetaStore :=
  match createSnapshot ms KindActive key parent opts with
  | (Err err, ms1) => (Err err, ms1)
  | (Ok m, ms1) =>
      match apply_opts opts Info_zero with
      | Err err => (Err err, ms1)
      | Ok base =>
          match Info_Labels base !! targetSnapshotLabel with
          | Some target =>
              match prepareRemoteSnapshot ms1 key (Info_Labels base) with
              | Err _ => (Ok m, ms1) (* fallback to the normal behavior *)
              | Ok fsid =>
                  let labels :=
                    <[filesystemIDLabel := strconv.FormatInt fsid]>
                      (Info_Labels base) in
                  match Commit ms1 target key
                          (opts ++ [WithLabels labels]) with
                  | (Some _, ms2) => (Ok m, ms2) (* fallback *)
                  | (None, ms2) =>
                      (Err (ErrWrap ErrAlreadyExists
                              ("target snapshot " +:+ quote target)), ms2)
                  end
              end
          | None => (Ok m, ms1)
          end
      end
  end.

End Operations.

(** *** Removal and cleanup *)

Section Removal.
Variable o : snapshotter.

(** [os.Open(dir)] followed by [fd.Readdirnames(0)]: the names found in
    the directory, or the error of either call. *)
Variable Readdirnames : string → result (list string).

(** [getCleanupDirectories]: the directories under [snapshots] that the
    store has no id for. *)
Definition getCleanupDirectories (ms : MetaStore) : result (list string) :=
  let ids := IDMap ms in
  let snapshotDir := filepath_Join [root o; "snapshots"] in
  match Readdirnames snapshotDir with
  | Err err => Err err
  | Ok dirs =>
      Ok (foldl
            (λ cleanup d,
               match ids !! d with
               | Some _ => cleanup
               | None => cleanup ++ [filepath_Join [snapshotDir; d]]
               end)
            [] dirs)
  end.

(** [cleanupDirectories]: the same under a write transaction that is
    rolled back. *)
Definition cleanupDirectories (ms : MetaStore) : result (list string) :=
  getCleanupDirectories ms.

(** The loop [for _, dir := range ... { cleanupSnapshotDirectory(dir) }]
    of [Cleanup] and of [Remove]: a failure is logged and the loop goes
    on.  The result pairs every directory with the outcome of its
    removal. *)
Definition removeDirectories (dirs : list string)
  : list (string * option error) :=
  (λ dir, (dir, cleanupSnapshotDirectory o dir)) <$> dirs.

(** [Cleanup]. *)
Definition Cleanup (ms : MetaStore)
  : option error * list (string * option error) :=
  match cleanupDirectories ms with
  | Err err => (Some err, [])
  | Ok cleanup => (None, removeDirectories cleanup)
  end.

(** [Remove]: the directories are removed after the transaction is
    committed, and only when it is. *)
Definition Remove (ms : MetaStore) (key : string)
  : option error * MetaStore * list (string * option error) :=
  match storage.Remove ms key with
  | Err err => (Some (ErrWrap err "failed to remove"), ms, [])
  | Ok (_, _, ms') =>
      if negb (asyncRemove o) then
        match getCleanupDirectories ms' with
        | Err err =>
            (Some (ErrWrap err "unable to get directories for removal"), ms, [])
        | Ok removals => (None, ms', removeDirectories removals)
        end
      else (None, ms', [])
  end.

End Removal.

(** *** The chain of filesystem plugins *)

(** What [InitFn] finds for a plugin of type [RemoteFileSystemPlugin]:
    [p.Instance()] failed, the instance is not a [fsplugin.FileSystem],
    or it is one. *)
Inductive PluginInstance : Type :=
| InstanceFailed (err : error)
| InstanceInvalidAPI
| InstanceFileSystem (f : FileSystem).

(** The body of the loop [for id, p := range ps] of [InitFn], on the two
    variables [fsMap] and [filesystems]. *)
Definition InitFn_register (acc : gmap string FileSystem * list string)
    (id : string) (p : PluginInstance) : gmap string FileSystem * list string :=
  match p with
  | InstanceFailed _ => acc
  | InstanceInvalidAPI => acc
  | InstanceFileSystem f => (<[id := f]> acc.1, acc.2 ++ [id])
  end.

(** The loop [for prio, id := range filesystems] of [InitFn]. *)
Fixpoint InitFn_chain (fsMap : gmap string FileSystem)
    (filesystems : list string) (fsChain : list FileSystem)
  : result (list FileSystem) :=
  match filesystems with
  | [] => Ok fsChain
  | id :: rest =>
      match fsMap !! id with
      | None =>
          Err (ErrNew ("required filesystem " +:+ quote id +:+ " not found"))
      | Some f => InitFn_chain fsMap rest (fsChain ++ [f])
      end
  end.

(** The part of [InitFn] that builds [fsChain], the chain it hands to
    [NewSnapshotter].  [ps] is the answer of [ic.GetByType] ([None] when
    it is nil or comes with an error); the plugins are visited in the
    order of [map_to_list], Go's order being unspecified.
    [config_FileSystems] is [config.FileSystems], [None] when nil. *)
Definition InitFn_fsChain (ps : option (gmap string PluginInstance))
    (config_FileSystems : option (list string)) : result (list FileSystem) :=
  let registered : gmap string FileSystem * list string :=
    match ps with
    | Some ps =>
        foldl (λ acc kv, InitFn_register acc kv.1 kv.2) (∅, [])
          (map_to_list ps)
    | None => (∅, [])
    end in
  let fsMap := registered.1 in
  let filesystems :=
    match config_FileSystems with
    | Some configured => configured
    | None => registered.2
    end in
  match filesystems with
  | [] => Err (ErrNew "no filesystem plugin found, check the installation")
  | _ => InitFn_chain fsMap filesystems []
  end.

End snapshot.

(** ** Package [service]: the sources of a layer *)

Module service.

Section Sources.
Variable Source : Type.

(** [source.GetSources]. *)
Definition GetSources : Type := gmap string string → result (list Source).

(** The loop of the function that [sources] returns.  [allErr] is the
    list of the [Errors] of the [multierror.Error] gathered so far, the
    empty list standing for nil; the providers' own errors are plain
    errors, which [multierror.Append] appends as they are. *)
Fixpoint sources_loop (ps : list GetSources) (labels : gmap string string)
    (allErr : list error) : option (list Source) * list error :=
  match ps with
  | [] => (None, allErr)
  | p :: rest =>
      match p labels with
      | Ok src => (Some src, [])
      | Err err => sources_loop rest labels (allErr ++ [err])
      end
  end.

(** [sources]: the first component is the slice returned ([None] for
    nil), the second the error. *)
Definition sources (ps : list GetSources)
  : gmap string string → option (list Source) * list error :=
  λ labels, sources_loop ps labels [].

End Sources.

End service.

(** ** Package [stargz]: the filesystem plugin *)

Module stargz.

Definition PrefetchLandmark : string := ".prefetch.landmark".
Definition blockSize : Z := 512.
Definition memoryCacheType : string := "memory".
Definition whiteoutPrefix : string := ".wh.".
Definition whiteoutOpaqueDir : string := whiteoutPrefix +:+ whiteoutPrefix +:+ ".opq".
Definition opaqueXattr : string := "trusted.overlay.opaque".
Definition opaqueXattrValue : string := "y".
Definition stateDirName : string := ".stargz-snapshotter".
Definition defaultHTTPCacheChunkSize : Z := 50000.
Definition defaultLRUCacheEntry : Z := 5000.
Definition defaultLayerValidInterval : Z := 60.

(** *** Machine integers and time *)

(** Conversion to [uint32] and the wrap-around of [int64] arithmetic. *)
Definition uint32 (z : Z) : Z := z mod 2 ^ 32.
Definition int64 (z : Z) : Z := (z + 2 ^ 63) mod 2 ^ 64 - 2 ^ 63.

(** [time.Duration] is an [int64] count of nanoseconds. *)
Definition Second : Z := 1000000000.

(** A [time.Time] is the reading of the clock in nanoseconds;
    [t.Sub(u)] saturates at the ends of [Duration]. *)
Definition time_Sub (t u : Z) : Z :=
  Z.max (- 2 ^ 63) (Z.min (2 ^ 63 - 1) (t - u)).

(** *** HTTP as the plugin uses it *)

Record Request : Type := mkRequest {
  Method : string;
  URL : string;
  Header : gmap string string;
  Deadline : Z;      (* the timeout of the request's context *)
  Close : bool;
}.

Record Response : Type := mkResponse {
  StatusCode : Z;
  ResponseHeader : gmap string string;
}.

(** [http.RoundTripper]: the transport and the registry behind it. *)
Definition RoundTripper : Type := Request → result Response.

(** [http.Header.Get]. *)
Definition Header_Get (h : gmap string string) (k : string) : string :=
  default EmptyString (h !! k).

Definition StatusOK : Z := 200.
Definition StatusPartialContent : Z := 206.

(** *** Types of the libraries the plugin calls *)

(** [docker.Named], read through [docker.Domain] and [docker.Path]. *)
Record Named : Type := mkNamed {
  Domain : string;
  Path : string;
}.

(** [name.Reference], read through [Name()]; [name.Insecure] is the only
    option the plugin passes. *)
Record Reference : Type := mkReference {
  Reference_Name : string;
  Reference_Insecure : bool;
}.

(** [cache.BlobCache] by the constructor that made it. *)
Inductive BlobCache : Type :=
| MemoryCache
| DirectoryCache (dir : string) (maxEntry : Z).

(** The functions of other packages that the plugin calls and whose
    bodies are not in this repository's sources. *)
Record Libs : Type := mkLibs {
  (* net/url, through http.NewRequest: does the URL parse? *)
  url_valid : string → bool;
  (* regexp.Match(pattern, host): (matched, err) *)
  regexp_Match : string → string → bool * option error;
  (* containerd/reference/docker *)
  ParseDockerRef : string → result Named;
  (* go-containerregistry/pkg/name *)
  name_ParseReference : string → bool → result Reference;
  (* authn keychain and transport.New, behind refreshTransport *)
  transport_New : Reference → result RoundTripper;
  (* cache.NewDirectoryCache *)
  NewDirectoryCache : string → Z → result BlobCache;
  (* encoding/json: a string value, quoted and escaped *)
  json_string : string → string;
  (* encoding/json: a finite float64 *)
  json_float : float → string;
}.

(** *** Configuration and construction *)

Record Config : Type := mkConfig {
  LRUCacheEntry : Z;
  HTTPCacheChunkSize : Z;
  HTTPCacheType : string;
  FSCacheType : string;
  LayerValidInterval : Z; (* set to negative value to check every time *)
  Insecure : list string;
  NoPrefetch : bool;
  Debug : bool;
}.

Record connection : Type := mkConnection {
  url : string;
  tr : RoundTripper;
  lastCheck : Z;
}.

(** [type filesystem struct], without the two mutexes and the task
    manager. *)
Record filesystem : Type := mkFilesystem {
  httpCacheChunkSize : Z;
  httpCache : BlobCache;
  fsCache : BlobCache;
  layerValidInterval : Z;
  noprefetch : bool;
  insecure : list string;
  pullTransports : gmap string RoundTripper;
  conn : gmap string connection;
  debug : bool;
}.

Definition set_conn (fs : filesystem) (c : gmap string connection) : filesystem :=
  mkFilesystem (httpCacheChunkSize fs) (httpCache fs) (fsCache fs)
    (layerValidInterval fs) (noprefetch fs) (insecure fs)
    (pullTransports fs) c (debug fs).

Definition set_pullTransports (fs : filesystem)
    (t : gmap string RoundTripper) : filesystem :=
  mkFilesystem (httpCacheChunkSize fs) (httpCache fs) (fsCache fs)
    (layerValidInterval fs) (noprefetch fs) (insecure fs)
    t (conn fs) (debug fs).

Section Plugin.
Variable lib : Libs.

(** [getCache]. *)
Definition getCache (ctype dir : string) (maxEntry : Z) : result BlobCache :=
  if decide (ctype = memoryCacheType) then Ok MemoryCache
  else NewDirectoryCache lib dir maxEntry.

(** [NewFilesystem]. *)
Definition NewFilesystem (root : string) (config : Config)
  : result filesystem :=
  let chunk :=
    if HTTPCacheChunkSize config =? 0 then defaultHTTPCacheChunkSize
    else HTTPCacheChunkSize config in
  let interval := LayerValidInterval config in
  let interval :=
    if interval =? 0 then
      (* zero means "use default interval" *)
      defaultLayerValidInterval
    else if interval <? 0 then
      (* negative value means "check every time" *)
      0
    else interval in
  let maxEntry :=
    if LRUCacheEntry config =? 0 then defaultLRUCacheEntry
    else LRUCacheEntry config in
  match getCache (HTTPCacheType config)
          (filepath_Join [root; "httpcache"]) maxEntry with
  | Err err => Err err
  | Ok hc =>
      match getCache (FSCacheType config)
              (filepath_Join [root; "fscache"]) maxEntry with
      | Err err => Err err
      | Ok fc =>
          Ok (mkFilesystem chunk hc fc (int64 (interval * Second))
                (NoPrefetch config) (Insecure config) ∅ ∅ (Debug config))
      end
  end.

(** [http.NewRequest(method, url, nil)]. *)
Definition NewRequest (method url : string) : result Request :=
  if url_valid lib url
  then Ok (mkRequest method url ∅ 0 false)
  else Err (ErrNew ("parse " +:+ quote url)).

(** The three lines that follow every [NewRequest] of the plugin's
    probes: the 30-second context, [Close = false], the [Range]
    header. *)
Definition probe (req : Request) : Request :=
  mkRequest (Method req) (URL req)
    (<["Range" := "bytes=0-1"]> (Header req)) (30 * Second) false.

(** [Check], at the clock reading [now].  The third component lists
    the requests handed to the transport. *)
Definition Check (fs : filesystem) (now : Z) (mountpoint : string)
  : option error * filesystem * list Request :=
  match conn fs !! mountpoint with
  | None => (Some (ErrNew "connection not regisiterd"), fs, [])
  | Some c =>
      if time_Sub now (lastCheck c) <? layerValidInterval fs then
        (* do nothing if not expired *)
        (None, fs, [])
      else
        let c := mkConnection (url c) (tr c) now in
        let fs := set_conn fs (<[mountpoint := c]> (conn fs)) in
        match NewRequest "GET" (url c) with
        | Err err => (Some err, fs, [])
        | Ok req =>
            let req := probe req in
            match tr c req with
            | Err err => (Some err, fs, [req])
            | Ok res =>
                if negb (StatusCode res =? StatusOK)
                   && negb (StatusCode res =? StatusPartialContent)
                then (Some (ErrNew ("unexpected status code "
                                      +:+ strconv.FormatInt (StatusCode res))),
                      fs, [req])
                else (None, fs, [req])
            end
        end
  end.

(** [isInsecure]: the error of [regexp.Match] is dropped. *)
Fixpoint matchAny (patterns : list string) (host : string) : bool :=
  match patterns with
  | [] => false
  | i :: rest =>
      if fst (regexp_Match lib i host) then true else matchAny rest host
  end.

Definition isInsecure (fs : filesystem) (host : string) : bool :=
  matchAny (insecure fs) host.

(** [refreshTransport]. *)
Definition refreshTransport (ref : Reference) : result RoundTripper :=
  transport_New lib ref.

(** [checkAndRedirect]. *)
Definition checkAndRedirect (url : string) (tr : RoundTripper)
  : result string * list Request :=
  match NewRequest "GET" url with
  | Err err =>
      (Err (ErrNew ("failed to request to the registry of " +:+ quote url)), [])
  | Ok req =>
      let req := probe req in
      match tr req with
      | Err err => (Err (ErrNew "failed to redirect"), [req])
      | Ok res =>
          if 400 <=? StatusCode res
          then (Err (ErrNew "failed to redirect"), [req])
          else
            let redir := Header_Get (ResponseHeader res) "Location" in
            if negb (bool_decide (redir = EmptyString))
               && (Z.quot (StatusCode res) 100 =? 3)
            then (Ok redir, [req])
            else (Ok url, [req])
      end
  end.

(** The local variables of [resolve] once the reference is parsed:
    scheme, host and path. *)
Definition resolveHost (named : Named) : string :=
  if decide (Domain named = "docker.io") then "registry-1.docker.io"
  else Domain named.

Definition resolveScheme (fs : filesystem) (host : string) : string :=
  if isInsecure fs host then "http" else "https".

(** [fmt.Sprintf("%s://%s/v2/%s/blobs/%s", scheme, host, path, digest)] *)
Definition blobURL (scheme host path digest : string) : string :=
  scheme +:+ "://" +:+ host +:+ "/v2/" +:+ path +:+ "/blobs/" +:+ digest.

(** [resolve]. *)
Definition resolve (fs : filesystem) (ref digest : string)
  : result (string * RoundTripper) * filesystem * list Request :=
  (* Parse reference in docker convention *)
  match ParseDockerRef lib ref with
  | Err err => (Err err, fs, [])
  | Ok named =>
      let host := resolveHost named in
      let path := Path named in
      let scheme := resolveScheme fs host in
      let url := blobURL scheme host path digest in
      match name_ParseReference lib (host +:+ "/" +:+ path)
              (isInsecure fs host) with
      | Err err =>
          (Err (ErrNew ("failed to parse reference " +:+ quote ref)), fs, [])
      | Ok nameref =>
          (* Try to use cached transport *)
          let cached : option (string * RoundTripper) * list Request :=
            match pullTransports fs !! Reference_Name nameref with
            | Some tr =>
                match checkAndRedirect url tr with
                | (Ok url', reqs) => (Some (url', tr), reqs)
                | (Err _, reqs) => (None, reqs)
                end
            | None => (None, [])
            end in
          match cached with
          | (Some hit, reqs) => (Ok hit, fs, reqs)
          | (None, reqs) =>
              (* Refresh the transport and check the connectivity *)
              match refreshTransport nameref with
              | Err err => (Err err, fs, reqs)
              | Ok tr =>
                  match checkAndRedirect url tr with
                  | (Err err, reqs') => (Err err, fs, reqs ++ reqs')
                  | (Ok url', reqs') =>
                      (* Update transports cache *)
                      (Ok (url', tr),
                       set_pullTransports fs
                         (<[Reference_Name nameref := tr]> (pullTransports fs)),
                       reqs ++ reqs')
                  end
              end
          end
      end
  end.

End Plugin.

(** *** File modes *)

(** The bits of [os.FileMode] and of the system's [st_mode]. *)
Definition ModeDir : Z := 2 ^ 31.
Definition ModeSymlink : Z := 2 ^ 27.
Definition ModeDevice : Z := 2 ^ 26.
Definition ModeNamedPipe : Z := 2 ^ 25.
Definition ModeSocket : Z := 2 ^ 24.
Definition ModeSetuid : Z := 2 ^ 23.
Definition ModeSetgid : Z := 2 ^ 22.
Definition ModeCharDevice : Z := 2 ^ 21.
Definition ModeSticky : Z := 2 ^ 20.
Definition ModeIrregular : Z := 2 ^ 19.
Definition ModeType : Z :=
  Z.lor ModeDir (Z.lor ModeSymlink (Z.lor ModeNamedPipe (Z.lor ModeSocket
    (Z.lor ModeDevice (Z.lor ModeCharDevice ModeIrregular))))).

Definition S_IFBLK : Z := 24576.  (* 0x6000 *)
Definition S_IFCHR : Z := 8192.   (* 0x2000 *)
Definition S_IFDIR : Z := 16384.  (* 0x4000 *)
Definition S_IFIFO : Z := 4096.   (* 0x1000 *)
Definition S_IFLNK : Z := 40960.  (* 0xa000 *)
Definition S_IFREG : Z := 32768.  (* 0x8000 *)
Definition S_IFSOCK : Z := 49152. (* 0xc000 *)
Definition S_ISGID : Z := 1024.   (* 0x400 *)
Definition S_ISUID : Z := 2048.   (* 0x800 *)
Definition S_ISVTX : Z := 512.    (* 0x200 *)

(** [fileModeToSystemMode]. *)
Definition fileModeToSystemMode (m : Z) : Z :=
  let sm := Z.land m 511 (* 0777 *) in
  let ty := Z.land m ModeType in
  let sm :=
    if ty =? ModeDevice then Z.lor sm S_IFBLK
    else if ty =? Z.lor ModeDevice ModeCharDevice then Z.lor sm S_IFCHR
    else if ty =? ModeDir then Z.lor sm S_IFDIR
    else if ty =? ModeNamedPipe then Z.lor sm S_IFIFO
    else if ty =? ModeSymlink then Z.lor sm S_IFLNK
    else if ty =? ModeSocket then Z.lor sm S_IFSOCK
    else Z.lor sm S_IFREG (* regular file. *) in
  let sm := if negb (Z.land m ModeSetgid =? 0) then Z.lor sm S_ISGID else sm in
  let sm := if negb (Z.land m ModeSetuid =? 0) then Z.lor sm S_ISUID else sm in
  let sm := if negb (Z.land m ModeSticky =? 0) then Z.lor sm S_ISVTX else sm in
  sm.

(** *** The table of contents and the FUSE nodes *)

(** [stargz.TOCEntry] of the CRFS library, with the fields and methods
    the nodes read: [Name], [Uid], [Gid], [Xattrs], [Stat().Mode()], the
    children by base name ([ForeachChild], [LookupChild]) and the address
    of the entry, which [inodeOfEnt] turns into the inode number. *)
Inductive TOCEntry : Type := mkTOCEntry {
  Name : string;
  Uid : Z;
  Gid : Z;
  Xattrs : gmap string string;
  Stat_Mode : Z;
  addr : Z;
  children : gmap string TOCEntry;
}.

Definition LookupChild (e : TOCEntry) (baseName : string) : option TOCEntry :=
  children e !! baseName.

(** [ForeachChild] ranges over a Go map, in no fixed order; the model
    visits the children in the order of [map_to_list].  The callbacks of
    this package never stop the iteration. *)
Definition ForeachChild {A} (e : TOCEntry)
    (f : A → string → TOCEntry → A) (a : A) : A :=
  foldl (λ acc kv, f acc kv.1 kv.2) a (map_to_list (children e)).

(** [inodeOfEnt]. *)
Definition inodeOfEnt (e : TOCEntry) : Z := addr e.

(** [fuse.Status], the values this package returns. *)
Inductive Status : Type := OK | ENOENT | EPERM | EIO | ENOATTR.

#[export] Instance Status_eq_dec : EqDecision Status.
Proof. solve_decision. Defined.

(** [fuse.Owner] of the calling context. *)
Record Owner : Type := mkOwner {
  Owner_Uid : Z;
  Owner_Gid : Z;
}.

Record DirEntry : Type := mkDirEntry {
  DirEntry_Mode : Z;
  DirEntry_Name : string;
  DirEntry_Ino : Z;
}.

(** The part of [urlReaderAt] that the state file reads: the size of the
    blob and the counter behind [getFetchedSize]. *)
Record urlReaderAt : Type := mkUrlReaderAt {
  ur_size : Z;
  ur_fetchedSize : Z;
}.

Definition getFetchedSize (ur : urlReaderAt) : Z := ur_fetchedSize ur.

Record statJSON : Type := mkStatJSON {
  Error : string;          (* json:"error,omitempty" *)
  Digest : string;         (* json:"digest" *)
  Size : Z;                (* json:"size" *)
  FetchedSize : Z;         (* json:"fetchedSize" *)
  FetchedPercent : float;  (* json:"fetchedPercent" *)
}.

(** [type statFile struct].  [statFile_ur] is the reader that the mount
    shares with the state directory and the file reads; a fetch by any of
    them shows here as a new value of its counter. *)
Record statFile : Type := mkStatFile {
  statFile_name : string;
  statFile_ur : urlReaderAt;
  statFile_statJSON : statJSON;
  statFile_addr : Z;
}.

(** [type state struct]; its [ur] is [statFile_ur] of its file. *)
Record state : Type := mkState {
  state_statFile : statFile;
  state_addr : Z;
}.

(** [newState]; the two addresses are those of the allocated nodes. *)
Definition newState (digest : string) (ur : urlReaderAt)
    (stateAddr fileAddr : Z) : state :=
  mkState
    (mkStatFile (digest +:+ ".json") ur
       (mkStatJSON EmptyString digest (ur_size ur) 0 0%float) fileAddr)
    stateAddr.

Definition state_ino (s : state) : Z := state_addr s.
Definition state_mode (s : state) : Z := 320. (* 0500 *)
Definition statFile_ino (e : statFile) : Z := statFile_addr e.
Definition statFile_mode (e : statFile) : Z := 256. (* 0400 *)

(** [type node struct], without the pointers to the filesystem and to the
    archive reader. *)
Record node : Type := mkNode {
  node_e : TOCEntry;
  node_s : state;
  node_root : string;
  node_opaque : bool; (* true if this node is an overlayfs opaque directory *)
}.

(** [type whiteout struct]. *)
Record whiteout : Type := mkWhiteout {
  whiteout_oe : TOCEntry;
}.

(** What [node.Lookup] hands to [NewChild], and so what the inode of a
    [node] holds as its children. *)
Inductive child : Type :=
| ChildNode (isDir : bool) (n : node)
| ChildState (s : state)
| ChildWhiteout (w : whiteout).

(** The root node that [Mount] builds: [opaque] is left at its zero
    value. *)
Definition rootNode (rootEntry : TOCEntry) (s : state) (mountpoint : string)
  : node :=
  mkNode rootEntry s mountpoint false.

(** [w[len(whiteoutPrefix):]]. *)
Fixpoint string_drop (n : nat) (s : string) : string :=
  match n, s with
  | O, _ => s
  | S n', String _ s' => string_drop n' s'
  | S _, EmptyString => EmptyString
  end.

Definition HasPrefix (s prefix : string) : bool := String.prefix prefix s.

(** The three variables that the callback of [OpenDir] updates. *)
Record listing : Type := mkListing {
  ents : list DirEntry;
  whiteouts : gmap string TOCEntry;
  normalEnts : gmap string bool;
}.

(** The callback that [OpenDir] passes to [ForeachChild]. *)
Definition OpenDir_visit (n : node) (acc : listing)
    (baseName : string) (ent : TOCEntry) : listing :=
  (* We don't want to show prefetch landmark in "/". *)
  if bool_decide (Name (node_e n) = EmptyString)
     && bool_decide (baseName = PrefetchLandmark)
  then acc
  (* We don't want to show whiteouts. *)
  else if HasPrefix baseName whiteoutPrefix then
    if bool_decide (baseName = whiteoutOpaqueDir) then acc
    else mkListing (ents acc) (<[baseName := ent]> (whiteouts acc))
           (normalEnts acc)
  (* This is a normal entry. *)
  else mkListing
         (ents acc ++
            [mkDirEntry (fileModeToSystemMode (Stat_Mode ent)) baseName
               (inodeOfEnt ent)])
         (whiteouts acc)
         (<[baseName := true]> (normalEnts acc)).

(** The loop over [whiteouts]: a whiteout is listed when no entry
    replaces its target. *)
Definition OpenDir_whiteouts (acc : listing) : list DirEntry :=
  foldl
    (λ ents kv,
       let target := string_drop (String.length whiteoutPrefix) kv.1 in
       if negb (default false (normalEnts acc !! target))
       then ents ++ [mkDirEntry S_IFCHR target (inodeOfEnt kv.2)]
       else ents)
    (ents acc) (map_to_list (whiteouts acc)).

Definition name_le (a b : DirEntry) : Prop :=
  String.le (DirEntry_Name a) (DirEntry_Name b).

#[export] Instance name_le_dec a b : Decision (name_le a b).
Proof. unfold name_le. apply _. Defined.

(** [sort.Slice(ents, func(i, j int) bool { return ents[i].Name <
    ents[j].Name })].  Go's sort is not stable; the model sorts with a
    merge sort, which agrees with every sort on the order of the names. *)
Definition sort_by_Name (ents : list DirEntry) : list DirEntry :=
  merge_sort name_le ents.

(** [node.OpenDir]. *)
Definition OpenDir (n : node) : list DirEntry * Status :=
  let acc := ForeachChild (node_e n) (OpenDir_visit n) (mkListing [] ∅ ∅) in
  (* Append whiteouts if no entry replaces the target entry in the lower layer. *)
  let ents := OpenDir_whiteouts acc in
  (* Append state directory in "/". *)
  let ents :=
    if decide (Name (node_e n) = EmptyString) then
      ents ++ [mkDirEntry (Z.lor S_IFDIR (state_mode (node_s n))) stateDirName
                 (state_ino (node_s n))]
    else ents in
  (sort_by_Name ents, OK).

(** [node.Lookup] on a node whose inode holds the children [kids].  The
    attributes written to [out] are not modelled; [GetAttr] of a child
    that this function created returns [OK]. *)
Definition Lookup (n : node) (kids : gmap string child) (name : string)
  : option child * Status * gmap string child :=
  match kids !! name with
  | Some c => (Some c, OK, kids)
  | None =>
      (* We don't want to show prefetch landmark in "/". *)
      if bool_decide (Name (node_e n) = EmptyString)
         && bool_decide (name = PrefetchLandmark)
      then (None, ENOENT, kids)
      (* We don't want to show whiteouts. *)
      else if HasPrefix name whiteoutPrefix then (None, ENOENT, kids)
      (* state directory *)
      else if bool_decide (Name (node_e n) = EmptyString)
              && bool_decide (name = stateDirName)
      then
        let c := ChildState (node_s n) in
        (Some c, OK, <[name := c]> kids)
      else
        match LookupChild (node_e n) name with
        | None =>
            (* If the entry exists as a whiteout, show an overlayfs-styled
               whiteout node. *)
            match LookupChild (node_e n) (whiteoutPrefix +:+ name) with
            | Some wh =>
                let c := ChildWhiteout (mkWhiteout wh) in
                (Some c, OK, <[name := c]> kids)
            | None => (None, ENOENT, kids)
            end
        | Some ce =>
            let opaque :=
              match LookupChild ce whiteoutOpaqueDir with
              | Some _ => true
              | None => false
              end in
            let c :=
              ChildNode (bool_decide (Z.land (Stat_Mode ce) ModeDir ≠ 0))
                (mkNode ce (node_s n) (node_root n) opaque) in
            (Some c, OK, <[name := c]> kids)
        end
  end.

(** [node.Access]. *)
Definition Access (n : node) (mode : Z) (caller : Owner) : Status :=
  if Owner_Uid caller =? 0 then
    (* root can do anything. *)
    OK
  else if mode =? 0 then
    (* Requires nothing. *)
    OK
  else
    let shift :=
      if uint32 (Uid (node_e n)) =? Owner_Uid caller then 6
      else if uint32 (Gid (node_e n)) =? Owner_Gid caller then 3
      else 0 in
    if negb (Z.land (uint32 (Z.shiftl mode shift))
               (fileModeToSystemMode (Stat_Mode (node_e n))) =? 0)
    then OK
    else EPERM.

(** [state.Access]: [mode&s.mode()>>6 != 0] groups as
    [((mode & s.mode()) >> 6) != 0], the two operators having the same
    precedence in Go. *)
Definition state_Access (s : state) (mode : Z) (caller : Owner) : Status :=
  if mode =? 0 then
    (* Requires nothing. *)
    OK
  else if (Owner_Uid caller =? 0)
          && negb (Z.shiftr (Z.land mode (state_mode s)) 6 =? 0)
  then
    (* root can read and open it (dr-x------ root root). *)
    OK
  else EPERM.

(** [statFile.Access]. *)
Definition statFile_Access (e : statFile) (mode : Z) (caller : Owner) : Status :=
  if mode =? 0 then
    (* Requires nothing. *)
    OK
  else if (Owner_Uid caller =? 0)
          && negb (Z.shiftr (Z.land mode (statFile_mode e)) 6 =? 0)
  then
    (* root can operate it. *)
    OK
  else EPERM.

(** [node.GetXAttr]; the value is nil unless the status is [OK]. *)
Definition GetXAttr (n : node) (attribute : string) : option string * Status :=
  if bool_decide (attribute = opaqueXattr) && node_opaque n then
    (* This node is an opaque directory so give overlayfs-compliant indicator. *)
    (Some opaqueXattrValue, OK)
  else
    match Xattrs (node_e n) !! attribute with
    | Some v => (Some v, OK)
    | None => (None, ENOATTR)
    end.

(** [node.ListXAttr]. *)
Definition ListXAttr (n : node) : list string * Status :=
  let attrs := if node_opaque n then [opaqueXattr] else [] in
  (attrs ++ (map_to_list (Xattrs (node_e n))).*1, OK).

(** *** The state file *)

(** [float64(x)] of an [int64]. *)
Definition float64 (z : Z) : float :=
  if z =? - 2 ^ 63 then
    PrimFloat.opp (PrimFloat.mul (PrimFloat.of_uint63 (Uint63.of_Z (2 ^ 62))) 2%float)
  else if z <? 0 then PrimFloat.opp (PrimFloat.of_uint63 (Uint63.of_Z (- z)))
  else PrimFloat.of_uint63 (Uint63.of_Z z).

(** [statFile.report], with the text of the error. *)
Definition report (e : statFile) (err : string) : statFile :=
  let j := statFile_statJSON e in
  mkStatFile (statFile_name e) (statFile_ur e)
    (mkStatJSON err (Digest j) (Size j) (FetchedSize j) (FetchedPercent j))
    (statFile_addr e).

(** [(s *state) report]. *)
Definition state_report (s : state) (err : string) : state :=
  mkState (report (state_statFile s) err) (state_addr s).

Section StateFile.
Variable lib : Libs.

Definition json_key (k : string) : string := quote k +:+ ":".

(** [json.Marshal(&e.statJSON)]: the fields in the order of the struct,
    [error] left out when empty; a NaN or an infinity is an
    [UnsupportedValueError]. *)
Definition json_Marshal (j : statJSON) : result string :=
  if PrimFloat.is_nan (FetchedPercent j) || PrimFloat.is_infinity (FetchedPercent j)
  then Err (ErrNew "json: unsupported value")
  else
    Ok ("{"
        +:+ (if decide (Error j = EmptyString) then EmptyString
             else json_key "error" +:+ json_string lib (Error j) +:+ ",")
        +:+ json_key "digest" +:+ json_string lib (Digest j) +:+ ","
        +:+ json_key "size" +:+ strconv.FormatInt (Size j) +:+ ","
        +:+ json_key "fetchedSize" +:+ strconv.FormatInt (FetchedSize j) +:+ ","
        +:+ json_key "fetchedPercent" +:+ json_float lib (FetchedPercent j)
        +:+ "}").

Definition newline : string := String (ascii_of_nat 10) EmptyString.

(** [updateStatUnlocked]: the two fields are stored in the struct before
    it is marshalled. *)
Definition updateStatUnlocked (e : statFile) : result string * statFile :=
  let j := statFile_statJSON e in
  let fetched := getFetchedSize (statFile_ur e) in
  let percent :=
    PrimFloat.mul (PrimFloat.div (float64 fetched) (float64 (Size j))) 100%float in
  let j := mkStatJSON (Error j) (Digest j) (Size j) fetched percent in
  let e := mkStatFile (statFile_name e) (statFile_ur e) j (statFile_addr e) in
  match json_Marshal j with
  | Err err => (Err err, e)
  | Ok js => (Ok (js +:+ newline), e)
  end.

(** [bytes.NewReader(st).ReadAt(dest, off)] for a [dest] of length
    [destLen]: the bytes copied, and whether the error is one other than
    [io.EOF]. *)
Definition ReadAt (st : string) (destLen : nat) (off : Z) : string * bool :=
  if off <? 0 then (EmptyString, true)
  else if Z.of_nat (String.length st) <=? off then (EmptyString, false)
  else (String.substring (Z.to_nat off)
          (Nat.min destLen (String.length st - Z.to_nat off)) st, false).

(** [statFile.Read]. *)
Definition Read (e : statFile) (destLen : nat) (off : Z)
  : option string * Status * statFile :=
  match updateStatUnlocked e with
  | (Err _, e) => (None, EIO, e)
  | (Ok st, e) =>
      match ReadAt st destLen off with
      | (_, true) => (None, EIO, e)
      | (data, false) => (Some data, OK, e)
      end
  end.

End StateFile.

(** *** Attributes *)

Definition uint64 (z : Z) : Z := z mod 2 ^ 64.

(** [fuse.Attr], with the fields that this package writes and, of those
    it leaves alone, the two other times. *)
Record Attr : Type := mkAttr {
  Attr_Ino : Z;
  Attr_Size : Z;
  Attr_Blocks : Z;
  Attr_Atime : Z;
  Attr_Mtime : Z;
  Attr_Ctime : Z;
  Attr_Mtimensec : Z;
  Attr_Mode : Z;
  Attr_Nlink : Z;
  Attr_Owner : Owner;
  Attr_Rdev : Z;
  Attr_Blksize : Z;
  Attr_Padding : Z;
}.

(** The fields and methods of [stargz.TOCEntry] that only the attribute
    functions read: [Stat().Size()], [Stat().ModTime()] as [Unix()] and
    [UnixNano()], [DevMajor], [DevMinor] and [NumLink].  They are kept
    apart from [TOCEntry] above, which carries the others. *)
Record TOCEntryStat : Type := mkTOCEntryStat {
  Stat_Size : Z;
  ModTime_Unix : Z;
  ModTime_UnixNano : Z;
  DevMajor : Z;
  DevMinor : Z;
  NumLink : Z;
}.

(** [unix.Mkdev] of [golang.org/x/sys/unix], on two [uint32]. *)
Definition Mkdev (major minor : Z) : Z :=
  Z.lor
    (Z.lor
       (Z.lor (Z.shiftl (Z.land major 4095 (* 0x00000fff *)) 8)
          (Z.shiftl (Z.land major 4294963200 (* 0xfffff000 *)) 32))
       (Z.land minor 255 (* 0x000000ff *)))
    (Z.shiftl (Z.land minor 4294967040 (* 0xffffff00 *)) 12).

(** [entryToAttr]. *)
Definition entryToAttr (e : TOCEntry) (fi : TOCEntryStat) (out : Attr)
  : Attr * Status :=
  let size := uint64 (Stat_Size fi) in
  let blocks := size / uint64 blockSize in
  let blocks :=
    if 0 <? size mod uint64 blockSize then uint64 (blocks + 1) else blocks in
  let nlink := uint32 (NumLink fi) in
  let nlink := if nlink =? 0 then 1 (* zero "NumLink" means one. *) else nlink in
  (mkAttr (inodeOfEnt e) size blocks (Attr_Atime out)
     (uint64 (ModTime_Unix fi)) (Attr_Ctime out)
     (uint32 (ModTime_UnixNano fi))
     (fileModeToSystemMode (Stat_Mode e)) nlink
     (mkOwner (uint32 (Uid e)) (uint32 (Gid e)))
     (uint32 (Mkdev (uint32 (DevMajor fi)) (uint32 (DevMinor fi))))
     blockSize 0,
   OK).

(** [entryToWhAttr]. *)
Definition entryToWhAttr (e : TOCEntry) (fi : TOCEntryStat) (out : Attr)
  : Attr * Status :=
  (mkAttr (inodeOfEnt e) 0 0 (Attr_Atime out)
     (uint64 (ModTime_Unix fi)) (Attr_Ctime out)
     (uint32 (ModTime_UnixNano fi))
     S_IFCHR 1 (mkOwner 0 0) (uint32 (Mkdev 0 0)) blockSize 0,
   OK).

(** [state.attr]. *)
Definition state_attr (s : state) (out : Attr) : Attr * Status :=
  (mkAttr (state_ino s) 0 0 (Attr_Atime out) 0 (Attr_Ctime out) 0
     (Z.lor S_IFDIR (state_mode s)) 1 (mkOwner 0 0) 0 blockSize 0,
   OK).

(** [GetAttr] of the node behind a child of a directory: [node.GetAttr],
    [state.GetAttr] and [whiteout.GetAttr]. *)
Definition GetAttr (c : child) (fi : TOCEntryStat) (out : Attr)
  : Attr * Status :=
  match c with
  | ChildNode _ n => entryToAttr (node_e n) fi out
  | ChildState s => state_attr s out
  | ChildWhiteout w => entryToWhAttr (whiteout_oe w) fi out
  end.

(** [state.OpenDir]. *)
Definition state_OpenDir (s : state) : list DirEntry * Status :=
  ([mkDirEntry (Z.lor S_IFREG (statFile_mode (state_statFile s)))
      (statFile_name (state_statFile s))
      (statFile_ino (state_statFile s))],
   OK).

Section StateAttr.
Variable lib : Libs.

(** [statFile.attr]: the text is rendered to learn its length; on a
    failure [out] is left as it was. *)
Definition statFile_attr (e : statFile) (out : Attr)
  : Attr * Status * statFile :=
  match updateStatUnlocked lib e with
  | (Err _, e) => (out, EIO, e)
  | (Ok st, e) =>
      let size := uint64 (Z.of_nat (String.length st)) in
      (mkAttr (statFile_ino e) size (size / uint64 blockSize)
         (Attr_Atime out) 0 (Attr_Ctime out) 0
         (Z.lor S_IFREG (statFile_mode e)) 1 (mkOwner 0 0) 0 blockSize 0,
       OK, e)
  end.

End StateAttr.

(** *** Reading a file of the layer *)

(** [io.ReaderAt] on a buffer of the given length at the given offset:
    the bytes read and, for a non-nil error, its text. *)
Definition ReaderAt : Type := nat → Z → string * option string.

(** [file.Read]; the state is the one that the nodes of the mount
    share. *)
Definition file_Read (ra : ReaderAt) (s : state) (destLen : nat) (off : Z)
  : option string * Status * state :=
  match ra destLen off with
  | (_, Some err) =>
      (None, EIO, state_report s ("failed to read node: " +:+ err))
  | (data, None) => (Some data, OK, s)
  end.

(** [node.Open]; [openFile] is [n.gr.openFile] by the name of the
    entry. *)
Definition Open (openFile : string → ReaderAt + string) (n : node)
  : option ReaderAt * Status * state :=
  match openFile (Name (node_e n)) with
  | inr err =>
      (None, EIO, state_report (node_s n) ("failed to open node: " +:+ err))
  | inl ra => (Some ra, OK, node_s n)
  end.

(** *** Mounting and unmounting a layer *)

(** [node.OnUnmount], on the filesystem the node points to. *)
Definition OnUnmount (n : node) (fs : filesystem) : filesystem :=
  set_conn fs (delete (node_root n) (conn fs)).

(** What [Mount] takes from outside this file: the two label names of
    the package [handler]; the CRFS archive behind a URL, read through
    [stargz.Open] and [Lookup("")] ([Ok None] when the archive has no
    root entry); [prefetch]; the FUSE server; the addresses of the two
    state nodes that [newState] allocates. *)
Record MountEnv : Type := mkMountEnv {
  TargetRefLabel : string;
  TargetDigestLabel : string;
  stargz_Open : string → Z → result (option TOCEntry);
  prefetch : string → Z → option error;
  fuse_NewServer : string → option error;
  WaitMount : string → option error;
  newState_addrs : string → Z * Z;
}.

Section Mounting.
Variable lib : Libs.
Variable env : MountEnv.

(** [getSize], with the request it hands to the transport. *)
Definition getSize (tr : RoundTripper) (url : string)
  : result Z * list Request :=
  match NewRequest lib "HEAD" url with
  | Err err => (Err err, [])
  | Ok req =>
      let req :=
        mkRequest (Method req) (URL req) (Header req) (30 * Second) false in
      match tr req with
      | Err err => (Err err, [req])
      | Ok res =>
          if negb (StatusCode res =? StatusOK)
          then (Err (ErrNew ("failed HEAD request with code "
                               +:+ strconv.FormatInt (StatusCode res))),
                [req])
          else
            match strconv.ParseInt
                    (Header_Get (ResponseHeader res) "Content-Length") with
            | Some size => (Ok size, [req])
            | None => (Err (ErrNew "strconv.ParseInt: parsing"), [req])
            end
      end
  end.

(** [Mount], at the clock reading [now].  The result has the error, the
    filesystem, the requests of [resolve] and [getSize] (those that read
    the archive are behind [stargz_Open] and [prefetch]) and the root
    node handed to the FUSE server.  The two background fetches change
    nothing that is modelled here. *)
Definition Mount (fs : filesystem) (now : Z) (mountpoint : string)
    (labels : gmap string string)
  : option error * filesystem * list Request * option node :=
  match labels !! TargetRefLabel env with
  | None => (Some (ErrNew "reference hasn't been passed"), fs, [], None)
  | Some ref =>
      match labels !! TargetDigestLabel env with
      | None => (Some (ErrNew "digest hasn't been passed"), fs, [], None)
      | Some digest =>
          (* authenticate to the registry using ~/.docker/config.json. *)
          match resolve lib fs ref digest with
          | (Err err, fs, reqs) => (Some err, fs, reqs, None)
          | (Ok (url, tr), fs, reqs) =>
              let fs :=
                set_conn fs
                  (<[mountpoint := mkConnection url tr now]> (conn fs)) in
              (* Get size information. *)
              match getSize tr url with
              | (Err err, reqs') => (Some err, fs, reqs ++ reqs', None)
              | (Ok size, reqs') =>
                  let reqs := reqs ++ reqs' in
                  (* Construct filesystem from the remote stargz layer. *)
                  let ur := mkUrlReaderAt size 0 in
                  match stargz_Open env url size with
                  | Err err => (Some err, fs, reqs, None)
                  | Ok None =>
                      (* [return err] with the nil [err] of [stargz.Open] *)
                      (None, fs, reqs, None)
                  | Ok (Some root) =>
                      match (if noprefetch fs then None
                             else prefetch env url size) with
                      | Some err => (Some err, fs, reqs, None)
                      | None =>
                          (* Mounting stargz *)
                          let '(stateAddr, fileAddr) :=
                            newState_addrs env mountpoint in
                          let n :=
                            rootNode root
                              (newState digest ur stateAddr fileAddr)
                              mountpoint in
                          match fuse_NewServer env mountpoint with
                          | Some err => (Some err, fs, reqs, None)
                          | None => (WaitMount env mountpoint, fs, reqs, Some n)
                          end
                      end
                  end
              end
          end
      end
  end.

End Mounting.
End stargz.

(** * Specifications

    The predicates in which the properties of the two packages are
    stated. *)

Module storage_spec.
Import storage.

(** The sequence is not negative, every snapshot has a positive id not
    above it, and the parent of a snapshot is a committed snapshot with a
    smaller id. *)
Definition wf_store (ms : MetaStore) : Prop :=
  0 ≤ sequence ms
  ∧ ∀ key b, buckets ms !! key = Some b →
      0 < b_id b ≤ sequence ms
      ∧ (b_parent b ≠ EmptyString →
         ∃ pb, buckets ms !! b_parent b = Some pb
               ∧ b_kind pb = KindCommitted
               ∧ b_id pb < b_id b).

End storage_spec.

Module snapshot_spec.
Import storage mount snapshot.

Section Snapshotter.
Variable o : snapshotter.

(** [on_chain ms key k]: the snapshot [k] is met when the parent links are
    followed from [key], [key] itself included. *)
Inductive on_chain (ms : MetaStore) : string → string → Prop :=
| on_chain_here key : on_chain ms key key
| on_chain_parent key id info usage k :
    GetInfo ms key = Ok (id, info, usage) →
    Info_Parent info ≠ EmptyString →
    on_chain ms (Info_Parent info) k →
    on_chain ms key k.

(** A layer is a normal overlay layer, or its label names a plugin of the
    chain whose [Check] on the layer's mountpoint returns nil. *)
Definition layer_ok (id : string) (info : Info) : Prop :=
  Info_Labels info !! filesystemIDLabel = None
  ∨ ∃ fsidLabel fsid f,
      Info_Labels info !! filesystemIDLabel = Some fsidLabel
      ∧ strconv.ParseInt fsidLabel = Some fsid
      ∧ 0 ≤ fsid < Z.of_nat (length (fsChain o))
      ∧ fsChain o !! Z.to_nat fsid = Some f
      ∧ Check f (upperPath o id) = None.

(** The metadata lookup succeeds and the layer is fine. *)
Definition layer_available (ms : MetaStore) (k : string) : Prop :=
  ∃ id info usage, GetInfo ms k = Ok (id, info, usage) ∧ layer_ok id info.

(** The mounts of an active snapshot: a writable bind of its upper
    directory when it has no parent, an overlay with a work directory, an
    upper directory and the parents as lower directories otherwise. *)
Definition normal_mounts (id : string) (m : list mount.Mount) : Prop :=
  m = [mkMount "bind" (upperPath o id) ["rw"; "rbind"]]
  ∨ ∃ lowerdir,
      m = [mkMount "overlay" "overlay"
             ["workdir=" +:+ workPath o id; "upperdir=" +:+ upperPath o id;
              lowerdir]].

(** The claim C1 as the specification words it: a label and a plugin
    that mounts are enough for the already-exists answer. *)
Definition Prepare_claim (ms : MetaStore) (key parent : string)
    (opts : list Opt) : Prop :=
  ∀ base target m ms1 (i : nat) f,
    apply_opts opts Info_zero = Ok base →
    Info_Labels base !! targetSnapshotLabel = Some target →
    createSnapshot o ms KindActive key parent opts = (Ok m, ms1) →
    fsChain o !! i = Some f →
    Mount f (upperPath o (strconv.FormatInt (sequence ms + 1)))
      (Info_Labels base) = None →
    ∃ err ms2, Prepare o ms key parent opts = (Err err, ms2)
               ∧ IsAlreadyExists err = true.

End Snapshotter.
End snapshot_spec.

Module stargz_spec.
Import stargz.

(** The request of a probe of [u]: a GET with [Range: bytes=0-1] under a
    deadline of 30 seconds. *)
Definition probeRequest (u : string) : Request :=
  mkRequest "GET" u (<["Range" := "bytes=0-1"]> ∅) (30 * 1000000000) false.

(** Where a probe of [u] that was answered with [res] leads: to the
    [Location] of a 3xx answer, to [u] itself otherwise. *)
Definition redirected (u : string) (res : Response) : string :=
  let redir := Header_Get (ResponseHeader res) "Location" in
  if negb (bool_decide (redir = EmptyString))
     && (Z.quot (StatusCode res) 100 =? 3)
  then redir else u.

(** The transport [t] answers the probe of [u] with a status below 400,
    and the answer leads to [u']. *)
Definition probed (lib : Libs) (t : RoundTripper) (u u' : string) : Prop :=
  url_valid lib u = true
  ∧ ∃ res, t (probeRequest u) = Ok res
           ∧ StatusCode res < 400
           ∧ u' = redirected u res.

Section Listing.
Variable n : node.

(** The names that [OpenDir] treats apart. *)
Definition root_landmark (baseName : string) : bool :=
  bool_decide (Name (node_e n) = EmptyString)
  && bool_decide (baseName = PrefetchLandmark).

(** A child shown under its own name: not the landmark of the root and
    not prefixed with [.wh.]. *)
Definition shown (baseName : string) : bool :=
  negb (root_landmark baseName) && negb (HasPrefix baseName whiteoutPrefix).

(** A whiteout: prefixed with [.wh.] and not the opaque marker. *)
Definition is_whiteout (baseName : string) : bool :=
  HasPrefix baseName whiteoutPrefix
  && negb (bool_decide (baseName = whiteoutOpaqueDir)).

Definition target (baseName : string) : string :=
  string_drop (String.length whiteoutPrefix) baseName.

Definition normal_entry (kv : string * TOCEntry) : DirEntry :=
  mkDirEntry (fileModeToSystemMode (Stat_Mode kv.2)) kv.1 (inodeOfEnt kv.2).

Definition whiteout_entry (kv : string * TOCEntry) : DirEntry :=
  mkDirEntry S_IFCHR (target kv.1) (inodeOfEnt kv.2).

Definition state_entry : DirEntry :=
  mkDirEntry (Z.lor S_IFDIR 320) stateDirName (state_ino (node_s n)).

(** The listing, in the words of the claim: a whiteout [.wh.X] gives a
    character device [X] when no sibling named [X] exists. *)
Definition has_sibling (x : string) : Prop :=
  is_Some (children (node_e n) !! x).

Definition OpenDir_claimed : list DirEntry :=
  (normal_entry <$>
     filter (λ kv, shown kv.1) (map_to_list (children (node_e n))))
  ++ (whiteout_entry <$>
        filter (λ kv, is_whiteout kv.1 ∧ ¬ has_sibling (target kv.1))
          (map_to_list (children (node_e n))))
  ++ (if decide (Name (node_e n) = EmptyString) then [state_entry] else []).

(** The listing, amended: a whiteout [.wh.X] gives a character device [X]
    when no sibling named [X] is shown. *)
Definition has_shown_sibling (x : string) : Prop :=
  is_Some (children (node_e n) !! x) ∧ shown x.

Definition OpenDir_amended : list DirEntry :=
  (normal_entry <$>
     filter (λ kv, shown kv.1) (map_to_list (children (node_e n))))
  ++ (whiteout_entry <$>
        filter (λ kv, is_whiteout kv.1 ∧ ¬ has_shown_sibling (target kv.1))
          (map_to_list (children (node_e n))))
  ++ (if decide (Name (node_e n) = EmptyString) then [state_entry] else []).

End Listing.

(** The claim C5 as worded, for a given directory node. *)
Definition OpenDir_claim (n : node) : Prop :=
  (OpenDir n).1 ≡ₚ OpenDir_claimed n.

(** [c] is the child that [Lookup] makes for [name] when the inode has no
    child of that name yet. *)
Definition made_by_Lookup (n : node) (name : string) (c : child) : Prop :=
  (Lookup n ∅ name).1 = (Some c, OK).

(** The children held by the inode of [n] are those that [Lookup] made. *)
Definition kids_ok (n : node) (kids : gmap string child) : Prop :=
  ∀ name c, kids !! name = Some c → made_by_Lookup n name c.

(** The claim C7 as worded, for a given directory node. *)
Definition GetXAttr_claim (n : node) : Prop :=
  GetXAttr n opaqueXattr = (Some opaqueXattrValue, OK)
  ↔ is_Some (LookupChild (node_e n) whiteoutOpaqueDir).

End stargz_spec.

Module lifecycle_spec.
Import storage mount snapshot.

(** No two snapshots of the store have the same id, and so none share a
    directory under [snapshots]. *)
Definition ids_unique (ms : MetaStore) : Prop :=
  ∀ k1 k2 b1 b2,
    buckets ms !! k1 = Some b1 → buckets ms !! k2 = Some b2 →
    b_id b1 = b_id b2 → k1 = k2.

(** [id] is the id of a snapshot of the store. *)
Definition live (ms : MetaStore) (id : string) : Prop :=
  ∃ key b, buckets ms !! key = Some b ∧ strconv.FormatInt (b_id b) = id.

(** An operating system on which the calls that make and remove a
    snapshot directory all succeed. *)
Definition os_quiet (o : snapshotter) : Prop :=
  (∀ dir prefix, is_ok (TempDir (os o) dir prefix) = true)
  ∧ (∀ path perm, Mkdir (os o) path perm = None)
  ∧ (∀ path, is_ok (Stat_owner (os o) path) = true)
  ∧ (∀ path uid gid, Lchown (os o) path uid gid = None)
  ∧ (∀ old new, Rename (os o) old new = None)
  ∧ (∀ path, RemoveAll (os o) path = None).

(** A mount that cannot be written through: a read-only bind, or an
    overlay that has lower directories only. *)
Definition read_only (m : mount.Mount) : Prop :=
  (Type_ m = "bind" ∧ Options m = ["ro"; "rbind"])
  ∨ (Type_ m = "overlay" ∧ ∃ lower, Options m = ["lowerdir=" +:+ lower]).

End lifecycle_spec.

Module stargz_more_spec.
Import stargz.

(** The bits of the file type in [st_mode]. *)
Definition S_IFMT : Z := 61440. (* 0xf000 *)

(** The request of [getSize]: a HEAD under a deadline of 30 seconds, with
    no [Range] header. *)
Definition headRequest (u : string) : Request :=
  mkRequest "HEAD" u ∅ (30 * 1000000000) false.

(** A directory entry shows a node when its mode and inode are those
    that [GetAttr] of the node reports. *)
Definition listed_as (c : child) (d : DirEntry) : Prop :=
  ∀ fi out,
    DirEntry_Mode d = Attr_Mode (GetAttr c fi out).1
    ∧ DirEntry_Ino d = Attr_Ino (GetAttr c fi out).1.

(** The percentage that a read or a stat of the state file computes, and
    whether it is a number that JSON can hold. *)
Definition percent (e : statFile) : float :=
  PrimFloat.mul
    (PrimFloat.div (float64 (getFetchedSize (statFile_ur e)))
       (float64 (Size (statFile_statJSON e))))
    100%float.

Definition percent_finite (e : statFile) : bool :=
  negb (PrimFloat.is_nan (percent e) || PrimFloat.is_infinity (percent e)).

(** The node after a read or a stat: the two computed fields are
    stored. *)
Definition refreshed (e : statFile) : statFile :=
  mkStatFile (statFile_name e) (statFile_ur e)
    (mkStatJSON (Error (statFile_statJSON e)) (Digest (statFile_statJSON e))
       (Size (statFile_statJSON e)) (getFetchedSize (statFile_ur e))
       (percent e))
    (statFile_addr e).

Section StateFile.
Variable lib : Libs.

(** The members of the state file's JSON object after [error], up to the
    closing newline. *)
Definition render_rest (e : statFile) : string :=
  let j := statFile_statJSON e in
  quote "digest" +:+ ":" +:+ json_string lib (Digest j) +:+ ","
  +:+ quote "size" +:+ ":" +:+ strconv.FormatInt (Size j) +:+ ","
  +:+ quote "fetchedSize" +:+ ":"
  +:+ strconv.FormatInt (getFetchedSize (statFile_ur e)) +:+ ","
  +:+ quote "fetchedPercent" +:+ ":" +:+ json_float lib (percent e)
  +:+ "}" +:+ String (ascii_of_nat 10) EmptyString.

(** The text of the state file. *)
Definition render (e : statFile) : string :=
  "{"
  +:+ (if decide (Error (statFile_statJSON e) = EmptyString) then EmptyString
       else quote "error" +:+ ":"
              +:+ json_string lib (Error (statFile_statJSON e)) +:+ ",")
  +:+ render_rest e.

End StateFile.

End stargz_more_spec.

(** * A snapshotter and a plugin to run *)

Module snapshot_fixtures.
Import storage mount snapshot.

(** A plugin that mounts and checks every layer, and one that refuses. *)
Definition mountingFS : FileSystem :=
  mkFileSystem (λ _ _, None) (λ _, None).

Definition refusingFS : FileSystem :=
  mkFileSystem (λ _ _, Some (ErrNew "reference hasn't been passed"))
    (λ _, Some (ErrNew "connection not regisiterd")).

(** An operating system on which every call succeeds. *)
Definition quietOS : OS :=
  mkOS (λ dir prefix, Ok (dir +:+ "/" +:+ prefix +:+ "0"))
    (λ _ _, None) (λ _, Ok (0, 0)) (λ _ _ _, None) (λ _ _, None) (λ _, None)
    (λ _, Ok (mkUsage 3 4096)).

Definition sn : snapshotter :=
  mkSnapshotter "/var/lib/remote" true [refusingFS; mountingFS] quietOS.

Definition refLabels (target : string) : gmap string string :=
  {[ targetSnapshotLabel := target ]}.

(** The store after [Prepare("k1", "", ref=c1)], after a second layer on
    top of it, and after an active snapshot on top of the two. *)
Definition store1 : MetaStore :=
  (Prepare sn empty "k1" "" [WithLabels (refLabels "c1")]).2.

Definition store2 : MetaStore :=
  (Prepare sn store1 "k2" "c1" [WithLabels (refLabels "c2")]).2.

Definition store3 : MetaStore :=
  (Prepare sn store2 "k3" "c2" []).2.

(** Scenario 6 of the specification: the registry of the middle layer
    stops answering, and [Mounts] of the top snapshot is refused. *)
Definition sn_down : snapshotter :=
  mkSnapshotter "/var/lib/remote" true
    [refusingFS;
     mkFileSystem (λ _ _, None)
       (λ mountpoint,
          if String.eqb mountpoint "/var/lib/remote/snapshots/2/fs"
          then Some (ErrNew "unexpected status code 503")
          else None)]
    quietOS.

End snapshot_fixtures.

Module stargz_fixtures.
Import stargz.

(** Stand-ins for the libraries: a reference table with the two
    references of scenario 4, a matcher that knows the pattern of that
    scenario, a registry that answers every probe with 206. *)
Definition registry : RoundTripper := λ _, Ok (mkResponse 206 ∅).

Definition exampleLibs : Libs :=
  mkLibs
    (λ _, true)
    (λ pattern host,
       if String.eqb pattern "^reg\.local(:.*)?$"
       then (String.eqb host "reg.local" || String.prefix "reg.local:" host,
             None)
       else (false, Some (ErrNew "error parsing regexp")))
    (λ ref,
       if String.eqb ref "reg.local:5000/ubuntu:18.04"
       then Ok (mkNamed "reg.local:5000" "ubuntu")
       else if String.eqb ref "index.docker.io/library/alpine"
       then Ok (mkNamed "docker.io" "library/alpine")
       else Err (ErrNew "invalid reference format"))
    (λ s insecure, Ok (mkReference s insecure))
    (λ _, Ok registry)
    (λ dir maxEntry, Ok (DirectoryCache dir maxEntry))
    quote
    (λ x, if PrimFloat.eqb x 50%float then "50" else "?").

Definition exampleConfig (interval : Z) : Config :=
  mkConfig 0 0 "memory" "" interval ["^reg\.local(:.*)?$"] false false.

(** The filesystem that [NewFilesystem] makes from [exampleConfig], with
    one layer mounted at clock reading 0. *)
Definition mounted (interval : Z) : filesystem :=
  match NewFilesystem exampleLibs "/var/lib/stargz" (exampleConfig interval) with
  | Ok fs =>
      set_conn fs
        {[ "/mnt/1" := mkConnection "https://registry/v2/a/blobs/d" registry 0 ]}
  | Err _ =>
      mkFilesystem 0 MemoryCache MemoryCache 0 false [] ∅ ∅ false
  end.

(** A layer of 120000 bytes of which 60000 are fetched. *)
Definition exampleState : state :=
  newState "sha256:0a" (mkUrlReaderAt 120000 60000) 900 901.

Definition regular (name : string) (address : Z) : TOCEntry :=
  mkTOCEntry name 1000 1000 ∅ 420 (* 0644 *) address ∅.

Definition directory (name : string) (address : Z)
    (xattrs : gmap string string) (kids : gmap string TOCEntry) : TOCEntry :=
  mkTOCEntry name 0 0 xattrs (Z.lor ModeDir 493 (* 0755 *)) address kids.

(** The directory of scenario 5: [a], [.wh.b], [c] and an opaque [d]. *)
Definition scenario5 : TOCEntry :=
  directory "dir" 10 ∅
    (<["a" := regular "dir/a" 11]>
       (<[".wh.b" := regular "dir/.wh.b" 12]>
          (<["c" := regular "dir/c" 13]>
             (<["d" := directory "dir/d" 14 ∅
                         {[ ".wh..wh..opq" := regular "dir/d/.wh..wh..opq" 15 ]}]>
                ∅)))).

(** A root with the landmark and with an opaque marker of its own. *)
Definition opaqueRoot : TOCEntry :=
  directory "" 1 ∅
    (<[".prefetch.landmark" := regular ".prefetch.landmark" 2]>
       (<[".wh..wh..opq" := regular ".wh..wh..opq" 3]>
          (<["dir" := scenario5]>
             (<["plain" := directory "plain" 4 {[ opaqueXattr := "y" ]} ∅]> ∅)))).

(** A directory that holds a whiteout [.wh.b] and a whiteout of that
    whiteout, [.wh..wh.b]. *)
Definition nestedWhiteouts : TOCEntry :=
  directory "w" 20 ∅
    (<[".wh.b" := regular "w/.wh.b" 21]>
       (<[".wh..wh.b" := regular "w/.wh..wh.b" 22]> ∅)).

End stargz_fixtures.

Module lifecycle_fixtures.
Import storage mount snapshot snapshot_fixtures.

(** The snapshotter of the examples, removing directories at once. *)
Definition sn_sync : snapshotter :=
  mkSnapshotter "/var/lib/remote" false [refusingFS; mountingFS] quietOS.

(** The directory [snapshots] with the directories of three snapshots
    and a temporary directory left behind. *)
Definition snapshotsDir : string → result (list string) :=
  λ _, Ok ["1"; "2"; "3"; "new-0"].

(** The store after [Prepare("a", "")] without labels. *)
Definition store_a : MetaStore := (Prepare sn empty "a" "" []).2.

End lifecycle_fixtures.

Module stargz_more_fixtures.
Import stargz stargz_fixtures.

(** A registry that answers the probes with 206 and a HEAD with the size
    of the layer, and one that is down. *)
Definition layerRegistry : RoundTripper :=
  λ req,
    if String.eqb (Method req) "HEAD"
    then Ok (mkResponse 200 {[ "Content-Length" := "120000" ]})
    else Ok (mkResponse 206 ∅).

Definition downRegistry : RoundTripper := λ _, Ok (mkResponse 503 ∅).

(** The libraries of the examples, with a keychain that leads to
    [layerRegistry]. *)
Definition mountLibs : Libs :=
  mkLibs (url_valid exampleLibs) (regexp_Match exampleLibs)
    (ParseDockerRef exampleLibs) (name_ParseReference exampleLibs)
    (λ _, Ok layerRegistry) (NewDirectoryCache exampleLibs)
    (json_string exampleLibs) (json_float exampleLibs).

(** A handler with the label names of the stargz handler, an archive
    whose root is [opaqueRoot], and a FUSE server that mounts. *)
Definition exampleEnv : MountEnv :=
  mkMountEnv "containerd.io/snapshot/remote/stargz.reference"
    "containerd.io/snapshot/remote/stargz.digest"
    (λ _ _, Ok (Some opaqueRoot)) (λ _ _, None) (λ _, None) (λ _, None)
    (λ _, (900, 901)).

Definition mountLabels : gmap string string :=
  <["containerd.io/snapshot/remote/stargz.reference" :=
      "reg.local:5000/ubuntu:18.04"]>
    {[ "containerd.io/snapshot/remote/stargz.digest" := "sha256:0a" ]}.

(** The filesystem of the examples when the registry of its layer is
    down. *)
Definition mounted_down : filesystem :=
  set_conn (mounted 0)
    {[ "/mnt/1" := mkConnection "https://registry/v2/a/blobs/d" downRegistry 0 ]}.

(** An archive whose root holds an entry named like the state
    directory. *)
Definition clashRoot : TOCEntry :=
  directory "" 1 ∅
    {[ ".stargz-snapshotter" := regular ".stargz-snapshotter" 2 ]}.

Definition zeroAttr : Attr := mkAttr 0 0 0 0 0 0 0 0 0 (mkOwner 0 0) 0 0 0.

(** A reader that fails. *)
Definition failingReader : ReaderAt := λ _ _, (EmptyString, Some "unexpected EOF").

End stargz_more_fixtures.

(** * Properties *)

(** ** Errors *)

Lemma IsAlreadyExists_wrap e msg :
  IsAlreadyExists (ErrWrap e msg) = IsAlreadyExists e.
Proof. reflexivity. Qed.

Lemma IsUnavailable_wrap e msg :
  IsUnavailable (ErrWrap e msg) = IsUnavailable e.
Proof. reflexivity. Qed.

Lemma apply_opts_app opts1 opts2 base :
  apply_opts (opts1 ++ opts2) base =
  match apply_opts opts1 base with
  | Ok base' => apply_opts opts2 base'
  | Err e => Err e
  end.
Proof.
  revert base. induction opts1 as [|opt opts1 IH]; intros base; simpl.
  - reflexivity.
  - destruct (opt base); [apply IH | reflexivity].
Qed.

(** Labels given last win: this is how [Prepare] stamps a snapshot. *)
Lemma apply_opts_WithLabels opts base base' labels :
  apply_opts opts base = Ok base' →
  ∃ info, apply_opts (opts ++ [WithLabels labels]) base = Ok info
          ∧ Info_Labels info = labels.
Proof.
  intros H. rewrite apply_opts_app, H. simpl. eauto.
Qed.

(** ** Decimal integers *)

Module strconv_facts.
Import strconv.

Lemma digit_of_char d :
  0 ≤ d < 10 →
  digit_of (digit_char d) = Some d
  ∧ Ascii.eqb (digit_char d) "+" = false
  ∧ Ascii.eqb (digit_char d) "-" = false.
Proof.
  intros H.
  assert (d = 0 ∨ d = 1 ∨ d = 2 ∨ d = 3 ∨ d = 4 ∨ d = 5 ∨ d = 6 ∨ d = 7
          ∨ d = 8 ∨ d = 9) as Hd by lia.
  destruct Hd as [-> | [-> | [-> | [-> | [-> | [-> | [-> | [-> | [-> | ->]]]]]]]]];
    done.
Qed.

Lemma digits_S fuel n acc :
  digits (S fuel) n acc =
  if n <? 10 then String (digit_char (n mod 10)) acc
  else digits fuel (n / 10) (String (digit_char (n mod 10)) acc).
Proof. reflexivity. Qed.

(** With one step per decimal digit, the digits of [n] are put before
    [acc]; the first of them is a digit, and reading them back multiplies
    what was read before by a power of ten and adds [n]. *)
Lemma digits_parse fuel :
  ∀ n acc, 0 ≤ n < 10 ^ Z.of_nat (S fuel) →
    (∃ d rest, 0 ≤ d < 10 ∧ digits (S fuel) n acc = String (digit_char d) rest)
    ∧ ∃ k, 0 ≤ k ∧ ∀ a, parse_digits (digits (S fuel) n acc) a
                        = parse_digits acc (a * 10 ^ k + n).
Proof.
  induction fuel as [|fuel IH]; intros n acc Hn; rewrite digits_S.
  - assert (n < 10) as Hlt by (change (10 ^ Z.of_nat 1) with 10 in Hn; lia).
    rewrite (proj2 (Z.ltb_lt _ _) Hlt), Z.mod_small by lia. split.
    + exists n, acc. split; [lia|done].
    + exists 1. split; [lia|]. intros a. cbn [parse_digits].
      destruct (digit_of_char n) as (-> & _); [lia|]. f_equal; lia.
  - destruct (n <? 10) eqn:Hlt.
    + apply Z.ltb_lt in Hlt. rewrite Z.mod_small by lia. split.
      * exists n, acc. split; [lia|done].
      * exists 1. split; [lia|]. intros a. cbn [parse_digits].
        destruct (digit_of_char n) as (-> & _); [lia|]. f_equal; lia.
    + apply Z.ltb_ge in Hlt.
      assert (0 ≤ n / 10 < 10 ^ Z.of_nat (S fuel)) as Hq.
      { split; [apply Z.div_pos; lia|].
        apply Z.div_lt_upper_bound; [lia|].
        rewrite (Nat2Z.inj_succ (S fuel)), Z.pow_succ_r in Hn by lia. lia. }
      destruct (IH (n / 10) (String (digit_char (n mod 10)) acc) Hq)
        as [Hfirst (k & Hk0 & Hk)].
      split; [exact Hfirst|].
      exists (k + 1). split; [lia|]. intros a. rewrite Hk.
      cbn [parse_digits].
      destruct (digit_of_char (n mod 10)) as (-> & _).
      { apply Z.mod_pos_bound. lia. }
      f_equal. rewrite Z.pow_add_r by lia.
      pose proof (Z.div_mod n 10). lia.
Qed.

Lemma log2_fuel n :
  0 ≤ n → 0 ≤ n < 10 ^ Z.of_nat (S (Z.to_nat (Z.log2 n))).
Proof.
  intros Hn. split; [done|].
  rewrite Nat2Z.inj_succ, Z2Nat.id by apply Z.log2_nonneg.
  destruct (decide (n = 0)) as [->|Hne]; [done|].
  pose proof (Z.log2_spec n) as [_ Hlt]; [lia|].
  eapply Z.lt_le_trans; [exact Hlt|].
  apply Z.pow_le_mono_l. pose proof (Z.log2_nonneg n). lia.
Qed.

(** [ParseInt] reads back what [FormatInt] writes. *)
Lemma ParseUint_digits fuel n :
  0 ≤ n < 10 ^ Z.of_nat (S fuel) →
  ParseUint (digits (S fuel) n EmptyString) = Some n.
Proof.
  intros Hn.
  destruct (digits_parse fuel n EmptyString Hn)
    as [(d & rest & Hd & Hfirst) (k & _ & Hk)].
  unfold ParseUint.
  destruct (digits (S fuel) n EmptyString) eqn:E; [discriminate|].
  rewrite Hk. cbn. f_equal; lia.
Qed.

Lemma ParseInt_FormatInt n :
  - 2 ^ 63 ≤ n < 2 ^ 63 → ParseInt (FormatInt n) = Some n.
Proof.
  intros Hn. unfold FormatInt. destruct (n <? 0) eqn:Hneg.
  - apply Z.ltb_lt in Hneg. unfold ParseInt.
    change (Ascii.eqb "-"%char "+"%char) with false.
    change (Ascii.eqb "-"%char "-"%char) with true. cbv iota.
    rewrite ParseUint_digits by (apply log2_fuel; lia).
    cbn [negb andb].
    rewrite (proj2 (Z.ltb_ge (2 ^ 63) (- n))) by lia. f_equal; lia.
  - apply Z.ltb_ge in Hneg.
    pose proof (ParseUint_digits (Z.to_nat (Z.log2 n)) n (log2_fuel n Hneg))
      as Hparse.
    destruct (digits_parse (Z.to_nat (Z.log2 n)) n EmptyString)
      as [(d & rest & Hd & Hfirst) _]; [by apply log2_fuel|].
    rewrite Hfirst in Hparse |- *. unfold ParseInt.
    destruct (digit_of_char d Hd) as (_ & -> & ->).
    rewrite Hparse. cbn [negb andb].
    by rewrite (proj2 (Z.leb_gt (2 ^ 63) n)) by lia.
Qed.

End strconv_facts.

(** ** The metadata store: well-formed stores *)

Module storage_facts.
Import storage storage_spec.

Lemma wf_empty : wf_store empty.
Proof.
  split; [done|]. intros key b H. cbn in H. by rewrite lookup_empty in H.
Qed.

Lemma parentsN_S fuel ms b :
  parentsN (S fuel) ms b =
  if decide (b_parent b = EmptyString)
  then Some (Ok [strconv.FormatInt (b_id b)])
  else
    match buckets ms !! b_parent b with
    | None => Some (Err (ErrWrap ErrNotFound "missing parent"))
    | Some pb =>
        match parentsN fuel ms pb with
        | None => None
        | Some (Err e) => Some (Err e)
        | Some (Ok l) => Some (Ok (strconv.FormatInt (b_id b) :: l))
        end
    end.
Proof. reflexivity. Qed.

Lemma parentsN_mono fuel ms b r :
  parentsN fuel ms b = Some r → parentsN (S fuel) ms b = Some r.
Proof.
  revert b r. induction fuel as [|fuel IH]; intros b r H; [discriminate|].
  rewrite parentsN_S in H. rewrite parentsN_S.
  destruct (decide (b_parent b = EmptyString)); [exact H|].
  destruct (buckets ms !! b_parent b) as [pb|]; [|exact H].
  destruct (parentsN fuel ms pb) as [r'|] eqn:E; [|discriminate].
  by rewrite (IH _ _ E).
Qed.

Lemma parentsN_le fuel fuel' ms b r :
  (fuel ≤ fuel')%nat → parentsN fuel ms b = Some r →
  parentsN fuel' ms b = Some r.
Proof.
  induction 1 as [|m _ IH]; [done|]. intros H. by apply parentsN_mono, IH.
Qed.

(** On a well-formed store the walk along the parents ends, with a list
    of ids, before the fuel does. *)
Lemma parentsN_enough ms :
  wf_store ms →
  ∀ fuel key b, buckets ms !! key = Some b →
    b_id b < Z.of_nat fuel →
    ∃ ids, parentsN fuel ms b = Some (Ok ids).
Proof.
  intros [_ Hwf]. induction fuel as [|fuel IH]; intros key b Hb Hlt.
  - destruct (Hwf _ _ Hb) as [? _]. lia.
  - rewrite parentsN_S.
    destruct (decide (b_parent b = EmptyString)) as [|Hne]; [eauto|].
    destruct (Hwf _ _ Hb) as [_ Hp].
    destruct (Hp Hne) as (pb & Hpb & _ & Hid). rewrite Hpb.
    destruct (IH _ _ Hpb) as [ids Hids]; [lia|].
    rewrite Hids. eauto.
Qed.

Lemma parents_wf ms key b :
  wf_store ms → buckets ms !! key = Some b →
  ∃ ids, parents ms b = Ok ids
         ∧ ∀ fuel, (chain_fuel ms ≤ fuel)%nat → parentsN fuel ms b = Some (Ok ids).
Proof.
  intros Hwf Hb. unfold parents.
  destruct (parentsN_enough ms Hwf (chain_fuel ms) key b Hb) as [ids Hids].
  { destruct Hwf as [? Hwf]. destruct (Hwf _ _ Hb) as [? _].
    unfold chain_fuel. lia. }
  rewrite Hids. exists ids. split; [done|].
  intros fuel Hle. by eapply parentsN_le.
Qed.

(** What a successful [CreateSnapshot] did to the store. *)
Lemma CreateSnapshot_inv ms kind key parent opts s ms' :
  CreateSnapshot ms kind key parent opts = Ok (s, ms') →
  ∃ base,
    apply_opts opts Info_zero = Ok base
    ∧ (kind = KindActive ∨ kind = KindView)
    ∧ key ≠ EmptyString
    ∧ buckets ms !! key = None
    ∧ (parent ≠ EmptyString →
       ∃ pb, buckets ms !! parent = Some pb ∧ b_kind pb = KindCommitted)
    ∧ ms' = mkMetaStore
              (<[key := mkBucket (sequence ms + 1) kind parent
                          (Info_Labels base) Usage_zero]> (buckets ms))
              (sequence ms + 1)
    ∧ Snapshot_Kind s = kind
    ∧ Snapshot_ID s = strconv.FormatInt (sequence ms + 1)
    ∧ (parent = EmptyString → Snapshot_ParentIDs s = []).
Proof.
  unfold CreateSnapshot. intros H.
  assert (kind = KindActive ∨ kind = KindView) as Hkind.
  { destruct kind; try discriminate; auto. }
  assert (match kind with
          | KindActive | KindView => True | _ => False end) as Hk.
  { destruct Hkind as [-> | ->]; done. }
  destruct (apply_opts opts Info_zero) as [base|] eqn:Hbase.
  2: { destruct kind; discriminate. }
  exists base. split; [done|]. split; [done|].
  destruct (decide (parent = EmptyString)) as [Hp|Hp].
  - destruct (decide (key = EmptyString)).
    { destruct kind; discriminate. }
    destruct (buckets ms !! key) eqn:Hkey.
    { destruct kind; discriminate. }
    assert (Ok (mkSnapshot kind (strconv.FormatInt (sequence ms + 1)) [],
                mkMetaStore
                  (<[key := mkBucket (sequence ms + 1) kind parent
                              (Info_Labels base) Usage_zero]> (buckets ms))
                  (sequence ms + 1)) = Ok (s, ms')) as Heq.
    { destruct kind; try done. }
    injection Heq as <- <-. repeat split; try done.
  - destruct (buckets ms !! parent) as [pb|] eqn:Hpb.
    2: { destruct kind; discriminate. }
    destruct (decide (b_kind pb = KindCommitted)).
    2: { destruct kind; discriminate. }
    destruct (decide (key = EmptyString)).
    { destruct kind; discriminate. }
    destruct (buckets ms !! key) eqn:Hkey.
    { destruct kind; discriminate. }
    match type of H with
    | context [parents ?m ?b] => destruct (parents m b) as [ids|] eqn:Hids
    end.
    2: { destruct kind; discriminate. }
    assert (Ok (mkSnapshot kind (strconv.FormatInt (sequence ms + 1)) ids,
                mkMetaStore
                  (<[key := mkBucket (sequence ms + 1) kind parent
                              (Info_Labels base) Usage_zero]> (buckets ms))
                  (sequence ms + 1)) = Ok (s, ms')) as Heq.
    { destruct kind; try done. }
    injection Heq as <- <-. repeat split; try done. eauto.
Qed.

Lemma CreateSnapshot_wf ms kind key parent opts s ms' :
  wf_store ms →
  CreateSnapshot ms kind key parent opts = Ok (s, ms') →
  wf_store ms'.
Proof.
  intros [Hseq Hwf] H.
  destruct (CreateSnapshot_inv _ _ _ _ _ _ _ H)
    as (base & _ & _ & _ & Hfresh & Hpar & -> & _).
  split; [cbn; lia|]. intros k b Hk. cbn in Hk |- *.
  destruct (decide (key = k)) as [->|Hne].
  - rewrite lookup_insert_eq in Hk. injection Hk as <-. cbn.
    split; [lia|]. intros Hp. destruct (Hpar Hp) as (pb & Hpb & Hc).
    exists pb. rewrite lookup_insert_ne by congruence.
    destruct (Hwf _ _ Hpb) as [? _]. repeat split; [done..|lia].
  - rewrite lookup_insert_ne in Hk by done.
    destruct (Hwf _ _ Hk) as [Hid Hp]. split; [lia|].
    intros Hne'. destruct (Hp Hne') as (pb & Hpb & Hc & Hlt).
    exists pb. rewrite lookup_insert_ne by congruence. done.
Qed.

(** What a successful [CommitActive] did to the store. *)
Lemma CommitActive_inv ms key name usage opts id ms' :
  CommitActive ms key name usage opts = Ok (id, ms') →
  ∃ base sb,
    apply_opts opts Info_zero = Ok base
    ∧ name ≠ EmptyString
    ∧ buckets ms !! name = None
    ∧ buckets ms !! key = Some sb
    ∧ b_kind sb = KindActive
    ∧ id = strconv.FormatInt (b_id sb)
    ∧ ms' = mkMetaStore
              (<[name := mkBucket (b_id sb) KindCommitted (b_parent sb)
                           (Info_Labels base) usage]>
                 (delete key (buckets ms)))
              (sequence ms).
Proof.
  unfold CommitActive. intros H.
  destruct (apply_opts opts Info_zero) as [base|]; [|discriminate].
  destruct (decide (name = EmptyString)); [discriminate|].
  destruct (buckets ms !! name) eqn:Hname; [discriminate|].
  destruct (buckets ms !! key) as [sb|] eqn:Hkey; [|discriminate].
  destruct (decide (b_kind sb = KindActive)); [|discriminate].
  injection H as <- <-. exists base, sb. done.
Qed.

Lemma CommitActive_wf ms key name usage opts id ms' :
  wf_store ms →
  CommitActive ms key name usage opts = Ok (id, ms') →
  wf_store ms'.
Proof.
  intros [Hseq Hwf] H.
  destruct (CommitActive_inv _ _ _ _ _ _ _ H)
    as (base & sb & _ & _ & Hname & Hkey & Hact & _ & ->).
  split; [done|]. intros k b Hk. cbn in Hk |- *.
  assert (∀ p pb, buckets ms !! p = Some pb → b_kind pb = KindCommitted →
            <[name := mkBucket (b_id sb) KindCommitted (b_parent sb)
                        (Info_Labels base) usage]>
               (delete key (buckets ms)) !! p = Some pb) as Hkeep.
  { intros p pb Hp Hc.
    rewrite lookup_insert_ne by congruence.
    rewrite lookup_delete_ne; [done|]. intros ->.
    rewrite Hkey in Hp. injection Hp as ->. congruence. }
  destruct (decide (name = k)) as [->|Hne].
  - rewrite lookup_insert_eq in Hk. injection Hk as <-. cbn.
    destruct (Hwf _ _ Hkey) as [Hid Hp]. split; [done|].
    intros Hne. destruct (Hp Hne) as (pb & Hpb & Hc & Hlt).
    exists pb. eauto.
  - rewrite lookup_insert_ne in Hk by done.
    apply lookup_delete_Some in Hk as [_ Hk].
    destruct (Hwf _ _ Hk) as [Hid Hp]. split; [done|].
    intros Hne'. destruct (Hp Hne') as (pb & Hpb & Hc & Hlt).
    exists pb. eauto.
Qed.

End storage_facts.

(** ** The snapshotter *)

Module snapshot_facts.
Import storage storage_spec storage_facts mount snapshot snapshot_spec.

Section Snapshotter.
Variable o : snapshotter.

(** *** Availability of a chain of layers *)

Lemma checkLayer_true id info :
  checkLayer o id info = true ↔ layer_ok o id info.
Proof.
  unfold checkLayer, layer_ok.
  destruct (Info_Labels info !! filesystemIDLabel) as [lbl|]; [|by intuition].
  destruct (strconv.ParseInt lbl) as [fsid|] eqn:Hparse.
  2: { split; [done|]. intros [|(? & ? & ? & [= <-] & ? & _)]; congruence. }
  destruct (fsid <? 0) eqn:Hneg; simpl.
  { apply Z.ltb_lt in Hneg. split; [done|].
    intros [|(? & ? & ? & [= <-] & ? & ? & _)]; [done|]. simplify_eq. lia. }
  apply Z.ltb_ge in Hneg.
  destruct (Z.of_nat (length (fsChain o)) <=? fsid) eqn:Hhi.
  { apply Z.leb_le in Hhi. split; [done|].
    intros [|(? & ? & ? & [= <-] & ? & ? & _)]; [done|]. simplify_eq. lia. }
  apply Z.leb_gt in Hhi.
  destruct (fsChain o !! Z.to_nat fsid) as [f|] eqn:Hf.
  2: { split; [done|].
       intros [|(? & ? & ? & [= <-] & ? & ? & ? & _)]; [done|]. simplify_eq. }
  unfold succeeded. destruct (Check f (upperPath o id)) eqn:Hc.
  - split; [done|].
    intros [|(? & ? & ? & [= <-] & ? & ? & ? & ?)]; [done|]. simplify_eq.
  - split; [|done]. intros _. right. exists lbl, fsid, f. repeat split; done.
Qed.

Lemma checkAvailabilityN_S fuel ms key :
  checkAvailabilityN o (S fuel) ms key =
  match GetInfo ms key with
  | Err _ => Some false
  | Ok (id, info, _) =>
      match (if decide (Info_Parent info = EmptyString) then Some true
             else checkAvailabilityN o fuel ms (Info_Parent info)) with
      | None => None
      | Some false => Some false
      | Some true => Some (checkLayer o id info)
      end
  end.
Proof. reflexivity. Qed.

(** Whatever the fuel, an answer of the recursion is the right one. *)
Lemma checkAvailabilityN_sound ms fuel :
  ∀ key b, checkAvailabilityN o fuel ms key = Some b →
    (b = true ↔ ∀ k, on_chain ms key k → layer_available o ms k).
Proof.
  induction fuel as [|fuel IH]; intros key b H; [discriminate|].
  rewrite checkAvailabilityN_S in H.
  destruct (GetInfo ms key) as [[[id info] usage]|err] eqn:Hget.
  2: { injection H as <-. split; [done|]. intros Hall.
       destruct (Hall key (on_chain_here _ _)) as (? & ? & ? & ? & _).
       congruence. }
  destruct (decide (Info_Parent info = EmptyString)) as [Hroot|Hpar].
  - injection H as <-. rewrite checkLayer_true. split.
    + intros Hok k Hk. inversion Hk; subst.
      * exists id, info, usage. done.
      * congruence.
    + intros Hall.
      destruct (Hall key (on_chain_here _ _)) as (? & ? & ? & Hg & Hok).
      rewrite Hget in Hg. by injection Hg as <- <- <-.
  - destruct (checkAvailabilityN o fuel ms (Info_Parent info)) as [[]|] eqn:Hlow;
      [| |discriminate].
    + injection H as <-. rewrite checkLayer_true.
      pose proof (proj1 (IH _ _ Hlow) eq_refl) as Hlower. split.
      * intros Hok k Hk. inversion Hk; subst.
        -- exists id, info, usage. done.
        -- rewrite Hget in H. injection H as <- <- <-. by apply Hlower.
      * intros Hall.
        destruct (Hall key (on_chain_here _ _)) as (? & ? & ? & Hg & Hok).
        rewrite Hget in Hg. by injection Hg as <- <- <-.
    + injection H as <-. split; [done|]. intros Hall.
      apply (IH _ _ Hlow). intros k Hk. apply Hall.
      by eapply on_chain_parent.
Qed.

Lemma checkAvailabilityN_mono ms fuel :
  ∀ key b, checkAvailabilityN o fuel ms key = Some b →
    checkAvailabilityN o (S fuel) ms key = Some b.
Proof.
  induction fuel as [|fuel IH]; intros key b H; [discriminate|].
  rewrite checkAvailabilityN_S in H. rewrite checkAvailabilityN_S.
  destruct (GetInfo ms key) as [[[id info] usage]|err]; [|done].
  destruct (decide (Info_Parent info = EmptyString)); [done|].
  destruct (checkAvailabilityN o fuel ms (Info_Parent info)) as [b'|] eqn:Hlow;
    [|discriminate].
  by rewrite (IH _ _ Hlow).
Qed.

Lemma checkAvailabilityN_le ms fuel fuel' key b :
  (fuel ≤ fuel')%nat → checkAvailabilityN o fuel ms key = Some b →
  checkAvailabilityN o fuel' ms key = Some b.
Proof.
  induction 1 as [|m _ IH]; [done|].
  intros H. by apply checkAvailabilityN_mono, IH.
Qed.

Lemma GetInfo_Ok ms key id info usage :
  GetInfo ms key = Ok (id, info, usage) ↔
  ∃ b, buckets ms !! key = Some b
       ∧ id = strconv.FormatInt (b_id b)
       ∧ info = mkInfo (b_kind b) key (b_parent b) (b_labels b)
       ∧ usage = b_usage b.
Proof.
  unfold GetInfo. destruct (buckets ms !! key) as [b|].
  - split.
    + intros [= <- <- <-]. eauto.
    + intros (? & [= <-] & -> & -> & ->). done.
  - split; [done|]. intros (? & ? & _). done.
Qed.

(** On a well-formed store the recursion ends before the fuel does. *)
Lemma checkAvailabilityN_enough ms :
  wf_store ms →
  ∀ fuel key b, buckets ms !! key = Some b → b_id b < Z.of_nat fuel →
    is_Some (checkAvailabilityN o fuel ms key).
Proof.
  intros [_ Hwf]. induction fuel as [|fuel IH]; intros key b Hb Hlt.
  - destruct (Hwf _ _ Hb) as [? _]. lia.
  - rewrite checkAvailabilityN_S. unfold GetInfo. rewrite Hb. cbn.
    destruct (decide (b_parent b = EmptyString)) as [|Hne]; [eauto|].
    destruct (Hwf _ _ Hb) as [_ Hp].
    destruct (Hp Hne) as (pb & Hpb & _ & Hid).
    destruct (IH _ _ Hpb) as [[] ->]; [lia|eauto..].
Qed.

Lemma checkAvailability_fuel ms key :
  wf_store ms →
  ∀ fuel, (chain_fuel ms ≤ fuel)%nat →
    checkAvailabilityN o fuel ms key = Some (checkAvailability o ms key).
Proof.
  intros Hwf fuel Hle. unfold checkAvailability.
  assert (is_Some (checkAvailabilityN o (chain_fuel ms) ms key)) as [b Hb].
  { destruct (buckets ms !! key) as [b|] eqn:Hkey.
    - eapply checkAvailabilityN_enough; [done..|].
      destruct Hwf as [? Hwf]. destruct (Hwf _ _ Hkey) as [? _].
      unfold chain_fuel. lia.
    - unfold chain_fuel. rewrite checkAvailabilityN_S.
      unfold GetInfo. rewrite Hkey. eauto. }
  rewrite Hb. by eapply checkAvailabilityN_le.
Qed.

(** C2.  On a store of the metadata package, [checkAvailability key] is
    true exactly when every snapshot on the chain from [key] through its
    parents is found in the store and either has no [filesystem.id] label
    or has one that parses to an index within the plugin chain whose
    plugin's [Check] on the layer's mountpoint succeeds.  When it is false
    for the key that [mounts] is asked to check, [mounts] returns the
    Unavailable error and no mount.  The recursion ends within the fuel
    of the model. *)
Theorem checkAvailability_spec ms key :
  wf_store ms →
  (checkAvailability o ms key = true
   ↔ ∀ k, on_chain ms key k → layer_available o ms k)
  ∧ (∀ s, key ≠ EmptyString → checkAvailability o ms key = false →
       ∃ err, mounts o ms s key = Err err ∧ IsUnavailable err = true)
  ∧ (∀ fuel, (chain_fuel ms ≤ fuel)%nat →
       checkAvailabilityN o fuel ms key = Some (checkAvailability o ms key)).
Proof.
  intros Hwf. split; [|split].
  - eapply checkAvailabilityN_sound.
    by apply (checkAvailability_fuel ms key Hwf (chain_fuel ms)).
  - intros s Hkey Hfalse. unfold mounts.
    rewrite Hfalse, bool_decide_eq_false_2 by done. cbn. eauto.
  - by apply checkAvailability_fuel.
Qed.

(** The label that [Prepare] writes for the plugin at index [i] is read
    back by [checkAvailability] as that plugin. *)
Lemma checkLayer_stamped id info (i : nat) f :
  Info_Labels info !! filesystemIDLabel = Some (strconv.FormatInt (Z.of_nat i)) →
  fsChain o !! i = Some f →
  Z.of_nat i < 2 ^ 63 →
  checkLayer o id info = succeeded (Check f (upperPath o id)).
Proof.
  intros Hl Hf Hi. unfold checkLayer. rewrite Hl.
  rewrite strconv_facts.ParseInt_FormatInt by lia.
  pose proof (lookup_lt_Some _ _ _ Hf) as Hlen.
  rewrite (proj2 (Z.ltb_ge _ _)) by lia.
  rewrite (proj2 (Z.leb_gt _ _)) by lia. cbn [orb].
  by rewrite Nat2Z.id, Hf.
Qed.

(** *** Prepare *)

Lemma createSnapshot_ok ms kind key parent opts m ms1 :
  createSnapshot o ms kind key parent opts = (Ok m, ms1) →
  ∃ s, CreateSnapshot ms kind key parent opts = Ok (s, ms1)
       ∧ mounts o ms1 s parent = Ok m.
Proof.
  unfold createSnapshot. intros H.
  destruct (prepareDirectory o _ kind) as [td [err|]]; [discriminate|].
  destruct (CreateSnapshot ms kind key parent opts) as [[s ms']|]; [|discriminate].
  destruct (match Snapshot_ParentIDs s with [] => _ | _ => _ end);
    [discriminate|].
  destruct (Rename _ _ _); [discriminate|].
  destruct (mounts o ms' s parent) as [m'|] eqn:Hm; [|discriminate].
  injection H as <- <-. eauto.
Qed.

Lemma mounts_active ms s checkKey m :
  Snapshot_Kind s = KindActive →
  mounts o ms s checkKey = Ok m →
  normal_mounts o (Snapshot_ID s) m.
Proof.
  unfold mounts, normal_mounts. intros Hk H.
  destruct (_ && _); [discriminate|].
  destruct (Snapshot_ParentIDs s) as [|p0 rest].
  - rewrite Hk in H. cbn in H. injection H as <-. by left.
  - rewrite Hk in H. cbn in H. injection H as <-. right. eauto.
Qed.

(** A snapshot that [createSnapshot] has just made. *)
Lemma createSnapshot_GetInfo ms kind key parent opts base m ms1 :
  apply_opts opts Info_zero = Ok base →
  createSnapshot o ms kind key parent opts = (Ok m, ms1) →
  GetInfo ms1 key =
    Ok (strconv.FormatInt (sequence ms + 1),
        mkInfo kind key parent (Info_Labels base), Usage_zero)
  ∧ normal_mounts o (strconv.FormatInt (sequence ms + 1)) m ∨ kind ≠ KindActive.
Proof.
  intros Hbase H.
  destruct (createSnapshot_ok _ _ _ _ _ _ _ H) as (s & Hc & Hm).
  destruct (CreateSnapshot_inv _ _ _ _ _ _ _ Hc)
    as (base' & Hbase' & _ & _ & _ & _ & -> & Hkind & Hid & _).
  rewrite Hbase in Hbase'. injection Hbase' as <-.
  destruct (decide (kind = KindActive)) as [->|]; [left|by right].
  split.
  - unfold GetInfo. cbn. by rewrite lookup_insert_eq.
  - rewrite <- Hid. by eapply mounts_active.
Qed.

Lemma mountFirst_first chain mountpoint labels :
  ∀ (i : nat) f k,
    chain !! i = Some f →
    Mount f mountpoint labels = None →
    (∀ (j : nat) g, (j < i)%nat → chain !! j = Some g →
       Mount g mountpoint labels ≠ None) →
    mountFirst chain k mountpoint labels = Some (k + Z.of_nat i).
Proof.
  induction chain as [|g chain IH]; intros i f k Hi Hm Hbefore; [done|].
  destruct i as [|i]; cbn in Hi |- *.
  - injection Hi as ->. rewrite Hm. f_equal. lia.
  - destruct (Mount g mountpoint labels) eqn:Hg.
    + rewrite (IH i f (k + 1)); [f_equal; lia|done..|].
      intros j g' Hj Hg'. apply (Hbefore (S j) g'); [lia|done].
    + exfalso. by apply (Hbefore 0%nat g); [lia|..].
Qed.



(** [Commit] of a snapshot that carries the target label skips the scan
    of the directory, and succeeds exactly when the store accepts the
    name. *)
Lemma Commit_remote ms name key opts kind parent labels usage id base :
  GetInfo ms key = Ok (id, mkInfo kind key parent labels, usage) →
  is_Some (labels !! targetSnapshotLabel) →
  kind = KindActive →
  apply_opts opts Info_zero = Ok base →
  name ≠ EmptyString →
  buckets ms !! name = None →
  ∃ ms', Commit o ms name key opts = (None, ms')
         ∧ Stat ms' name
           = Ok (mkInfo KindCommitted name parent (Info_Labels base)).
Proof.
  intros Hget [t Ht] -> Hbase Hname Hfresh.
  apply GetInfo_Ok in Hget as (b & Hb & -> & [= Hk Hp Hl] & ->).
  unfold Commit, GetInfo. rewrite Hb. cbn. rewrite <- Hl, Ht.
  unfold CommitActive. rewrite Hbase.
  destruct (decide (name = EmptyString)); [done|].
  rewrite Hfresh, Hb. rewrite <- Hk.
  destruct (decide (KindActive = KindActive)); [|done].
  eexists. split; [done|].
  unfold Stat, GetInfo. cbn. rewrite lookup_insert_eq. cbn. by rewrite Hp.
Qed.

(** C1, amended.  When [Prepare] is given the target label, has created
    the snapshot, the plugin at index [i] is the first of the chain whose
    [Mount] on the snapshot's [fs] directory succeeds, and the [Commit]
    of the target that follows succeeds, then [Prepare] returns the
    already-exists error and no mounts; the store is the one that
    [Commit(target, key, opts..., WithLabels(labels))] left, in which the
    target is a committed snapshot whose labels are those given plus
    [filesystem.id] equal to the decimal [i], and the key is gone. *)
Theorem Prepare_remote_snapshot ms key parent opts base target m ms1
    (i : nat) f :
  let mountpoint := upperPath o (strconv.FormatInt (sequence ms + 1)) in
  let labels :=
    <[filesystemIDLabel := strconv.FormatInt (Z.of_nat i)]> (Info_Labels base) in
  apply_opts opts Info_zero = Ok base →
  Info_Labels base !! targetSnapshotLabel = Some target →
  createSnapshot o ms KindActive key parent opts = (Ok m, ms1) →
  fsChain o !! i = Some f →
  Mount f mountpoint (Info_Labels base) = None →
  (∀ (j : nat) g, (j < i)%nat → fsChain o !! j = Some g →
     Mount g mountpoint (Info_Labels base) ≠ None) →
  (Commit o ms1 target key (opts ++ [WithLabels labels])).1 = None →
  ∃ err ms2,
    Prepare o ms key parent opts = (Err err, ms2)
    ∧ IsAlreadyExists err = true
    ∧ Commit o ms1 target key (opts ++ [WithLabels labels]) = (None, ms2)
    ∧ Stat ms2 target = Ok (mkInfo KindCommitted target parent labels)
    ∧ labels !! filesystemIDLabel = Some (strconv.FormatInt (Z.of_nat i))
    ∧ buckets ms2 !! key = None.
Proof.
  intros mountpoint labels Hbase Htarget Hcreate Hi Hmount Hfirst Hcommit.
  subst mountpoint.
  destruct (createSnapshot_GetInfo _ _ _ _ _ _ _ _ Hbase Hcreate)
    as [[Hget _]|]; [|done].
  unfold Prepare. rewrite Hcreate, Hbase, Htarget.
  unfold prepareRemoteSnapshot. rewrite Hget.
  rewrite (mountFirst_first _ _ _ i f 0 Hi Hmount Hfirst).
  replace (0 + Z.of_nat i) with (Z.of_nat i) by lia. fold labels.
  destruct (Commit o ms1 target key (opts ++ [WithLabels labels]))
    as [[err|] ms2] eqn:HC; [done|].
  exists (ErrWrap ErrAlreadyExists ("target snapshot " +:+ quote target)), ms2.
  split; [done|]. split; [done|]. split; [done|].
  (* what the successful Commit left *)
  unfold Commit in HC. rewrite Hget in HC. cbn in HC. rewrite Htarget in HC.
  match type of HC with
  | context [CommitActive ?a ?b ?c ?d ?e] =>
      destruct (CommitActive a b c d e) as [[cid ms2']|] eqn:HCA;
        [|discriminate];
      change (CommitActive ms1 key target Usage_zero
                (opts ++ [WithLabels labels]) = Ok (cid, ms2')) in HCA
  end.
  injection HC as <-.
  destruct (CommitActive_inv _ _ _ _ _ _ _ HCA)
    as (base' & sb & Hbase' & Hname & Hfresh & Hkey & Hact & _ & ->).
  destruct (apply_opts_WithLabels opts _ _ labels Hbase) as (info & Hinfo & Hl).
  rewrite Hinfo in Hbase'. injection Hbase' as <-.
  apply GetInfo_Ok in Hget as (b & Hb & _ & [= _ Hpar _] & _).
  rewrite Hkey in Hb. injection Hb as ->.
  split; [|split].
  - unfold Stat, GetInfo. cbn. rewrite lookup_insert_eq. cbn.
    by rewrite Hl, Hpar.
  - unfold labels. by rewrite lookup_insert_eq.
  - cbn. rewrite lookup_insert_ne.
    + by rewrite lookup_delete_eq.
    + intros ->. congruence.
Qed.


(** *** Usage *)

(** C10.  For a snapshot whose stored kind is Active, [Usage] is the scan
    of its upper directory [snapshots/<id>/fs], whatever its labels are;
    for a snapshot of another kind it is the usage read from the
    store. *)
Theorem Usage_spec ms key id info usage :
  GetInfo ms key = Ok (id, info, usage) →
  (Info_Kind info = KindActive →
     Usage o ms key = DiskUsage (os o) (upperPath o id)
     ∧ upperPath o id = filepath_Join [root o; "snapshots"; id; "fs"])
  ∧ (Info_Kind info ≠ KindActive → Usage o ms key = Ok usage).
Proof.
  intros Hget. unfold Usage. rewrite Hget. split.
  - intros Hk. rewrite decide_True by done.
    split; [by destruct (DiskUsage _ _)|done].
  - intros Hk. by rewrite decide_False.
Qed.

(** *** The operations keep the store well-formed *)

Lemma createSnapshot_wf ms kind key parent opts r ms' :
  wf_store ms →
  createSnapshot o ms kind key parent opts = (r, ms') →
  wf_store ms'.
Proof.
  unfold createSnapshot. intros Hwf H.
  destruct (prepareDirectory o _ kind) as [td [err|]]; [by injection H as _ <-|].
  destruct (CreateSnapshot ms kind key parent opts) as [[s ms1]|] eqn:Hc;
    [|by injection H as _ <-].
  pose proof (CreateSnapshot_wf _ _ _ _ _ _ _ Hwf Hc).
  destruct (match Snapshot_ParentIDs s with [] => _ | _ => _ end);
    [by injection H as _ <-|].
  destruct (Rename _ _ _); [by injection H as _ <-|].
  destruct (mounts o ms1 s parent); by injection H as _ <-.
Qed.

Lemma Commit_wf ms name key opts r ms' :
  wf_store ms →
  Commit o ms name key opts = (r, ms') →
  wf_store ms'.
Proof.
  unfold Commit. intros Hwf H.
  destruct (GetInfo ms key) as [[[id info] usage]|]; [|by injection H as _ <-].
  destruct (match Info_Labels info !! targetSnapshotLabel with
            | Some _ => _ | None => _ end) as [u|]; [|by injection H as _ <-].
  destruct (CommitActive ms key name u opts) as [[cid ms1]|] eqn:Hc;
    injection H as _ <-; [|done].
  by eapply CommitActive_wf.
Qed.

Lemma Prepare_wf ms key parent opts r ms' :
  wf_store ms →
  Prepare o ms key parent opts = (r, ms') →
  wf_store ms'.
Proof.
  unfold Prepare. intros Hwf H.
  destruct (createSnapshot o ms KindActive key parent opts) as [[m|err] ms1] eqn:Hc;
    pose proof (createSnapshot_wf _ _ _ _ _ _ _ Hwf Hc);
    [|by injection H as _ <-].
  destruct (apply_opts opts Info_zero) as [base|]; [|by injection H as _ <-].
  destruct (Info_Labels base !! targetSnapshotLabel) as [target|];
    [|by injection H as _ <-].
  destruct (prepareRemoteSnapshot o ms1 key (Info_Labels base)) as [fsid|];
    [|by injection H as _ <-].
  destruct (Commit o ms1 target key _) as [[err|] ms2] eqn:HC;
    pose proof (Commit_wf _ _ _ _ _ _ H0 HC); by injection H as _ <-.
Qed.

End Snapshotter.
End snapshot_facts.

(** *** The snapshotter at work *)

Module snapshot_examples.
Import storage storage_spec storage_facts mount snapshot snapshot_spec snapshot_facts
  snapshot_fixtures.

Lemma store1_wf : wf_store store1.
Proof.
  eapply Prepare_wf; [apply wf_empty|]. unfold store1. apply surjective_pairing.
Qed.

Lemma store2_wf : wf_store store2.
Proof.
  eapply Prepare_wf; [apply store1_wf|]. unfold store2. apply surjective_pairing.
Qed.

Lemma store3_wf : wf_store store3.
Proof.
  eapply Prepare_wf; [apply store2_wf|]. unfold store3. apply surjective_pairing.
Qed.

(** Scenario 2 of the specification, here with the second plugin of the
    chain as the one that mounts. *)
Example Prepare_k1 :
  ∃ err ms,
    Prepare sn empty "k1" "" [WithLabels (refLabels "c1")] = (Err err, ms)
    ∧ IsAlreadyExists err = true
    ∧ Stat ms "c1"
      = Ok (mkInfo KindCommitted "c1" ""
              (<[filesystemIDLabel := "1"]> (refLabels "c1"))).
Proof. eexists _, _. split; [|split]; vm_compute; reflexivity. Qed.

Example store3_mounts :
  Mounts sn store3 "k3"
  = Ok [mkMount "overlay" "overlay"
          ["workdir=/var/lib/remote/snapshots/3/work";
           "upperdir=/var/lib/remote/snapshots/3/fs";
           "lowerdir=/var/lib/remote/snapshots/2/fs:/var/lib/remote/snapshots/1/fs"]].
Proof. vm_compute. reflexivity. Qed.

(** [Prepare_remote_snapshot] at the first layer. *)
Lemma Prepare_remote_snapshot_witness :
  ∃ err ms2,
    Prepare sn empty "k1" "" [WithLabels (refLabels "c1")] = (Err err, ms2)
    ∧ IsAlreadyExists err = true
    ∧ Stat ms2 "c1"
      = Ok (mkInfo KindCommitted "c1" ""
              (<[filesystemIDLabel := "1"]> (refLabels "c1"))).
Proof.
  destruct (Prepare_remote_snapshot sn empty "k1" ""
              [WithLabels (refLabels "c1")]
              (mkInfo KindUnknown "" "" (refLabels "c1")) "c1"
              [mkMount "bind" "/var/lib/remote/snapshots/1/fs" ["rw"; "rbind"]]
              (createSnapshot sn empty KindActive "k1" ""
                 [WithLabels (refLabels "c1")]).2
              1%nat mountingFS)
    as (err & ms2 & HP & HE & _ & HS & _).
  - reflexivity.
  - reflexivity.
  - vm_compute. reflexivity.
  - reflexivity.
  - reflexivity.
  - intros [|j] g Hj Hg; [|lia]. injection Hg as <-. discriminate.
  - vm_compute. reflexivity.
  - exists err, ms2. repeat split; assumption.
Defined.

(** The claim as worded fails when the target is already committed: the
    second [Prepare] for [c1] finds a plugin that mounts the layer, the
    [Commit] is refused by the store, and [Prepare] falls back to the
    mounts. *)
Lemma Prepare_claim_counterexample :
  ¬ Prepare_claim sn store1 "k2" "" [WithLabels (refLabels "c1")].
Proof.
  intros Hclaim.
  destruct (Hclaim (mkInfo KindUnknown "" "" (refLabels "c1")) "c1"
              [mkMount "bind" "/var/lib/remote/snapshots/2/fs" ["rw"; "rbind"]]
              (createSnapshot sn store1 KindActive "k2" ""
                 [WithLabels (refLabels "c1")]).2
              1%nat mountingFS)
    as (err & ms2 & HP & _).
  - reflexivity.
  - reflexivity.
  - vm_compute. reflexivity.
  - reflexivity.
  - reflexivity.
  - vm_compute in HP. discriminate.
Qed.


(** [checkAvailability_spec] on the chain [k3 → c2 → c1]. *)
Lemma checkAvailability_spec_witness :
  checkAvailability sn store3 "k3" = true
  ↔ ∀ k, on_chain store3 "k3" k → layer_available sn store3 k.
Proof.
  exact (proj1 (checkAvailability_spec sn store3 "k3" store3_wf)).
Defined.

Example store3_available : checkAvailability sn store3 "k3" = true.
Proof. vm_compute. reflexivity. Qed.

Example store3_unavailable :
  checkAvailability sn_down store3 "k3" = false
  ∧ Mounts sn_down store3 "k3"
    = Err (ErrWrap ErrUnavailable ("layer " +:+ quote "3" +:+ " unavailable")).
Proof. split; vm_compute; reflexivity. Qed.

(** [Usage_spec] on the active snapshot [k3] and on the committed [c1]. *)
Lemma Usage_spec_witness :
  Usage sn store3 "k3" = Ok (mkUsage 3 4096)
  ∧ Usage sn store3 "c1" = Ok Usage_zero.
Proof.
  split.
  - refine (proj1 (proj1 (Usage_spec sn store3 "k3" "3"
                     (mkInfo KindActive "k3" "c2" ∅) Usage_zero _) _)).
    + vm_compute. reflexivity.
    + reflexivity.
  - refine (proj2 (Usage_spec sn store3 "c1" "1"
                     (mkInfo KindCommitted "c1" ""
                        (<[filesystemIDLabel := "1"]> (refLabels "c1")))
                     Usage_zero _) _).
    + vm_compute. reflexivity.
    + discriminate.
Defined.

End snapshot_examples.

(** ** The stargz plugin *)

Module stargz_facts.
Import stargz stargz_spec.

Section Plugin.
Variable lib : Libs.

Lemma NewRequest_probe method u req :
  NewRequest lib method u = Ok req →
  url_valid lib u = true
  ∧ probe req
    = mkRequest method u (<["Range" := "bytes=0-1"]> ∅) (30 * 1000000000) false.
Proof.
  unfold NewRequest. destruct (url_valid lib u); [|done].
  intros [= <-]. done.
Qed.

(** *** Check *)

Lemma Check_fresh fs now mountpoint c :
  conn fs !! mountpoint = Some c →
  time_Sub now (lastCheck c) < layerValidInterval fs →
  Check lib fs now mountpoint = (None, fs, []).
Proof.
  intros Hc Hlt. unfold Check. rewrite Hc.
  by rewrite (proj2 (Z.ltb_lt _ _) Hlt).
Qed.

Lemma Check_expired fs now mountpoint c :
  conn fs !! mountpoint = Some c →
  layerValidInterval fs ≤ time_Sub now (lastCheck c) →
  url_valid lib (url c) = true →
  ∃ r,
    Check lib fs now mountpoint
    = (r, set_conn fs (<[mountpoint := mkConnection (url c) (tr c) now]> (conn fs)),
       [probeRequest (url c)])
    ∧ (r = None ↔
       ∃ res, tr c (probeRequest (url c)) = Ok res
              ∧ (StatusCode res = 200 ∨ StatusCode res = 206)).
Proof.
  intros Hc Hge Hurl. unfold Check. rewrite Hc.
  rewrite (proj2 (Z.ltb_ge _ _) Hge). cbn [url tr].
  unfold NewRequest. rewrite Hurl.
  change (probe (mkRequest "GET" (url c) ∅ 0 false)) with (probeRequest (url c)).
  destruct (tr c (probeRequest (url c))) as [res|err] eqn:Htr.
  - unfold StatusOK, StatusPartialContent.
    destruct (StatusCode res =? 200) eqn:H200; cbn.
    { apply Z.eqb_eq in H200. eexists. split; [done|]. split; [|done].
      intros _. exists res. auto. }
    destruct (StatusCode res =? 206) eqn:H206; cbn.
    { apply Z.eqb_eq in H206. eexists. split; [done|]. split; [|done].
      intros _. exists res. auto. }
    apply Z.eqb_neq in H200, H206.
    eexists. split; [done|]. split; [done|].
    intros (res' & [= <-] & [|]); done.
  - eexists. split; [done|]. split; [done|].
    intros (res' & ? & _). done.
Qed.

Lemma NewFilesystem_interval root config fs :
  NewFilesystem lib root config = Ok fs →
  layerValidInterval fs
  = int64 ((if LayerValidInterval config =? 0 then 60
            else if LayerValidInterval config <? 0 then 0
            else LayerValidInterval config) * 1000000000).
Proof.
  unfold NewFilesystem. intros H.
  destruct (getCache _ _ _ _); [|done].
  destruct (getCache _ _ _ _); [|done].
  by injection H as <-.
Qed.

(** C4.  For a mountpoint with a connection record [c]:
    - while [now - lastCheck] is below the interval, [Check] succeeds and
      hands no request to the transport;
    - otherwise (the stored URL being one that parses) it hands exactly one
      request to the transport, a GET of the stored URL with
      [Range: bytes=0-1] under a 30-second deadline, and it succeeds
      exactly when the transport answers with status 200 or 206; the
      record's [lastCheck] is [now] afterwards (it is set before the
      request is made, so also when the check succeeds);
    - a filesystem made by [NewFilesystem] from a configured interval of
      0 has the 60-second default, and one made from a negative interval
      has the interval 0, under which every [Check] at a clock reading
      not before [lastCheck] makes the request. *)
Theorem Check_spec fs now mountpoint c :
  conn fs !! mountpoint = Some c →
  (time_Sub now (lastCheck c) < layerValidInterval fs →
     Check lib fs now mountpoint = (None, fs, []))
  ∧ (layerValidInterval fs ≤ time_Sub now (lastCheck c) →
     url_valid lib (url c) = true →
     ∃ r fs',
       Check lib fs now mountpoint = (r, fs', [probeRequest (url c)])
       ∧ (r = None ↔
          ∃ res, tr c (probeRequest (url c)) = Ok res
                 ∧ (StatusCode res = 200 ∨ StatusCode res = 206))
       ∧ conn fs' !! mountpoint = Some (mkConnection (url c) (tr c) now)
       ∧ layerValidInterval fs' = layerValidInterval fs)
  ∧ (∀ root config fs0,
       NewFilesystem lib root config = Ok fs0 →
       (LayerValidInterval config = 0 →
          layerValidInterval fs0 = 60 * 1000000000)
       ∧ (LayerValidInterval config < 0 →
          layerValidInterval fs0 = 0
          ∧ (layerValidInterval fs = layerValidInterval fs0 →
             lastCheck c ≤ now → url_valid lib (url c) = true →
             (Check lib fs now mountpoint).2 = [probeRequest (url c)]))).
Proof.
  intros Hc. split; [|split].
  - by apply Check_fresh.
  - intros Hge Hurl.
    destruct (Check_expired fs now mountpoint c Hc Hge Hurl) as (r & HC & Hr).
    eexists r, _. split; [exact HC|]. split; [exact Hr|]. split; [|done].
    cbn. by rewrite lookup_insert_eq.
  - intros root config fs0 Hnew.
    pose proof (NewFilesystem_interval _ _ _ Hnew) as Hi. split.
    + intros H0. rewrite Hi, H0. reflexivity.
    + intros Hneg.
      assert (layerValidInterval fs0 = 0) as Hzero.
      { rewrite Hi. destruct (LayerValidInterval config =? 0) eqn:E0.
        { apply Z.eqb_eq in E0. lia. }
        by rewrite (proj2 (Z.ltb_lt _ _) Hneg). }
      split; [exact Hzero|].
      intros Hsame Hmono Hurl.
      assert (layerValidInterval fs ≤ time_Sub now (lastCheck c)) as Hge.
      { rewrite Hsame, Hzero. unfold time_Sub. lia. }
      destruct (Check_expired fs now mountpoint c Hc Hge Hurl) as (r & HC & _).
      by rewrite HC.
Qed.

(** The slot [lastCheck] is written before the request is made, so a
    failed probe refreshes it as well: the next [Check] within the
    interval succeeds without asking the registry. *)
Lemma Check_failed_then_fresh fs now now' mountpoint c r fs' reqs :
  conn fs !! mountpoint = Some c →
  layerValidInterval fs ≤ time_Sub now (lastCheck c) →
  Check lib fs now mountpoint = (r, fs', reqs) →
  time_Sub now' now < layerValidInterval fs →
  Check lib fs' now' mountpoint = (None, fs', []).
Proof.
  intros Hc Hge HC Hlt.
  assert (conn fs' !! mountpoint = Some (mkConnection (url c) (tr c) now)
          ∧ layerValidInterval fs' = layerValidInterval fs) as [Hc' Hi].
  { unfold Check in HC. rewrite Hc, (proj2 (Z.ltb_ge _ _) Hge) in HC.
    cbn [url tr] in HC.
    destruct (NewRequest lib "GET" (url c)) as [req|].
    - destruct (tr c (probe req)) as [res|].
      + destruct (_ && _); injection HC as _ <- _; cbn;
          by rewrite lookup_insert_eq.
      + injection HC as _ <- _; cbn; by rewrite lookup_insert_eq.
    - injection HC as _ <- _; cbn; by rewrite lookup_insert_eq. }
  apply (Check_fresh fs' now' mountpoint _ Hc'). cbn. by rewrite Hi.
Qed.

(** *** resolve *)

Lemma matchAny_Exists patterns host :
  matchAny lib patterns host = true
  ↔ Exists (λ i, (regexp_Match lib i host).1 = true) patterns.
Proof.
  induction patterns as [|i rest IH]; cbn.
  - split; [done|]. by intros ?%Exists_nil.
  - rewrite Exists_cons.
    destruct ((regexp_Match lib i host).1); [split; auto|].
    rewrite IH. split; [by auto|]. by intros [|].
Qed.

(** A probe of [u] by [checkAndRedirect] makes at most one request, the
    probe request, and answers with [u] or with the [Location] of a 3xx
    response. *)
Lemma checkAndRedirect_inv u t r reqs :
  checkAndRedirect lib u t = (r, reqs) →
  Forall (λ req, req = probeRequest u) reqs
  ∧ ∀ u', r = Ok u' →
      reqs = [probeRequest u]
      ∧ (u' = u
         ∨ ∃ res, t (probeRequest u) = Ok res
                  ∧ Z.quot (StatusCode res) 100 = 3
                  ∧ u' = Header_Get (ResponseHeader res) "Location"
                  ∧ u' ≠ EmptyString).
Proof.
  unfold checkAndRedirect, NewRequest.
  destruct (url_valid lib u).
  2: { intros [= <- <-]. split; [constructor|]. done. }
  change (probe (mkRequest "GET" u ∅ 0 false)) with (probeRequest u).
  destruct (t (probeRequest u)) as [res|] eqn:Ht.
  2: { intros [= <- <-]. split; [by repeat constructor|]. done. }
  destruct (400 <=? StatusCode res).
  { intros [= <- <-]. split; [by repeat constructor|]. done. }
  destruct (negb _ && _) eqn:Hredir.
  - intros [= <- <-]. split; [by repeat constructor|].
    intros u' [= <-]. split; [done|]. right. exists res.
    apply andb_true_iff in Hredir as [Hne Hq].
    apply negb_true_iff, bool_decide_eq_false in Hne.
    apply Z.eqb_eq in Hq. done.
  - intros [= <- <-]. split; [by repeat constructor|].
    intros u' [= <-]. auto.
Qed.

(** A probe by [checkAndRedirect] succeeds exactly when the transport
    answers it with a status below 400. *)
Lemma checkAndRedirect_probed u t u' :
  (checkAndRedirect lib u t).1 = Ok u' ↔ probed lib t u u'.
Proof.
  unfold checkAndRedirect, NewRequest, probed.
  destruct (url_valid lib u).
  2: { cbn. split; [done|]. by intros [? _]. }
  change (probe (mkRequest "GET" u ∅ 0 false)) with (probeRequest u).
  destruct (t (probeRequest u)) as [res|err].
  2: { cbn. split; [done|]. by intros (_ & res & ? & _). }
  destruct (400 <=? StatusCode res) eqn:Hs.
  - apply Z.leb_le in Hs. cbn. split; [done|].
    intros (_ & res' & [= <-] & ? & _). lia.
  - apply Z.leb_gt in Hs. cbn zeta.
    destruct (negb _ && _) eqn:Hr; cbn.
    + split.
      * intros [= <-]. split; [done|]. exists res.
        unfold redirected. by rewrite Hr.
      * intros (_ & res' & [= <-] & _ & ->). unfold redirected. by rewrite Hr.
    + split.
      * intros [= <-]. split; [done|]. exists res.
        unfold redirected. by rewrite Hr.
      * intros (_ & res' & [= <-] & _ & ->). unfold redirected. by rewrite Hr.
Qed.

Lemma checkAndRedirect_failed u t err :
  (checkAndRedirect lib u t).1 = Err err → ∀ u', ¬ probed lib t u u'.
Proof.
  intros H u' Hp. apply checkAndRedirect_probed in Hp. congruence.
Qed.

(** C8.  [resolve] parses the reference in the docker convention and
    fails with the error of the parser when it does not parse.  For a
    reference that parses to [named]: the host is the domain, with
    [docker.io] replaced by [registry-1.docker.io]; the scheme is [http]
    when that host matches one of the configured insecure patterns and
    [https] when it matches none; the blob URL is
    [<scheme>://<host>/v2/<path>/blobs/<digest>].  Every request that
    [resolve] makes is a probe of that URL, and the URL it returns is
    that URL or the [Location] a probe of it was redirected to.  The
    name of the registry is parsed with the option [name.Insecure]
    exactly for an insecure host, and when it does not parse [resolve]
    fails without a request.  [resolve] returns a URL and a transport
    exactly when that transport answers the probe of the blob URL and is
    the cached transport of the name or, no cached transport answering
    the probe, the transport newly made for the name. *)
Theorem resolve_spec fs ref digest :
  (∀ err, ParseDockerRef lib ref = Err err →
     resolve lib fs ref digest = (Err err, fs, []))
  ∧ ∀ named, ParseDockerRef lib ref = Ok named →
  let host :=
    if decide (Domain named = "docker.io") then "registry-1.docker.io"
    else Domain named in
  let insecureHost :=
    Exists (λ i, (regexp_Match lib i host).1 = true) (insecure fs) in
  ∃ scheme,
    (insecureHost → scheme = "http")
    ∧ (¬ insecureHost → scheme = "https")
    ∧ let u :=
        scheme +:+ "://" +:+ host +:+ "/v2/" +:+ Path named
          +:+ "/blobs/" +:+ digest in
      (∀ r fs' reqs,
         resolve lib fs ref digest = (r, fs', reqs) →
         Forall (λ req, req = probeRequest u) reqs
         ∧ ∀ u' t, r = Ok (u', t) →
             reqs ≠ []
             ∧ (u' = u
                ∨ ∃ res, t (probeRequest u) = Ok res
                         ∧ Z.quot (StatusCode res) 100 = 3
                         ∧ u' = Header_Get (ResponseHeader res) "Location"
                         ∧ u' ≠ EmptyString))
      ∧ (∀ b, (b = true ↔ insecureHost) →
           match name_ParseReference lib (host +:+ "/" +:+ Path named) b with
           | Err _ => ∃ err, resolve lib fs ref digest = (Err err, fs, [])
           | Ok nameref =>
               ∀ u' t,
                 (resolve lib fs ref digest).1.1 = Ok (u', t) ↔
                 probed lib t u u'
                 ∧ (pullTransports fs !! Reference_Name nameref = Some t
                    ∨ (∀ t0 u0,
                         pullTransports fs !! Reference_Name nameref = Some t0 →
                         ¬ probed lib t0 u u0)
                      ∧ transport_New lib nameref = Ok t)
           end).
Proof.
  split.
  { intros err Herr. unfold resolve. by rewrite Herr. }
  intros named Hparse host insecureHost.
  exists (resolveScheme lib fs host).
  assert (resolveHost named = host) as Hhost by done.
  split; [|split].
  - intros Hins. unfold resolveScheme, isInsecure.
    by rewrite (proj2 (matchAny_Exists _ _) Hins).
  - intros Hsec. unfold resolveScheme, isInsecure.
    destruct (matchAny lib (insecure fs) host) eqn:Hm; [|done].
    by apply matchAny_Exists in Hm.
  - intros u. split.
    + intros r fs' reqs. unfold resolve. rewrite Hparse, Hhost.
      change (blobURL (resolveScheme lib fs host) host (Path named) digest)
        with u.
      destruct (name_ParseReference lib _ _) as [nameref|].
      2: { intros [= <- <- <-]. split; [constructor|done]. }
      destruct (pullTransports fs !! Reference_Name nameref) as [t0|].
      * destruct (checkAndRedirect lib u t0) as [[u0|e0] reqs0] eqn:Hc0;
          destruct (checkAndRedirect_inv _ _ _ _ Hc0) as [Hall0 Hok0].
        -- intros [= <- <- <-]. split; [done|].
           intros u' t [= <- <-]. destruct (Hok0 u0 eq_refl) as [-> Hu].
           split; [done|exact Hu].
        -- destruct (refreshTransport lib nameref) as [t1|].
           2: { intros [= <- <- <-]. split; [done|done]. }
           destruct (checkAndRedirect lib u t1) as [[u1|e1] reqs1] eqn:Hc1;
             destruct (checkAndRedirect_inv _ _ _ _ Hc1) as [Hall1 Hok1];
             intros [= <- <- <-]; (split; [by apply Forall_app|]); [|done].
           intros u' t [= <- <-]. destruct (Hok1 u1 eq_refl) as [-> Hu].
           split; [|exact Hu]. by destruct reqs0.
      * destruct (refreshTransport lib nameref) as [t1|].
        2: { intros [= <- <- <-]. split; [constructor|done]. }
        destruct (checkAndRedirect lib u t1) as [[u1|e1] reqs1] eqn:Hc1;
          destruct (checkAndRedirect_inv _ _ _ _ Hc1) as [Hall1 Hok1];
          intros [= <- <- <-]; (split; [done|]); [|done].
        intros u' t [= <- <-]. destruct (Hok1 u1 eq_refl) as [-> Hu].
        split; [done|exact Hu].
    + intros b Hb.
      assert (isInsecure lib fs host = b) as Hins.
      { unfold isInsecure.
        destruct (matchAny lib (insecure fs) host) eqn:Hm.
        - apply matchAny_Exists in Hm. symmetry. by apply Hb.
        - destruct b; [|done]. rewrite <- Hm.
          apply matchAny_Exists. by apply Hb. }
      unfold resolve. rewrite Hparse, Hhost, Hins.
      change (blobURL (resolveScheme lib fs host) host (Path named) digest)
        with u.
      destruct (name_ParseReference lib _ b) as [nameref|]; [|by eauto].
      intros u' t. unfold refreshTransport.
      destruct (pullTransports fs !! Reference_Name nameref) as [t0|].
      * destruct (checkAndRedirect lib u t0) as [[u0|e0] reqs0] eqn:Hc0.
        -- cbn. split.
           ++ intros [= <- <-]. split; [|by left].
              apply checkAndRedirect_probed. by rewrite Hc0.
           ++ intros [Hp [[= <-]|[Hnot _]]].
              ** apply checkAndRedirect_probed in Hp. rewrite Hc0 in Hp.
                 cbn in Hp. congruence.
              ** destruct (Hnot t0 u0 eq_refl).
                 apply checkAndRedirect_probed. by rewrite Hc0.
        -- assert (∀ u0, ¬ probed lib t0 u u0) as Hfail.
           { apply (checkAndRedirect_failed _ _ e0). by rewrite Hc0. }
           destruct (transport_New lib nameref) as [t1|e1].
           2: { cbn. split; [done|].
                intros [Hp [[= <-]|[_ ?]]]; [by destruct (Hfail u')|done]. }
           destruct (checkAndRedirect lib u t1) as [[u1|e2] reqs1] eqn:Hc1; cbn.
           ++ split.
              ** intros [= <- <-]. split.
                 { apply checkAndRedirect_probed. by rewrite Hc1. }
                 right. split; [|done]. intros t0' u0' [= <-]. apply Hfail.
              ** intros [Hp [[= <-]|[_ [= <-]]]]; [by destruct (Hfail u')|].
                 apply checkAndRedirect_probed in Hp. rewrite Hc1 in Hp.
                 cbn in Hp. congruence.
           ++ split; [done|].
              intros [Hp [[= <-]|[_ [= <-]]]]; [by destruct (Hfail u')|].
              apply checkAndRedirect_probed in Hp. rewrite Hc1 in Hp. done.
      * destruct (transport_New lib nameref) as [t1|e1].
        2: { cbn. split; [done|]. by intros [_ [?|[_ ?]]]. }
        destruct (checkAndRedirect lib u t1) as [[u1|e2] reqs1] eqn:Hc1; cbn.
        -- split.
           ++ intros [= <- <-]. split.
              { apply checkAndRedirect_probed. by rewrite Hc1. }
              right. split; [|done]. by intros t0' u0' ?.
           ++ intros [Hp [?|[_ [= <-]]]]; [done|].
              apply checkAndRedirect_probed in Hp. rewrite Hc1 in Hp.
              cbn in Hp. congruence.
        -- split; [done|].
           intros [Hp [?|[_ [= <-]]]]; [done|].
           apply checkAndRedirect_probed in Hp. rewrite Hc1 in Hp. done.
Qed.

End Plugin.

(** *** The order of directory entries *)

#[export] Instance name_le_trans : Transitive name_le.
Proof.
  intros a b c. unfold name_le.
  apply (transitivity (R := String.le)).
Qed.

#[export] Instance name_le_total : Total name_le.
Proof. intros a b. apply String.le_total. Qed.

(** *** OpenDir *)

Section Listing.
Variable n : node.

Lemma root_landmark_not_whiteout baseName :
  root_landmark n baseName = true → HasPrefix baseName whiteoutPrefix = false.
Proof.
  unfold root_landmark. intros [_ H]%andb_true_iff.
  apply bool_decide_eq_true in H. by subst.
Qed.

Lemma OpenDir_visit_cases acc baseName ent :
  OpenDir_visit n acc baseName ent =
  if shown n baseName then
    mkListing (ents acc ++ [normal_entry (baseName, ent)]) (whiteouts acc)
      (<[baseName := true]> (normalEnts acc))
  else if is_whiteout baseName then
    mkListing (ents acc) (<[baseName := ent]> (whiteouts acc)) (normalEnts acc)
  else acc.
Proof.
  unfold OpenDir_visit, shown, is_whiteout.
  fold (root_landmark n baseName).
  destruct (root_landmark n baseName) eqn:Hr.
  - rewrite (root_landmark_not_whiteout _ Hr). done.
  - destruct (HasPrefix baseName whiteoutPrefix); [|done].
    by destruct (bool_decide (baseName = whiteoutOpaqueDir)).
Qed.

Lemma shown_not_whiteout baseName :
  shown n baseName = true → is_whiteout baseName = false.
Proof.
  unfold shown, is_whiteout. intros [_ H]%andb_true_iff.
  apply negb_true_iff in H. by rewrite H.
Qed.

(** What the callback has gathered after the children [l]. *)
Lemma OpenDir_visit_fold (l : list (string * TOCEntry)) :
  NoDup l.*1 →
  let acc := foldl (λ acc kv, OpenDir_visit n acc kv.1 kv.2)
               (mkListing [] ∅ ∅) l in
  ents acc = normal_entry <$> filter (λ kv, shown n kv.1) l
  ∧ (∀ k v, whiteouts acc !! k = Some v ↔ is_whiteout k ∧ (k, v) ∈ l)
  ∧ (∀ k, default false (normalEnts acc !! k) = true
          ↔ shown n k ∧ k ∈ l.*1).
Proof.
  induction l as [|[k0 v0] l IH] using rev_ind; intros Hnd acc.
  - subst acc. cbn. split; [done|]. split.
    + intros k v. rewrite lookup_empty. split; [done|].
      intros [_ H]. by apply elem_of_nil in H.
    + intros k. rewrite lookup_empty. cbn. split; [done|].
      intros [_ H]. by apply elem_of_nil in H.
  - rewrite fmap_app in Hnd. apply NoDup_app in Hnd as (Hnd & Hfresh & _).
    destruct (IH Hnd) as (He & Hw & Hn). clear IH.
    assert (k0 ∉ l.*1) as Hk0.
    { intros Hin. apply (Hfresh _ Hin). cbn. by apply list_elem_of_singleton. }
    subst acc. rewrite foldl_snoc. cbn [fst snd].
    set (acc := foldl _ _ l) in *.
    rewrite OpenDir_visit_cases, filter_app, fmap_app, fmap_app.
    destruct (shown n k0) eqn:Hs.
    + pose proof (shown_not_whiteout _ Hs) as Hnw. cbn [ents whiteouts normalEnts].
      split; [|split].
      * rewrite He. f_equal. rewrite filter_cons_True by (cbn; by rewrite Hs).
        by rewrite filter_nil.
      * intros k v. rewrite Hw, elem_of_app, list_elem_of_singleton.
        split; [by intuition|]. intros [Hk [Hin|[= -> ->]]]; [done|].
        rewrite Hnw in Hk. done.
      * intros k. rewrite elem_of_app. cbn. rewrite list_elem_of_singleton.
        destruct (decide (k0 = k)) as [<-|Hne].
        -- rewrite lookup_insert_eq. cbn. rewrite Hs. by intuition.
        -- rewrite lookup_insert_ne by done. rewrite Hn.
           split; [by intuition|]. intros [? [?|?]]; [done|congruence].
    + rewrite filter_cons_False by (cbn; rewrite Hs; intros []).
      rewrite filter_nil, app_nil_r.
      destruct (is_whiteout k0) eqn:Hwh; cbn [ents whiteouts normalEnts].
      * split; [done|]. split.
        -- intros k v. rewrite elem_of_app, list_elem_of_singleton.
           destruct (decide (k0 = k)) as [<-|Hne].
           ++ rewrite lookup_insert_eq. split.
              ** intros [= <-]. rewrite Hwh. auto.
              ** intros [_ [Hin|[= ->]]]; [|done].
                 exfalso. apply Hk0. apply list_elem_of_fmap.
                 by exists (k0, v).
           ++ rewrite lookup_insert_ne by done. rewrite Hw.
              split; [by intuition|]. intros [? [?|[= H1 H2]]]; [done|congruence].
        -- intros k. rewrite Hn, elem_of_app. cbn.
           rewrite list_elem_of_singleton.
           split; [by intuition|]. intros [Hk [? | ->]]; [done|].
           rewrite Hs in Hk. done.
      * split; [done|]. split.
        -- intros k v. rewrite Hw, elem_of_app, list_elem_of_singleton.
           split; [by intuition|]. intros [Hk [?|[= -> ->]]]; [done|].
           rewrite Hwh in Hk. done.
        -- intros k. rewrite Hn, elem_of_app. cbn.
           rewrite list_elem_of_singleton.
           split; [by intuition|]. intros [Hk [? | ->]]; [done|].
           rewrite Hs in Hk. done.
Qed.

Lemma foldl_append_if {A B} (c : A → bool) (g : A → B) (l : list A) :
  ∀ e0, foldl (λ e kv, if c kv then e ++ [g kv] else e) e0 l
        = e0 ++ (g <$> filter (λ kv, c kv) l).
Proof.
  induction l as [|x l IH]; intros e0.
  - cbn. by rewrite app_nil_r.
  - rewrite filter_cons.
    change (foldl (λ e kv, if c kv then e ++ [g kv] else e) e0 (x :: l))
      with (foldl (λ e kv, if c kv then e ++ [g kv] else e)
              (if c x then e0 ++ [g x] else e0) l).
    rewrite IH. destruct (c x) eqn:Hc.
    + rewrite decide_True by done. cbn. by rewrite <- app_assoc.
    + rewrite decide_False by (intros []). done.
Qed.

Lemma OpenDir_whiteouts_fold acc :
  OpenDir_whiteouts acc
  = ents acc ++
    (whiteout_entry <$>
       filter (λ kv, negb (default false (normalEnts acc !! target kv.1)))
         (map_to_list (whiteouts acc))).
Proof.
  unfold OpenDir_whiteouts.
  apply (foldl_append_if
           (λ kv, negb (default false (normalEnts acc !! target kv.1)))
           whiteout_entry).
Qed.

Lemma elem_of_fst_map_to_list {A} (m : gmap string A) k :
  k ∈ (map_to_list m).*1 ↔ is_Some (m !! k).
Proof.
  rewrite list_elem_of_fmap. split.
  - intros ([k' v] & -> & Hin). apply elem_of_map_to_list in Hin. eauto.
  - intros [v Hv]. exists (k, v). split; [done|]. by apply elem_of_map_to_list.
Qed.

Lemma map_to_list_filter_perm {A} (P : string * A → Prop)
    `{!∀ x, Decision (P x)} (m : gmap string A) :
  map_to_list (filter P m) ≡ₚ filter P (map_to_list m).
Proof.
  rewrite map_filter_alt. apply map_to_list_to_map.
  eapply sublist_NoDup; [apply (NoDup_fst_map_to_list m)|].
  apply fmap_sublist, sublist_filter.
Qed.

(** C5, amended.  [OpenDir] succeeds and returns, sorted by name, exactly
    these entries: every child of the TOC entry other than the
    [.prefetch.landmark] of the root and the names prefixed with [.wh.],
    with its mode and inode; for every child [.wh.X] other than
    [.wh..wh..opq], a character device named [X] with the inode of the
    whiteout, unless a sibling named [X] is itself shown in the listing;
    and, for the root, the directory [.stargz-snapshotter]. *)
Theorem OpenDir_spec :
  (OpenDir n).2 = OK
  ∧ (OpenDir n).1 ≡ₚ OpenDir_amended n
  ∧ StronglySorted name_le (OpenDir n).1.
Proof.
  split; [done|]. split; [|apply StronglySorted_merge_sort; apply _].
  pose proof (NoDup_fst_map_to_list (children (node_e n))) as Hnd.
  destruct (OpenDir_visit_fold _ Hnd) as (He & Hw & Hn).
  unfold OpenDir, ForeachChild, sort_by_Name. cbn [fst].
  set (acc := foldl _ _ _) in *.
  rewrite merge_sort_Permutation. unfold OpenDir_amended.
  assert (whiteouts acc
          = filter (λ kv, is_whiteout kv.1) (children (node_e n))) as HW.
  { apply map_eq. intros k. apply option_eq. intros v.
    rewrite Hw, map_lookup_filter_Some, elem_of_map_to_list. cbn.
    by intuition. }
  assert (OpenDir_whiteouts acc
          ≡ₚ (normal_entry <$>
                filter (λ kv, shown n kv.1) (map_to_list (children (node_e n))))
             ++ (whiteout_entry <$>
                   filter (λ kv, is_whiteout kv.1
                                 ∧ ¬ has_shown_sibling n (target kv.1))
                     (map_to_list (children (node_e n))))) as Hperm.
  { rewrite OpenDir_whiteouts_fold, He. apply Permutation_app_head.
    apply fmap_Permutation. rewrite HW, map_to_list_filter_perm.
    rewrite list_filter_filter.
    erewrite list_filter_iff; [reflexivity|].
    intros [k v]. cbn [fst]. unfold has_shown_sibling.
    rewrite <- elem_of_fst_map_to_list.
    pose proof (Hn (target k)) as Ht.
    destruct (default false (normalEnts acc !! target k)); cbn [negb].
    - split; [by intros [[] _]|]. intros [_ Hno]. exfalso. apply Hno.
      destruct (proj1 Ht eq_refl). done.
    - split; [|by intuition]. intros [_ Hwh]. split; [done|].
      intros [Hin Hs]. discriminate (proj2 Ht (conj Hs Hin)). }
  destruct (decide (Name (node_e n) = EmptyString)).
  - rewrite Hperm. by rewrite <- app_assoc.
  - rewrite Hperm. by rewrite app_nil_r.
Qed.

End Listing.

(** *** Access *)

Lemma Access_root n mode caller :
  Owner_Uid caller = 0 → Access n mode caller = OK.
Proof. intros H. unfold Access. by rewrite H. Qed.

(** A request for nothing succeeds on the three kinds of node that
    define [Access]. *)
Lemma Access_nothing n s e caller :
  Access n 0 caller = OK
  ∧ state_Access s 0 caller = OK
  ∧ statFile_Access e 0 caller = OK.
Proof.
  unfold Access, state_Access, statFile_Access. cbn.
  by destruct (Owner_Uid caller =? 0).
Qed.

Lemma land_shiftl_field mode sm shift :
  0 ≤ shift → 0 ≤ mode < 8 →
  (Z.land (Z.shiftl mode shift) sm = 0
   ↔ Z.land mode (Z.land (Z.shiftr sm shift) 7) = 0).
Proof.
  intros Hs Hm.
  assert (Z.land (Z.shiftl mode shift) sm
          = Z.shiftl (Z.land mode (Z.shiftr sm shift)) shift) as ->.
  { apply Z.bits_inj'. intros i Hi.
    rewrite Z.land_spec.
    destruct (Z.lt_ge_cases i shift).
    - by rewrite !Z.shiftl_spec_low.
    - rewrite !Z.shiftl_spec by done. rewrite Z.land_spec, Z.shiftr_spec by lia.
      do 2 f_equal. lia. }
  rewrite Z.shiftl_eq_0_iff by done.
  assert (Z.land mode 7 = mode) as Hlow.
  { change 7 with (Z.ones 3). rewrite Z.land_ones by lia.
    apply Z.mod_small. lia. }
  by rewrite (Z.land_comm _ 7), Z.land_assoc, Hlow.
Qed.

(** On a TOC-backed node, for a caller other than root and a mask of
    [R_OK], [W_OK], [X_OK] bits: the three bits of the entry's mode for
    the owner, the group or the others are selected by the uid and gid of
    the caller, and the request is granted when one of the requested bits
    is among them. *)
Lemma Access_compare n mode caller :
  Owner_Uid caller ≠ 0 → 0 < mode < 8 →
  let shift :=
    if uint32 (Uid (node_e n)) =? Owner_Uid caller then 6
    else if uint32 (Gid (node_e n)) =? Owner_Gid caller then 3
    else 0 in
  let field :=
    Z.land (Z.shiftr (fileModeToSystemMode (Stat_Mode (node_e n))) shift) 7 in
  Access n mode caller = if Z.land mode field =? 0 then EPERM else OK.
Proof.
  intros Huid Hmode shift field. unfold Access.
  rewrite (proj2 (Z.eqb_neq _ _) Huid).
  rewrite (proj2 (Z.eqb_neq mode 0)) by lia.
  fold shift.
  assert (shift = 0 ∨ shift = 3 ∨ shift = 6) as Hshift.
  { subst shift. destruct (_ =? _); [auto|]. destruct (_ =? _); auto. }
  assert (uint32 (Z.shiftl mode shift) = Z.shiftl mode shift) as ->.
  { unfold uint32. apply Z.mod_small. rewrite Z.shiftl_mul_pow2 by lia.
    destruct Hshift as [-> | [-> | ->]]; lia. }
  assert (0 ≤ shift) as Hs0 by lia.
  assert (0 ≤ mode < 8) as Hm8 by lia.
  pose proof (land_shiftl_field mode
                (fileModeToSystemMode (Stat_Mode (node_e n))) shift Hs0 Hm8)
    as Hiff.
  fold field in Hiff.
  destruct (Z.land mode field =? 0) eqn:Hf.
  - apply Z.eqb_eq in Hf. by rewrite (proj2 Hiff Hf).
  - apply Z.eqb_neq in Hf.
    destruct (Z.land (Z.shiftl mode shift) _ =? 0) eqn:Hl; [|done].
    apply Z.eqb_eq in Hl. exfalso. by apply Hf, Hiff.
Qed.

(** C6, at the input on which the code departs from it.  The state
    directory has mode 0500 and owner 0:0, so for the caller root the
    owner's bits [r-x] are the ones to compare, and a request for [R_OK]
    finds its bit among them; [state.Access] answers [EPERM].  The same
    holds for the state file with its mode 0400. *)
Theorem state_Access_root_read s e :
  Z.land 4 (Z.land (Z.shiftr (state_mode s) 6) 7) ≠ 0
  ∧ state_Access s 4 (mkOwner 0 0) = EPERM
  ∧ Z.land 4 (Z.land (Z.shiftr (statFile_mode e) 6) 7) ≠ 0
  ∧ statFile_Access e 4 (mkOwner 0 0) = EPERM.
Proof. repeat split; done. Qed.

(** For every mask of [R_OK], [W_OK], [X_OK] bits the state directory and
    the state file refuse the caller root. *)
Lemma state_Access_root_denied s e mode :
  0 < mode < 8 →
  state_Access s mode (mkOwner 0 0) = EPERM
  ∧ statFile_Access e mode (mkOwner 0 0) = EPERM.
Proof.
  intros H.
  assert (mode = 1 ∨ mode = 2 ∨ mode = 3 ∨ mode = 4 ∨ mode = 5
          ∨ mode = 6 ∨ mode = 7) as Hc by lia.
  destruct Hc as [-> | [-> | [-> | [-> | [-> | [-> | ->]]]]]]; done.
Qed.

(** *** Lookup and the opaque attribute *)

Lemma Lookup_miss n kids name :
  kids !! name = None →
  Lookup n kids name =
  ((Lookup n ∅ name).1,
   match (Lookup n ∅ name).1.1 with
   | Some c => <[name := c]> kids
   | None => kids
   end).
Proof.
  intros Hmiss. unfold Lookup. rewrite Hmiss, lookup_empty.
  destruct (_ && _); [done|].
  destruct (HasPrefix name whiteoutPrefix); [done|].
  destruct (_ && _); [done|].
  destruct (LookupChild (node_e n) name); [done|].
  by destruct (LookupChild (node_e n) (whiteoutPrefix +:+ name)).
Qed.

Lemma Lookup_kids_ok n kids name r st kids' :
  kids_ok n kids →
  Lookup n kids name = (r, st, kids') →
  kids_ok n kids' ∧ ∀ c, r = Some c → made_by_Lookup n name c.
Proof.
  intros Hok H. destruct (kids !! name) as [c0|] eqn:Hhit.
  - unfold Lookup in H. rewrite Hhit in H. injection H as <- <- <-.
    split; [done|]. intros c [= <-]. by apply Hok.
  - rewrite (Lookup_miss _ _ _ Hhit) in H.
    destruct (Lookup n ∅ name) as [[r0 st0] k0] eqn:HL. cbn in H.
    injection H as <- <- <-.
    assert (∀ c, r0 = Some c → made_by_Lookup n name c) as Hmade.
    { intros c ->. unfold made_by_Lookup. rewrite HL. cbn.
      unfold Lookup in HL. rewrite lookup_empty in HL.
      destruct (_ && _); [done|].
      destruct (HasPrefix name whiteoutPrefix); [done|].
      destruct (_ && _); [by injection HL as _ <- _|].
      destruct (LookupChild (node_e n) name); [by injection HL as _ <- _|].
      destruct (LookupChild (node_e n) (whiteoutPrefix +:+ name));
        [by injection HL as _ <- _|done]. }
    split; [|done].
    destruct r0 as [c|]; [|done].
    intros name' c' Hc'. destruct (decide (name = name')) as [<-|Hne].
    + rewrite lookup_insert_eq in Hc'. injection Hc' as <-. by apply Hmade.
    + rewrite lookup_insert_ne in Hc' by done. by apply Hok.
Qed.

(** A node made by [Lookup] stands for the TOC child of that name, and its
    [opaque] flag tells whether that child has the opaque marker. *)
Lemma made_by_Lookup_node n name isDir c :
  made_by_Lookup n name (ChildNode isDir c) →
  LookupChild (node_e n) name = Some (node_e c)
  ∧ node_opaque c
    = bool_decide (is_Some (LookupChild (node_e c) whiteoutOpaqueDir)).
Proof.
  unfold made_by_Lookup, Lookup. rewrite lookup_empty.
  destruct (_ && _); [done|].
  destruct (HasPrefix name whiteoutPrefix); [done|].
  destruct (_ && _); [done|].
  destruct (LookupChild (node_e n) name) as [ce|].
  - cbn. intros [= _ <-]. cbn. split; [done|].
    destruct (LookupChild ce whiteoutOpaqueDir) eqn:Ho.
    + by rewrite bool_decide_eq_true_2.
    + rewrite bool_decide_eq_false_2; [done|]. by intros [? ?].
  - by destruct (LookupChild (node_e n) (whiteoutPrefix +:+ name)).
Qed.

(** C7, amended.  For a node that [Lookup] returned: if its TOC entry has
    a child [.wh..wh..opq], [getxattr] of [trusted.overlay.opaque] is
    ["y"] and [listxattr] has that name; if it has none, [getxattr] of
    that name is the entry's own attribute of that name, or the no-data
    error when the entry has none; every other attribute is read from the
    entry and listed exactly when the entry has it. *)
Theorem GetXAttr_spec n kids name isDir c st kids' :
  kids_ok n kids →
  Lookup n kids name = (Some (ChildNode isDir c), st, kids') →
  let passthrough (a : string) : option string * Status :=
    match Xattrs (node_e c) !! a with
    | Some v => (Some v, OK)
    | None => (None, ENOATTR)
    end in
  (is_Some (LookupChild (node_e c) whiteoutOpaqueDir) →
     GetXAttr c opaqueXattr = (Some "y"%string, OK)
     ∧ opaqueXattr ∈ (ListXAttr c).1)
  ∧ (LookupChild (node_e c) whiteoutOpaqueDir = None →
     GetXAttr c opaqueXattr = passthrough opaqueXattr)
  ∧ (∀ a, a ≠ opaqueXattr →
       GetXAttr c a = passthrough a
       ∧ (a ∈ (ListXAttr c).1 ↔ is_Some (Xattrs (node_e c) !! a)))
  ∧ (ListXAttr c).2 = OK.
Proof.
  intros Hok HL passthrough.
  destruct (Lookup_kids_ok _ _ _ _ _ _ Hok HL) as [_ Hmade].
  destruct (made_by_Lookup_node _ _ _ _ (Hmade _ eq_refl)) as [_ Hop].
  unfold GetXAttr, ListXAttr. rewrite Hop. split; [|split; [|split]].
  - intros Hsome. rewrite bool_decide_eq_true_2 by done.
    rewrite bool_decide_eq_true_2 by done. cbn. split; [done|].
    apply elem_of_cons. by left.
  - intros Hnone. rewrite (bool_decide_eq_false_2 (is_Some _)).
    + by rewrite andb_false_r.
    + rewrite Hnone. by intros [? ?].
  - intros a Ha. rewrite (bool_decide_eq_false_2 (a = _)) by done. cbn.
    split; [done|]. rewrite elem_of_app, elem_of_fst_map_to_list.
    split; [|by auto]. intros [Hin|]; [|done].
    destruct (bool_decide _); [|by apply elem_of_nil in Hin].
    apply list_elem_of_singleton in Hin. done.
  - done.
Qed.

(** *** The state file *)

Section StateFile.
Variable lib : Libs.

Lemma append_assoc (a b c : string) : (a +:+ b) +:+ c = a +:+ (b +:+ c).
Proof.
  induction a as [|x a IH]; [reflexivity|].
  change (String x ((a +:+ b) +:+ c) = String x (a +:+ (b +:+ c))).
  by rewrite IH.
Qed.

Lemma substring_none n s : String.substring n 0 s = EmptyString.
Proof.
  revert s. induction n as [|n IH]; intros [|c s]; cbn; auto.
Qed.

(** C9.  A read of the state file at a non-negative offset returns the
    requested window of a text that is rendered at that read: a JSON
    object with [digest], [size], [fetchedSize] and [fetchedPercent],
    preceded by [error] exactly when a non-empty error was reported, and
    followed by a newline.  [fetchedSize] is the value of the reader's
    counter at the read, and [fetchedPercent] is, in [float64]
    arithmetic, that value divided by the size and multiplied by 100; the
    two are also stored in the node.  The percentage has to be a number
    for the object to be rendered; for a blob of size 0 it is not, and the
    read fails with [EIO]. *)
Theorem Read_spec (e : statFile) (destLen : nat) (off : Z) :
  let j := statFile_statJSON e in
  let fetched := getFetchedSize (statFile_ur e) in
  let percent :=
    PrimFloat.mul (PrimFloat.div (float64 fetched) (float64 (Size j)))
      100%float in
  let text :=
    "{"
    +:+ (if decide (Error j = EmptyString) then EmptyString
         else quote "error" +:+ ":" +:+ json_string lib (Error j) +:+ ",")
    +:+ quote "digest" +:+ ":" +:+ json_string lib (Digest j) +:+ ","
    +:+ quote "size" +:+ ":" +:+ strconv.FormatInt (Size j) +:+ ","
    +:+ quote "fetchedSize" +:+ ":" +:+ strconv.FormatInt fetched +:+ ","
    +:+ quote "fetchedPercent" +:+ ":" +:+ json_float lib percent
    +:+ "}" +:+ String (ascii_of_nat 10) EmptyString in
  PrimFloat.is_nan percent = false →
  PrimFloat.is_infinity percent = false →
  0 ≤ off →
  Read lib e destLen off
  = (Some (String.substring (Z.to_nat off)
             (Nat.min destLen (String.length text - Z.to_nat off)) text),
     OK,
     mkStatFile (statFile_name e) (statFile_ur e)
       (mkStatJSON (Error j) (Digest j) (Size j) fetched percent)
       (statFile_addr e)).
Proof.
  intros j fetched percent text Hnan Hinf Hoff.
  unfold Read, updateStatUnlocked, json_Marshal.
  cbn [FetchedPercent Error Digest Size FetchedSize].
  fold j fetched percent. rewrite Hnan, Hinf. cbn [orb].
  unfold json_key, newline.
  match goal with
  | |- context [ReadAt ?t _ _] =>
      replace t with text
        by (unfold text; by rewrite !append_assoc)
  end.
  unfold ReadAt. rewrite (proj2 (Z.ltb_ge _ _) Hoff).
  destruct (Z.of_nat (String.length text) <=? off) eqn:Hlen; [|done].
  apply Z.leb_le in Hlen.
  replace (String.length text - Z.to_nat off)%nat with 0%nat by lia.
  by rewrite Nat.min_0_r, substring_none.
Qed.

End StateFile.

End stargz_facts.

(** *** The plugin at work *)

Module stargz_examples.
Import stargz stargz_spec stargz_facts stargz_fixtures.

(** [Check_spec] with the default interval: ten seconds after the mount
    nothing is asked; two minutes after it the registry is probed, the
    check succeeds and the time of the check is stored.  With a negative
    interval the probe is made at once. *)
Lemma Check_spec_witness :
  Check exampleLibs (mounted 0) (10 * Second) "/mnt/1" = (None, mounted 0, [])
  ∧ (∃ fs',
       Check exampleLibs (mounted 0) (120 * Second) "/mnt/1"
       = (None, fs', [probeRequest "https://registry/v2/a/blobs/d"])
       ∧ conn fs' !! "/mnt/1"
         = Some (mkConnection "https://registry/v2/a/blobs/d" registry
                   (120 * Second)))
  ∧ layerValidInterval (mounted 0) = 60 * Second
  ∧ (Check exampleLibs (mounted (-1)) 0 "/mnt/1").2
    = [probeRequest "https://registry/v2/a/blobs/d"].
Proof.
  pose proof (Check_spec exampleLibs (mounted 0) (10 * Second) "/mnt/1"
                (mkConnection "https://registry/v2/a/blobs/d" registry 0)
                eq_refl) as (Hfresh & _ & _).
  pose proof (Check_spec exampleLibs (mounted 0) (120 * Second) "/mnt/1"
                (mkConnection "https://registry/v2/a/blobs/d" registry 0)
                eq_refl) as (_ & Hexpired & Hnew).
  pose proof (Check_spec exampleLibs (mounted (-1)) 0 "/mnt/1"
                (mkConnection "https://registry/v2/a/blobs/d" registry 0)
                eq_refl) as (_ & _ & Hneg).
  split; [|split; [|split]].
  - apply Hfresh. vm_compute. reflexivity.
  - destruct Hexpired as (r & fs' & HC & Hr & Hconn & _).
    + vm_compute. discriminate.
    + reflexivity.
    + exists fs'. split; [|exact Hconn].
      rewrite HC. f_equal. f_equal. apply Hr.
      exists (mkResponse 206 ∅). split; [reflexivity|]. by right.
  - destruct (NewFilesystem exampleLibs "/var/lib/stargz" (exampleConfig 0))
      as [fs0|] eqn:Hfs0; [|discriminate].
    destruct (Hnew _ _ _ Hfs0) as [H0 _].
    unfold mounted. rewrite Hfs0. cbn. apply H0. reflexivity.
  - destruct (NewFilesystem exampleLibs "/var/lib/stargz" (exampleConfig (-1)))
      as [fs0|] eqn:Hfs0; [|discriminate].
    destruct (Hneg _ _ _ Hfs0) as [_ Hn]. destruct Hn as [_ Hn]; [done|].
    apply Hn.
    + unfold mounted. rewrite Hfs0. reflexivity.
    + done.
    + reflexivity.
Defined.

(** Scenario 4 of the specification. *)
Example resolve_insecure :
  (resolve exampleLibs (mounted 0) "reg.local:5000/ubuntu:18.04" "sha256:0a").1.1
  = Ok ("http://reg.local:5000/v2/ubuntu/blobs/sha256:0a", registry).
Proof. vm_compute. reflexivity. Qed.

Example resolve_docker_hub :
  (resolve exampleLibs (mounted 0) "index.docker.io/library/alpine" "sha256:0a").1.1
  = Ok ("https://registry-1.docker.io/v2/library/alpine/blobs/sha256:0a",
        registry).
Proof. vm_compute. reflexivity. Qed.

(** [resolve_spec] on the two references of scenario 4. *)
Lemma resolve_spec_witness :
  ((resolve exampleLibs (mounted 0) "reg.local:5000/ubuntu:18.04" "sha256:0a").1.1
   = Ok ("http://reg.local:5000/v2/ubuntu/blobs/sha256:0a", registry)
   ∧ Forall (λ req, req = probeRequest "http://reg.local:5000/v2/ubuntu/blobs/sha256:0a")
       (resolve exampleLibs (mounted 0) "reg.local:5000/ubuntu:18.04" "sha256:0a").2)
  ∧ ((resolve exampleLibs (mounted 0) "index.docker.io/library/alpine" "sha256:0a").1.1
     = Ok ("https://registry-1.docker.io/v2/library/alpine/blobs/sha256:0a",
           registry)
     ∧ Forall (λ req, req = probeRequest
                              "https://registry-1.docker.io/v2/library/alpine/blobs/sha256:0a")
         (resolve exampleLibs (mounted 0) "index.docker.io/library/alpine" "sha256:0a").2).
Proof.
  split.
  - destruct (proj2 (resolve_spec exampleLibs (mounted 0)
                       "reg.local:5000/ubuntu:18.04" "sha256:0a")
                (mkNamed "reg.local:5000" "ubuntu") eq_refl)
      as (scheme & Hins & _ & Hreq & Hres).
    assert (Exists (λ i, (regexp_Match exampleLibs i "reg.local:5000").1 = true)
              (insecure (mounted 0))) as Hhost.
    { apply Exists_cons. left. vm_compute. reflexivity. }
    rewrite (Hins Hhost) in Hreq, Hres. split.
    + apply (Hres true (conj (λ _, Hhost) (λ _, eq_refl))). split.
      * split; [reflexivity|]. exists (mkResponse 206 ∅).
        split; [reflexivity|]. split; [reflexivity|]. reflexivity.
      * right. split; [|reflexivity]. intros t0 u0 H. vm_compute in H.
        discriminate.
    + destruct (resolve _ _ _ _) as [[r fs'] reqs] eqn:HR.
      exact (proj1 (Hreq r fs' reqs eq_refl)).
  - destruct (proj2 (resolve_spec exampleLibs (mounted 0)
                       "index.docker.io/library/alpine" "sha256:0a")
                (mkNamed "docker.io" "library/alpine") eq_refl)
      as (scheme & _ & Hsec & Hreq & Hres).
    assert (¬ Exists (λ i, (regexp_Match exampleLibs i "registry-1.docker.io").1
                           = true)
              (insecure (mounted 0))) as Hhost.
    { intros [H|H]%Exists_cons; [vm_compute in H; discriminate|].
      by apply Exists_nil in H. }
    rewrite (Hsec Hhost) in Hreq, Hres. split.
    + apply (Hres false (conj (λ H, match Bool.diff_false_true H with end)
                           (λ H, match Hhost H with end))). split.
      * split; [reflexivity|]. exists (mkResponse 206 ∅).
        split; [reflexivity|]. split; [reflexivity|]. reflexivity.
      * right. split; [|reflexivity]. intros t0 u0 H. vm_compute in H.
        discriminate.
    + destruct (resolve _ _ _ _) as [[r fs'] reqs] eqn:HR.
      exact (proj1 (Hreq r fs' reqs eq_refl)).
Defined.

Example scenario5_listing :
  OpenDir (mkNode scenario5 exampleState "/mnt/1" false)
  = ([mkDirEntry (Z.lor S_IFREG 420) "a" 11;
      mkDirEntry S_IFCHR "b" 12;
      mkDirEntry (Z.lor S_IFREG 420) "c" 13;
      mkDirEntry (Z.lor S_IFDIR 493) "d" 14], OK).
Proof. vm_compute. reflexivity. Qed.

Example opaqueRoot_listing :
  OpenDir (rootNode opaqueRoot exampleState "/mnt/1")
  = ([mkDirEntry (Z.lor S_IFDIR 320) ".stargz-snapshotter" 900;
      mkDirEntry (Z.lor S_IFDIR 493) "dir" 10;
      mkDirEntry (Z.lor S_IFDIR 493) "plain" 4], OK).
Proof. vm_compute. reflexivity. Qed.

(** The claim as worded fails on it: the sibling [.wh.b] of [.wh..wh.b]
    exists, so the claim lists the device [b] alone, while [OpenDir] also
    lists a device named [.wh.b], the sibling being hidden itself. *)
Lemma OpenDir_claim_counterexample :
  ¬ OpenDir_claim (mkNode nestedWhiteouts exampleState "/mnt/1" false).
Proof.
  unfold OpenDir_claim. intros Hperm.
  apply Permutation_length in Hperm. vm_compute in Hperm. discriminate.
Qed.

Example nestedWhiteouts_listing :
  OpenDir (mkNode nestedWhiteouts exampleState "/mnt/1" false)
  = ([mkDirEntry S_IFCHR ".wh.b" 22; mkDirEntry S_IFCHR "b" 21], OK).
Proof. vm_compute. reflexivity. Qed.

(** The claim C7 as worded fails on the root, whose node [Mount] builds
    with the flag unset, and on a directory that carries the attribute in
    the archive without holding the marker. *)
Lemma GetXAttr_claim_counterexample :
  ¬ GetXAttr_claim (rootNode opaqueRoot exampleState "/mnt/1")
  ∧ ∃ isDir c,
      (Lookup (rootNode opaqueRoot exampleState "/mnt/1") ∅ "plain").1
      = (Some (ChildNode isDir c), OK)
      ∧ ¬ GetXAttr_claim c.
Proof.
  split.
  - unfold GetXAttr_claim. intros [_ H].
    assert (is_Some (LookupChild
                       (node_e (rootNode opaqueRoot exampleState "/mnt/1"))
                       whiteoutOpaqueDir)) as Hsome.
    { eexists. vm_compute. reflexivity. }
    specialize (H Hsome). vm_compute in H. discriminate.
  - eexists _, _. split; [vm_compute; reflexivity|].
    unfold GetXAttr_claim. intros [H _].
    destruct H as [x Hx]; [vm_compute; reflexivity|].
    vm_compute in Hx. discriminate.
Qed.

(** [GetXAttr_spec] on the opaque directory [d] of scenario 5. *)
Lemma GetXAttr_spec_witness :
  ∃ isDir c kids,
    Lookup (mkNode scenario5 exampleState "/mnt/1" false) ∅ "d"
    = (Some (ChildNode isDir c), OK, kids)
    ∧ GetXAttr c opaqueXattr = (Some "y"%string, OK)
    ∧ GetXAttr c "user.other" = (None, ENOATTR).
Proof.
  destruct (Lookup (mkNode scenario5 exampleState "/mnt/1" false) ∅ "d")
    as [[[[isDir c| |]|] st] kids] eqn:HL; try (vm_compute in HL; discriminate).
  assert (st = OK) as -> by (vm_compute in HL; congruence).
  exists isDir, c, kids. split; [reflexivity|].
  destruct (GetXAttr_spec (mkNode scenario5 exampleState "/mnt/1" false) ∅ "d"
              isDir c OK kids) as (Hopq & _ & Hother & _).
  - intros name c'. by rewrite lookup_empty.
  - exact HL.
  - assert (c = mkNode (directory "dir/d" 14 ∅
                          {[ ".wh..wh..opq" := regular "dir/d/.wh..wh..opq" 15 ]})
                  exampleState "/mnt/1" true) as ->.
    { vm_compute in HL. injection HL as _ <- _. vm_compute. reflexivity. }
    split.
    + apply Hopq. eexists. vm_compute. reflexivity.
    + destruct (Hother "user.other") as [-> _]; [discriminate|].
      vm_compute. reflexivity.
Defined.

(** [Read_spec] on the state file: half of the layer is fetched. *)
Lemma Read_spec_witness :
  (Read exampleLibs (state_statFile exampleState) 4096 0).1
  = (Some ("{" +:+ quote "digest" +:+ ":" +:+ quote "sha256:0a" +:+ ","
           +:+ quote "size" +:+ ":120000,"
           +:+ quote "fetchedSize" +:+ ":60000,"
           +:+ quote "fetchedPercent" +:+ ":50}"
           +:+ String (ascii_of_nat 10) EmptyString), OK).
Proof.
  rewrite (Read_spec exampleLibs (state_statFile exampleState) 4096 0).
  - vm_compute. reflexivity.
  - vm_compute. reflexivity.
  - vm_compute. reflexivity.
  - lia.
Defined.

(** A reported error shows in the next read. *)
Example Read_after_report :
  (Read exampleLibs (report (state_statFile exampleState) "failed to read node")
     4096 0).1
  = (Some ("{" +:+ quote "error" +:+ ":" +:+ quote "failed to read node" +:+ ","
           +:+ quote "digest" +:+ ":" +:+ quote "sha256:0a" +:+ ","
           +:+ quote "size" +:+ ":120000,"
           +:+ quote "fetchedSize" +:+ ":60000,"
           +:+ quote "fetchedPercent" +:+ ":50}"
           +:+ String (ascii_of_nat 10) EmptyString), OK).
Proof. vm_compute. reflexivity. Qed.

(** A mount whose blob has size 0 cannot be read: 0/0 is not a number. *)
Example Read_size_zero :
  (Read exampleLibs
     (state_statFile (newState "sha256:0a" (mkUrlReaderAt 0 0) 900 901))
     4096 0).1
  = (None, EIO).
Proof. vm_compute. reflexivity. Qed.

End stargz_examples.

(** * Further properties: providers, plugins, the life of a snapshot,
      mounting and the nodes *)

(** ** The sources of a layer *)

Module service_facts.
Import service.

Section Sources.
Context {Source : Type}.

Lemma sources_loop_found (ps : list (GetSources Source)) labels allErr src errs :
  sources_loop Source ps labels allErr = (Some src, errs) ↔
  errs = []
  ∧ ∃ (i : nat) p,
      ps !! i = Some p ∧ p labels = Ok src
      ∧ ∀ (j : nat) q, (j < i)%nat → ps !! j = Some q → ∃ err, q labels = Err err.
Proof.
  revert allErr. induction ps as [|p ps IH]; intros allErr; cbn.
  - split; [done|]. intros (_ & i & p & Hi & _). done.
  - destruct (p labels) as [src0|err0] eqn:Hp.
    + split.
      * intros [= <- <-]. split; [done|]. exists 0%nat, p.
        split; [done|]. split; [done|]. intros j q Hj. lia.
      * intros (-> & i & p' & Hi & Hsrc & Hbefore).
        destruct i as [|i].
        -- injection Hi as <-. congruence.
        -- destruct (Hbefore 0%nat p) as [err Herr]; [lia|done|congruence].
    + rewrite IH. split.
      * intros (-> & i & p' & Hi & Hsrc & Hbefore). split; [done|].
        exists (S i), p'. split; [done|]. split; [done|].
        intros [|j] q Hj Hq.
        -- injection Hq as <-. eauto.
        -- apply (Hbefore j q); [lia|done].
      * intros (-> & i & p' & Hi & Hsrc & Hbefore). split; [done|].
        destruct i as [|i].
        -- injection Hi as <-. congruence.
        -- exists i, p'. split; [done|]. split; [done|].
           intros j q Hj Hq. apply (Hbefore (S j) q); [lia|done].
Qed.

Lemma sources_loop_none (ps : list (GetSources Source)) labels allErr errs :
  sources_loop Source ps labels allErr = (None, errs) ↔
  ∃ more, errs = allErr ++ more ∧ Forall2 (λ p err, p labels = Err err) ps more.
Proof.
  revert allErr. induction ps as [|p ps IH]; intros allErr; cbn.
  - split.
    + intros [= <-]. exists []. by rewrite app_nil_r.
    + intros (more & -> & Hall). apply Forall2_nil_inv_l in Hall as ->.
      by rewrite app_nil_r.
  - destruct (p labels) as [src0|err0] eqn:Hp.
    + split; [done|]. intros (more & _ & Hall).
      apply Forall2_cons_inv_l in Hall as (err & more' & Herr & _ & _).
      congruence.
    + rewrite IH. split.
      * intros (more & -> & Hall). exists (err0 :: more).
        split; [by rewrite <- app_assoc|]. by constructor.
      * intros (more & -> & Hall).
        apply Forall2_cons_inv_l in Hall as (err & more' & Herr & Hall & ->).
        exists more'. split; [|done].
        rewrite <- app_assoc. cbn. congruence.
Qed.

(** X1.  The function that [sources] makes from a list of providers asks
    them in order and answers with the sources of the first provider
    that returns no error, and with a nil error, whatever the providers
    before it returned.  It answers with no sources exactly when every
    provider fails, and its error then holds the error of each provider,
    in order; with no provider at all it returns no sources and a nil
    error. *)
Theorem sources_first_success (ps : list (GetSources Source)) labels :
  (∀ src errs,
     sources Source ps labels = (Some src, errs) ↔
     errs = []
     ∧ ∃ (i : nat) p,
         ps !! i = Some p ∧ p labels = Ok src
         ∧ ∀ (j : nat) q, (j < i)%nat → ps !! j = Some q →
             ∃ err, q labels = Err err)
  ∧ (∀ errs,
       sources Source ps labels = (None, errs) ↔
       Forall2 (λ p err, p labels = Err err) ps errs)
  ∧ (ps = [] → sources Source ps labels = (None, [])).
Proof.
  split; [|split].
  - intros src errs. apply sources_loop_found.
  - intros errs. unfold sources. rewrite sources_loop_none. split.
    + by intros (more & -> & Hall).
    + intros Hall. by exists errs.
  - by intros ->.
Qed.

End Sources.
End service_facts.

(** ** The chain of filesystem plugins *)

Module plugin_facts.
Import storage mount snapshot.

Lemma InitFn_chain_spec fsMap ids acc chain :
  InitFn_chain fsMap ids acc = Ok chain ↔
  ∃ fs, chain = acc ++ fs ∧ Forall2 (λ id f, fsMap !! id = Some f) ids fs.
Proof.
  revert acc. induction ids as [|id ids IH]; intros acc; cbn.
  - split.
    + intros [= <-]. exists []. by rewrite app_nil_r.
    + intros (fs & -> & Hall). apply Forall2_nil_inv_l in Hall as ->.
      by rewrite app_nil_r.
  - destruct (fsMap !! id) as [f|] eqn:Hid.
    + rewrite IH. split.
      * intros (fs & -> & Hall). exists (f :: fs).
        split; [by rewrite <- app_assoc|]. by constructor.
      * intros (fs & -> & Hall).
        apply Forall2_cons_inv_l in Hall as (f' & fs' & Hf & Hall & ->).
        exists fs'. split; [|done]. rewrite <- app_assoc. cbn. congruence.
    + split; [done|]. intros (fs & _ & Hall).
      apply Forall2_cons_inv_l in Hall as (f' & fs' & Hf & _ & _). congruence.
Qed.

(** What the loop over the plugins has registered after the plugins
    [l]. *)
Lemma InitFn_register_fold (l : list (string * PluginInstance)) :
  NoDup l.*1 →
  let acc := foldl (λ acc kv, InitFn_register acc kv.1 kv.2) (∅, []) l in
  (∀ id f, acc.1 !! id = Some f ↔ (id, InstanceFileSystem f) ∈ l)
  ∧ NoDup acc.2
  ∧ (∀ id, id ∈ acc.2 ↔ ∃ f, (id, InstanceFileSystem f) ∈ l).
Proof.
  induction l as [|[id0 p0] l IH] using rev_ind; intros Hnd acc.
  - subst acc. cbn. split; [|split].
    + intros id f. rewrite lookup_empty. split; [done|].
      by intros ?%elem_of_nil.
    + constructor.
    + intros id. split; [by intros ?%elem_of_nil|].
      by intros [f ?%elem_of_nil].
  - rewrite fmap_app in Hnd. apply NoDup_app in Hnd as (Hnd & Hfresh & _).
    destruct (IH Hnd) as (Hmap & Hnodup & Hnames). clear IH.
    assert (id0 ∉ l.*1) as Hid0.
    { intros Hin. apply (Hfresh _ Hin). cbn. by apply list_elem_of_singleton. }
    subst acc. rewrite foldl_snoc. cbn [fst snd].
    set (acc := foldl _ _ l) in *.
    assert (∀ p, (id0, p) ∉ l) as Hnot.
    { intros p Hin. apply Hid0. apply list_elem_of_fmap. by exists (id0, p). }
    destruct p0 as [err| |f0]; cbn [InitFn_register].
    + split; [|split; [done|]].
      * intros id f. rewrite Hmap, elem_of_app, list_elem_of_singleton.
        split; [by auto|]. by intros [?|[= _ ?]].
      * intros id. rewrite Hnames. setoid_rewrite elem_of_app.
        setoid_rewrite list_elem_of_singleton.
        split; [intros [f ?]; by eauto|]. intros [f [?|[= _ ?]]]; by eauto.
    + split; [|split; [done|]].
      * intros id f. rewrite Hmap, elem_of_app, list_elem_of_singleton.
        split; [by auto|]. by intros [?|[= _ ?]].
      * intros id. rewrite Hnames. setoid_rewrite elem_of_app.
        setoid_rewrite list_elem_of_singleton.
        split; [intros [f ?]; by eauto|]. intros [f [?|[= _ ?]]]; by eauto.
    + cbn [fst snd]. split; [|split].
      * intros id f. rewrite elem_of_app, list_elem_of_singleton.
        destruct (decide (id0 = id)) as [<-|Hne].
        -- rewrite lookup_insert_eq. split.
           ++ intros [= <-]. by right.
           ++ intros [Hin|[= <-]]; [|done]. by apply Hnot in Hin.
        -- rewrite lookup_insert_ne by done. rewrite Hmap.
           split; [by auto|]. intros [?|[= ? _]]; [done|congruence].
      * apply NoDup_app. split; [done|]. split; [|apply NoDup_singleton].
        intros id Hin ->%list_elem_of_singleton.
        apply Hnames in Hin as [f Hin]. by apply Hnot in Hin.
      * intros id. rewrite elem_of_app, list_elem_of_singleton, Hnames.
        setoid_rewrite elem_of_app. setoid_rewrite list_elem_of_singleton.
        split.
        -- intros [[f ?]| ->]; by eauto.
        -- intros [f [?|[= -> _]]]; by eauto.
Qed.

(** X2.  The chain that [InitFn] hands to [NewSnapshotter].  With a
    list of filesystems in the configuration, [InitFn] succeeds exactly
    when the list is not empty and every id in it is that of a plugin
    whose instance is a filesystem, and the chain then has the plugins of
    the list in the order of the list, the first having the highest
    priority.  With no list, it succeeds exactly when some plugin has an
    instance that is a filesystem, and the chain then has every such
    plugin once; a plugin whose instance failed or has another API is
    left out without an error. *)
Theorem InitFn_fsChain_spec (ps : gmap string PluginInstance) :
  (∀ configured chain,
     InitFn_fsChain (Some ps) (Some configured) = Ok chain ↔
     configured ≠ []
     ∧ Forall2 (λ id f, ps !! id = Some (InstanceFileSystem f)) configured chain)
  ∧ (is_ok (InitFn_fsChain (Some ps) None) = true ↔
     ∃ id f, ps !! id = Some (InstanceFileSystem f))
  ∧ (∀ chain,
       InitFn_fsChain (Some ps) None = Ok chain →
       ∃ ids,
         NoDup ids
         ∧ (∀ id, id ∈ ids ↔ ∃ f, ps !! id = Some (InstanceFileSystem f))
         ∧ Forall2 (λ id f, ps !! id = Some (InstanceFileSystem f)) ids chain).
Proof.
  pose proof (InitFn_register_fold (map_to_list ps) (NoDup_fst_map_to_list ps))
    as (Hmap & Hnodup & Hnames).
  unfold InitFn_fsChain.
  set (acc := foldl _ _ (map_to_list ps)) in *.
  assert (∀ id f, acc.1 !! id = Some f ↔ ps !! id = Some (InstanceFileSystem f))
    as Hmap'.
  { intros id f. by rewrite Hmap, elem_of_map_to_list. }
  assert (∀ id, id ∈ acc.2 ↔ ∃ f, ps !! id = Some (InstanceFileSystem f))
    as Hnames'.
  { intros id. rewrite Hnames. by setoid_rewrite elem_of_map_to_list. }
  assert (∀ ids chain,
            InitFn_chain acc.1 ids [] = Ok chain ↔
            Forall2 (λ id f, ps !! id = Some (InstanceFileSystem f)) ids chain)
    as Hchain.
  { intros ids chain. rewrite InitFn_chain_spec. cbn. split.
    - intros (fs & -> & Hall). eapply Forall2_impl; [exact Hall|].
      intros id f. apply Hmap'.
    - intros Hall. exists chain. split; [done|].
      eapply Forall2_impl; [exact Hall|]. intros id f. apply Hmap'. }
  split; [|split].
  - intros configured chain. cbn. destruct configured as [|id ids].
    + split; [done|]. by intros [? _].
    + rewrite Hchain. split; [done|]. by intros [_ ?].
  - cbn. destruct (acc.2) as [|id ids] eqn:Hacc.
    + split; [done|]. intros (id & f & Hf).
      assert (id ∈ @nil string) as Hin by (apply Hnames'; eauto).
      by apply elem_of_nil in Hin.
    + assert (id ∈ id :: ids) as Hin by (apply elem_of_cons; auto).
      apply Hnames' in Hin as [f Hf]. split; [by eauto|]. intros _.
      assert (Forall (λ id, is_Some (acc.1 !! id)) (id :: ids)) as Hall.
      { apply Forall_forall. intros id' Hin'.
        apply Hnames' in Hin' as [f' Hf']. exists f'. by apply Hmap'. }
      clear -Hall. revert Hall. generalize (id :: ids). generalize (@nil FileSystem).
      intros acc0 l. revert acc0. induction l as [|x l IH]; intros acc0 Hall.
      * done.
      * apply Forall_cons in Hall as [[f Hf] Hall]. cbn. rewrite Hf. by apply IH.
  - intros chain. cbn. destruct (acc.2) as [|id ids] eqn:Hacc; [done|].
    rewrite Hchain. intros Hall. exists (id :: ids). done.
Qed.

End plugin_facts.

(** ** The life of a snapshot *)

Module lifecycle_facts.
Import storage storage_spec storage_facts mount snapshot snapshot_spec
  snapshot_facts lifecycle_spec.

(** *** Ids *)

Lemma ParseUint_FormatInt n :
  0 ≤ n → strconv.ParseUint (strconv.FormatInt n) = Some n.
Proof.
  intros Hn. unfold strconv.FormatInt.
  rewrite (proj2 (Z.ltb_ge n 0)) by lia.
  apply strconv_facts.ParseUint_digits. by apply strconv_facts.log2_fuel.
Qed.

Lemma FormatInt_inj n m :
  0 ≤ n → 0 ≤ m → strconv.FormatInt n = strconv.FormatInt m → n = m.
Proof.
  intros Hn Hm Heq.
  pose proof (ParseUint_FormatInt n Hn) as H1.
  rewrite Heq, (ParseUint_FormatInt m Hm) in H1. congruence.
Qed.

Lemma ids_unique_empty : ids_unique empty.
Proof. intros k1 k2 b1 b2 H. cbn in H. by rewrite lookup_empty in H. Qed.

Lemma CreateSnapshot_unique ms kind key parent opts s ms' :
  wf_store ms → ids_unique ms →
  CreateSnapshot ms kind key parent opts = Ok (s, ms') →
  ids_unique ms'.
Proof.
  intros [_ Hwf] Huniq H.
  destruct (CreateSnapshot_inv _ _ _ _ _ _ _ H)
    as (base & _ & _ & _ & Hfresh & _ & -> & _).
  intros k1 k2 b1 b2 H1 H2 Hid. cbn in H1, H2.
  destruct (decide (key = k1)) as [<-|Hne1];
    destruct (decide (key = k2)) as [<-|Hne2]; [done|..].
  - rewrite lookup_insert_eq in H1. rewrite lookup_insert_ne in H2 by done.
    injection H1 as <-. cbn in Hid. destruct (Hwf _ _ H2) as [? _]. lia.
  - rewrite lookup_insert_eq in H2. rewrite lookup_insert_ne in H1 by done.
    injection H2 as <-. cbn in Hid. destruct (Hwf _ _ H1) as [? _]. lia.
  - rewrite lookup_insert_ne in H1, H2 by done. by eapply Huniq.
Qed.

Lemma CommitActive_unique ms key name usage opts id ms' :
  ids_unique ms →
  CommitActive ms key name usage opts = Ok (id, ms') →
  ids_unique ms'.
Proof.
  intros Huniq H.
  destruct (CommitActive_inv _ _ _ _ _ _ _ H)
    as (base & sb & _ & _ & Hname & Hkey & _ & _ & ->).
  assert (∀ k b, <[name := mkBucket (b_id sb) KindCommitted (b_parent sb)
                             (Info_Labels base) usage]>
                   (delete key (buckets ms)) !! k = Some b →
            (k = name ∧ b_id b = b_id sb)
            ∨ (k ≠ name ∧ k ≠ key ∧ buckets ms !! k = Some b)) as Hcases.
  { intros k b Hk. destruct (decide (name = k)) as [<-|Hne].
    - rewrite lookup_insert_eq in Hk. injection Hk as <-. by left.
    - rewrite lookup_insert_ne in Hk by done.
      apply lookup_delete_Some in Hk as [? ?]. right. done. }
  intros k1 k2 b1 b2 H1 H2 Hid. cbn in H1, H2.
  destruct (Hcases _ _ H1) as [[-> Hb1]|(Hn1 & Hk1 & Hb1)];
    destruct (Hcases _ _ H2) as [[-> Hb2]|(Hn2 & Hk2 & Hb2)]; [done|..].
  - exfalso. apply Hk2. apply (Huniq _ _ _ _ Hb2 Hkey). congruence.
  - exfalso. apply Hk1. apply (Huniq _ _ _ _ Hb1 Hkey). congruence.
  - by eapply Huniq.
Qed.

(** What a successful [storage.Remove] did to the store. *)
Lemma Remove_inv ms key id kind ms' :
  storage.Remove ms key = Ok (id, kind, ms') →
  ∃ b, buckets ms !! key = Some b
       ∧ id = strconv.FormatInt (b_id b)
       ∧ kind = b_kind b
       ∧ (∀ k cb, buckets ms !! k = Some cb → b_parent cb ≠ key)
       ∧ ms' = mkMetaStore (delete key (buckets ms)) (sequence ms).
Proof.
  unfold storage.Remove. intros H.
  destruct (buckets ms !! key) as [b|]; [|done].
  destruct (bool_decide _) eqn:Hchild; [done|].
  apply bool_decide_eq_false in Hchild.
  injection H as <- <- <-. exists b. repeat split; try done.
  intros k cb Hk Hp. apply Hchild. by exists k, cb.
Qed.

Lemma Remove_wf ms key id kind ms' :
  wf_store ms → storage.Remove ms key = Ok (id, kind, ms') → wf_store ms'.
Proof.
  intros [Hseq Hwf] H.
  destruct (Remove_inv _ _ _ _ _ H) as (b & Hb & _ & _ & Hnochild & ->).
  split; [done|]. intros k cb Hk. cbn in Hk |- *.
  apply lookup_delete_Some in Hk as [Hne Hk].
  destruct (Hwf _ _ Hk) as [Hid Hp]. split; [done|].
  intros Hpar. destruct (Hp Hpar) as (pb & Hpb & Hc & Hlt).
  exists pb. split; [|done]. rewrite lookup_delete_ne; [done|].
  intros Heq. by apply (Hnochild _ _ Hk).
Qed.

Lemma Remove_unique ms key id kind ms' :
  ids_unique ms → storage.Remove ms key = Ok (id, kind, ms') → ids_unique ms'.
Proof.
  intros Huniq H.
  destruct (Remove_inv _ _ _ _ _ H) as (b & _ & _ & _ & _ & ->).
  intros k1 k2 b1 b2 H1 H2. cbn in H1, H2.
  apply lookup_delete_Some in H1 as [_ H1].
  apply lookup_delete_Some in H2 as [_ H2]. by eapply Huniq.
Qed.

(** *** Parents *)

Lemma CreateSnapshot_parents ms kind key parent opts s ms' :
  CreateSnapshot ms kind key parent opts = Ok (s, ms') →
  parent ≠ EmptyString →
  ∃ pb, buckets ms !! parent = Some pb
        ∧ b_kind pb = KindCommitted
        ∧ parents ms' pb = Ok (Snapshot_ParentIDs s).
Proof.
  unfold CreateSnapshot. intros H Hp.
  assert (kind = KindActive ∨ kind = KindView) as Hkind.
  { destruct kind; try discriminate; auto. }
  destruct (apply_opts opts Info_zero) as [base|] eqn:Hbase.
  2: { destruct kind; discriminate. }
  destruct (decide (parent = EmptyString)); [done|].
  destruct (buckets ms !! parent) as [pb|] eqn:Hpb.
  2: { destruct kind; discriminate. }
  destruct (decide (b_kind pb = KindCommitted)).
  2: { destruct kind; discriminate. }
  destruct (decide (key = EmptyString)).
  { destruct kind; discriminate. }
  destruct (buckets ms !! key) eqn:Hkey.
  { destruct kind; discriminate. }
  match type of H with
  | context [parents ?m ?b] => destruct (parents m b) as [ids|] eqn:Hids
  end.
  2: { destruct kind; discriminate. }
  exists pb. split; [done|]. split; [done|].
  destruct Hkind as [-> | ->]; injection H as <- <-; exact Hids.
Qed.

Lemma parentsN_head fuel ms :
  ∀ b ids, parentsN fuel ms b = Some (Ok ids) →
    ∃ rest, ids = strconv.FormatInt (b_id b) :: rest
            ∧ (rest = [] ↔ b_parent b = EmptyString).
Proof.
  induction fuel as [|fuel IH]; intros b ids H; [done|].
  rewrite parentsN_S in H.
  destruct (decide (b_parent b = EmptyString)) as [Hp|Hp].
  - injection H as <-. by exists [].
  - destruct (buckets ms !! b_parent b) as [pb|]; [|done].
    destruct (parentsN fuel ms pb) as [[l|]|] eqn:Hl; try done.
    injection H as <-. exists l. split; [done|].
    destruct (IH _ _ Hl) as (rest & -> & _). done.
Qed.

Lemma parents_head ms b ids :
  parents ms b = Ok ids →
  ∃ rest, ids = strconv.FormatInt (b_id b) :: rest
          ∧ (rest = [] ↔ b_parent b = EmptyString).
Proof.
  unfold parents.
  destruct (parentsN (chain_fuel ms) ms b) as [[l|]|] eqn:Hl; try done.
  intros [= <-]. by eapply parentsN_head.
Qed.

Section Snapshotter.
Variable o : snapshotter.

Lemma createSnapshot_unique ms kind key parent opts r ms' :
  wf_store ms → ids_unique ms →
  createSnapshot o ms kind key parent opts = (r, ms') →
  ids_unique ms'.
Proof.
  unfold createSnapshot. intros Hwf Huniq H.
  destruct (prepareDirectory o _ kind) as [td [err|]]; [by injection H as _ <-|].
  destruct (CreateSnapshot ms kind key parent opts) as [[s ms1]|] eqn:Hc;
    [|by injection H as _ <-].
  pose proof (CreateSnapshot_unique _ _ _ _ _ _ _ Hwf Huniq Hc).
  destruct (match Snapshot_ParentIDs s with [] => _ | _ => _ end);
    [by injection H as _ <-|].
  destruct (Rename _ _ _); [by injection H as _ <-|].
  destruct (mounts o ms1 s parent); by injection H as _ <-.
Qed.

Lemma Commit_unique ms name key opts r ms' :
  ids_unique ms →
  Commit o ms name key opts = (r, ms') →
  ids_unique ms'.
Proof.
  unfold Commit. intros Huniq H.
  destruct (GetInfo ms key) as [[[id info] usage]|]; [|by injection H as _ <-].
  destruct (match Info_Labels info !! targetSnapshotLabel with
            | Some _ => _ | None => _ end) as [u|]; [|by injection H as _ <-].
  destruct (CommitActive ms key name u opts) as [[cid ms1]|] eqn:Hc;
    injection H as _ <-; [|done].
  by eapply CommitActive_unique.
Qed.

Lemma Prepare_unique ms key parent opts r ms' :
  wf_store ms → ids_unique ms →
  Prepare o ms key parent opts = (r, ms') →
  ids_unique ms'.
Proof.
  unfold Prepare. intros Hwf Huniq H.
  destruct (createSnapshot o ms KindActive key parent opts) as [[m|err] ms1] eqn:Hc;
    pose proof (createSnapshot_unique _ _ _ _ _ _ _ Hwf Huniq Hc);
    [|by injection H as _ <-].
  destruct (apply_opts opts Info_zero) as [base|]; [|by injection H as _ <-].
  destruct (Info_Labels base !! targetSnapshotLabel) as [target|];
    [|by injection H as _ <-].
  destruct (prepareRemoteSnapshot o ms1 key (Info_Labels base)) as [fsid|];
    [|by injection H as _ <-].
  destruct (Commit o ms1 target key _) as [[err|] ms2] eqn:HC;
    pose proof (Commit_unique _ _ _ _ _ _ H0 HC); by injection H as _ <-.
Qed.

(** *** Availability, one layer at a time *)

Lemma checkAvailability_step ms key id info usage :
  wf_store ms →
  GetInfo ms key = Ok (id, info, usage) →
  checkAvailability o ms key
  = (if decide (Info_Parent info = EmptyString) then true
     else checkAvailability o ms (Info_Parent info))
    && checkLayer o id info.
Proof.
  intros Hwf Hget.
  pose proof (checkAvailability_fuel o ms key Hwf (S (chain_fuel ms))) as H.
  rewrite checkAvailabilityN_S, Hget in H.
  destruct (decide (Info_Parent info = EmptyString)).
  - specialize (H ltac:(lia)). by injection H as <-.
  - rewrite (checkAvailability_fuel o ms (Info_Parent info) Hwf (chain_fuel ms))
      in H by done.
    specialize (H ltac:(lia)).
    destruct (checkAvailability o ms (Info_Parent info)); by injection H as <-.
Qed.

(** The availability of a committed snapshot depends on the committed
    snapshots only. *)
Lemma checkAvailabilityN_committed ms ms' :
  wf_store ms →
  (∀ k b, buckets ms !! k = Some b → b_kind b = KindCommitted →
     buckets ms' !! k = Some b) →
  ∀ fuel key b, buckets ms !! key = Some b → b_kind b = KindCommitted →
    checkAvailabilityN o fuel ms' key = checkAvailabilityN o fuel ms key.
Proof.
  intros [_ Hwf] Hkeep. induction fuel as [|fuel IH]; intros key b Hb Hc; [done|].
  rewrite !checkAvailabilityN_S. unfold GetInfo.
  rewrite (Hkeep _ _ Hb Hc), Hb. cbn.
  destruct (decide (b_parent b = EmptyString)) as [|Hp]; [done|].
  destruct (Hwf _ _ Hb) as [_ Hpar].
  destruct (Hpar Hp) as (pb & Hpb & Hpc & _).
  by rewrite (IH _ _ Hpb Hpc).
Qed.

Lemma checkAvailability_committed ms ms' key b :
  wf_store ms → wf_store ms' →
  (∀ k b, buckets ms !! k = Some b → b_kind b = KindCommitted →
     buckets ms' !! k = Some b) →
  buckets ms !! key = Some b → b_kind b = KindCommitted →
  checkAvailability o ms' key = checkAvailability o ms key.
Proof.
  intros Hwf Hwf' Hkeep Hb Hc.
  pose proof (checkAvailability_fuel o ms key Hwf
                (chain_fuel ms `max` chain_fuel ms')%nat ltac:(lia)) as H.
  pose proof (checkAvailability_fuel o ms' key Hwf'
                (chain_fuel ms `max` chain_fuel ms')%nat ltac:(lia)) as H'.
  rewrite (checkAvailabilityN_committed ms ms' Hwf Hkeep _ _ _ Hb Hc) in H'.
  congruence.
Qed.

(** *** View *)

(** X4.  The mounts that [View] returns cannot be written through.  A
    view without a parent is a read-only bind of its own (empty) [fs]
    directory; a view of a layer that has no parent is a read-only bind
    of that layer's [fs] directory, the directory made for the view not
    being mounted; a view of a longer chain is an overlay with lower
    directories only.  The snapshot is recorded with the kind View. *)
Theorem View_read_only ms key parent opts m ms' :
  View o ms key parent opts = (Ok m, ms') →
  let id := strconv.FormatInt (sequence ms + 1) in
  Forall read_only m
  ∧ (∃ labels, Stat ms' key = Ok (mkInfo KindView key parent labels))
  ∧ (parent = EmptyString →
     m = [mkMount "bind" (upperPath o id) ["ro"; "rbind"]])
  ∧ (∀ pb, parent ≠ EmptyString → buckets ms !! parent = Some pb →
       let pid := strconv.FormatInt (b_id pb) in
       (b_parent pb = EmptyString →
        m = [mkMount "bind" (upperPath o pid) ["ro"; "rbind"]])
       ∧ (b_parent pb ≠ EmptyString →
          ∃ rest, rest ≠ []
            ∧ m = [mkMount "overlay" "overlay"
                     ["lowerdir=" +:+
                        strings_Join (upperPath o <$> pid :: rest) ":"]])).
Proof.
  intros H id. unfold View in H.
  destruct (createSnapshot_ok _ _ _ _ _ _ _ _ H) as (s & Hc & Hm).
  destruct (CreateSnapshot_inv _ _ _ _ _ _ _ Hc)
    as (base & _ & _ & _ & _ & _ & Hms & Hkind & Hid & Hnopar).
  assert (Snapshot_ParentIDs s = [] ∧ parent = EmptyString
          ∨ ∃ pb rest,
              parent ≠ EmptyString ∧ buckets ms !! parent = Some pb
              ∧ Snapshot_ParentIDs s = strconv.FormatInt (b_id pb) :: rest
              ∧ (rest = [] ↔ b_parent pb = EmptyString)) as Hparents.
  { destruct (decide (parent = EmptyString)) as [Hp|Hp]; [left; auto|right].
    destruct (CreateSnapshot_parents _ _ _ _ _ _ _ Hc Hp) as (pb & Hpb & _ & Hids).
    destruct (parents_head _ _ _ Hids) as (rest & Hrest & Hiff).
    exists pb, rest. done. }
  unfold mounts in Hm. destruct (_ && _); [done|].
  rewrite Hkind, Hid in Hm. fold id in Hm.
  split; [|split; [|split]].
  - destruct Hparents as [[Hnil _]|(pb & rest & _ & _ & Hids & _)].
    + rewrite Hnil in Hm. cbn in Hm. injection Hm as <-.
      constructor; [|constructor]. by left.
    + rewrite Hids in Hm. cbn in Hm. destruct rest; injection Hm as <-;
        (constructor; [|constructor]); [by left|right].
      split; [done|]. eauto.
  - exists (Info_Labels base). rewrite Hms. unfold Stat, GetInfo. cbn.
    by rewrite lookup_insert_eq.
  - intros Hp. rewrite (Hnopar Hp) in Hm. cbn in Hm. by injection Hm as <-.
  - intros pb Hp Hpb pid.
    destruct Hparents as [[_ ?]|(pb' & rest & _ & Hpb' & Hids & Hiff)]; [done|].
    rewrite Hpb in Hpb'. injection Hpb' as <-. fold pid in Hids.
    rewrite Hids in Hm. cbn in Hm. split.
    + intros Hroot. apply Hiff in Hroot as ->. by injection Hm as <-.
    + intros Hdeep. exists rest. split; [by rewrite Hiff|].
      destruct rest as [|p1 rest]; [by destruct Hdeep; apply Hiff|].
      by injection Hm as <-.
Qed.

(** *** Prepare and Commit *)

Lemma createSnapshot_quiet ms kind key parent opts :
  os_quiet o →
  createSnapshot o ms kind key parent opts =
  match CreateSnapshot ms kind key parent opts with
  | Err err => (Err (ErrWrap err "failed to create snapshot"), ms)
  | Ok (s, ms') =>
      match mounts o ms' s parent with
      | Err err => (Err err, ms')
      | Ok m => (Ok m, ms')
      end
  end.
Proof.
  intros (Htd & Hmkdir & Hstat & Hchown & Hrename & Hremove).
  unfold createSnapshot, prepareDirectory.
  specialize (Htd (filepath_Join [root o; "snapshots"]) "new-").
  destruct (TempDir _ _ _) as [td|]; [|done].
  rewrite !Hmkdir.
  assert ((if decide (kind = KindActive) then (td, @None error) else (td, None))
          = (td, None)) as -> by (by destruct (decide _)).
  destruct (CreateSnapshot ms kind key parent opts) as [[s ms']|]; [|done].
  assert (match Snapshot_ParentIDs s with
          | [] => None
          | p0 :: _ =>
              match Stat_owner (os o) (upperPath o p0) with
              | Ok (uid, gid) =>
                  match Lchown (os o) (filepath_Join [td; "fs"]) uid gid with
                  | Some err => Some (ErrWrap err "failed to chown")
                  | None => None
                  end
              | Err err => Some (ErrWrap err "failed to stat parent")
              end
          end = None) as ->.
  { destruct (Snapshot_ParentIDs s) as [|p0 ?]; [done|].
    specialize (Hstat (upperPath o p0)).
    destruct (Stat_owner _ _) as [[uid gid]|]; [|done]. by rewrite Hchown. }
  rewrite Hrename. unfold reclaim, cleanupSnapshotDirectory. rewrite Hremove.
  done.
Qed.

(** X6.  [createSnapshot] commits the record of the snapshot before it
    asks for the mounts.  So a [Prepare] on top of a layer that is not
    available fails with the Unavailable error and yet leaves the new
    active snapshot in the store: its key stays taken, and preparing it
    again fails with the already-exists error. *)
Theorem Prepare_on_unavailable_parent ms key parent opts s ms1 :
  os_quiet o → wf_store ms → parent ≠ EmptyString →
  CreateSnapshot ms KindActive key parent opts = Ok (s, ms1) →
  checkAvailability o ms parent = false →
  ∃ err,
    Prepare o ms key parent opts = (Err err, ms1)
    ∧ IsUnavailable err = true
    ∧ (∃ labels, Stat ms1 key = Ok (mkInfo KindActive key parent labels))
    ∧ ∃ err', Prepare o ms1 key parent opts = (Err err', ms1)
              ∧ IsAlreadyExists err' = true.
Proof.
  intros Hquiet Hwf Hp Hc Hdown.
  pose proof (CreateSnapshot_wf _ _ _ _ _ _ _ Hwf Hc) as Hwf1.
  destruct (CreateSnapshot_inv _ _ _ _ _ _ _ Hc)
    as (base & Hbase & _ & Hkey & Hfresh & Hpar & Hms & _).
  destruct (Hpar Hp) as (pb & Hpb & Hpc).
  assert (∀ k b, buckets ms !! k = Some b → buckets ms1 !! k = Some b) as Hkeep.
  { intros k b Hk. rewrite Hms. cbn. rewrite lookup_insert_ne; [done|].
    intros <-. congruence. }
  assert (checkAvailability o ms1 parent = false) as Hdown1.
  { rewrite <- Hdown. eapply checkAvailability_committed; eauto. }
  exists (ErrWrap ErrUnavailable
            ("layer " +:+ quote (Snapshot_ID s) +:+ " unavailable")).
  split; [|split; [done|split]].
  - unfold Prepare. rewrite (createSnapshot_quiet _ _ _ _ _ Hquiet), Hc.
    unfold mounts. rewrite Hdown1, bool_decide_eq_false_2 by done. done.
  - exists (Info_Labels base). rewrite Hms. unfold Stat, GetInfo. cbn.
    by rewrite lookup_insert_eq.
  - eexists. unfold Prepare. rewrite (createSnapshot_quiet _ _ _ _ _ Hquiet).
    unfold CreateSnapshot. rewrite Hbase.
    destruct (decide (parent = EmptyString)); [done|].
    rewrite (Hkeep _ _ Hpb). destruct (decide (b_kind pb = KindCommitted)); [|done].
    destruct (decide (key = EmptyString)); [done|].
    assert (is_Some (buckets ms1 !! key)) as [b ->].
    { rewrite Hms. cbn. rewrite lookup_insert_eq. eauto. }
    done.
Qed.

(** X7.  After a successful [Commit], [Usage] of the committed name is
    what [Commit] stored: nothing, without a scan of the directory, when
    the active snapshot carried the target label of a remote snapshot,
    and the result of the scan of its [fs] directory otherwise. *)
Theorem Commit_usage ms name key opts ms' id info usage0 :
  GetInfo ms key = Ok (id, info, usage0) →
  Commit o ms name key opts = (None, ms') →
  ∃ usage,
    Usage o ms' name = Ok usage
    ∧ (is_Some (Info_Labels info !! targetSnapshotLabel) → usage = Usage_zero)
    ∧ (Info_Labels info !! targetSnapshotLabel = None →
       DiskUsage (os o) (upperPath o id) = Ok usage).
Proof.
  intros Hget H. unfold Commit in H. rewrite Hget in H.
  destruct (match Info_Labels info !! targetSnapshotLabel with
            | Some _ => Ok Usage_zero
            | None => DiskUsage (os o) (upperPath o id)
            end) as [usage|] eqn:Hu; [|done].
  destruct (CommitActive ms key name usage opts) as [[cid ms1]|] eqn:HCA;
    [|done].
  injection H as <-. exists usage.
  destruct (CommitActive_inv _ _ _ _ _ _ _ HCA)
    as (base & sb & _ & _ & _ & _ & _ & _ & ->).
  split; [|split].
  - unfold Usage, GetInfo. cbn. by rewrite lookup_insert_eq.
  - intros [t Ht]. rewrite Ht in Hu. by injection Hu as <-.
  - intros Hnone. by rewrite Hnone in Hu.
Qed.

Lemma mountFirst_inv chain mountpoint labels :
  ∀ k fsid, mountFirst chain k mountpoint labels = Some fsid →
    ∃ (i : nat) f,
      fsid = k + Z.of_nat i ∧ chain !! i = Some f
      ∧ Mount f mountpoint labels = None
      ∧ ∀ (j : nat) g, (j < i)%nat → chain !! j = Some g →
          Mount g mountpoint labels ≠ None.
Proof.
  induction chain as [|g chain IH]; intros k fsid H; [done|].
  cbn in H. destruct (Mount g mountpoint labels) eqn:Hg.
  - destruct (IH _ _ H) as (i & f & -> & Hi & Hm & Hbefore).
    exists (S i), f. split; [lia|]. split; [done|]. split; [done|].
    intros [|j] g' Hj Hg'.
    + injection Hg' as <-. by rewrite Hg.
    + apply (Hbefore j g'); [lia|done].
  - injection H as <-. exists 0%nat, g. split; [lia|]. split; [done|].
    split; [done|]. intros j g' Hj. lia.
Qed.

Lemma prepareRemoteSnapshot_inv ms key labels fsid :
  prepareRemoteSnapshot o ms key labels = Ok fsid →
  ∃ id info usage (i : nat) f,
    GetInfo ms key = Ok (id, info, usage)
    ∧ fsid = Z.of_nat i
    ∧ fsChain o !! i = Some f
    ∧ Mount f (upperPath o id) labels = None
    ∧ ∀ (j : nat) g, (j < i)%nat → fsChain o !! j = Some g →
        Mount g (upperPath o id) labels ≠ None.
Proof.
  unfold prepareRemoteSnapshot. intros H.
  destruct (GetInfo ms key) as [[[id info] usage]|]; [|done].
  destruct (mountFirst _ _ _ _) as [z|] eqn:Hz; [|done].
  injection H as <-.
  destruct (mountFirst_inv _ _ _ _ _ Hz) as (i & f & -> & Hi & Hm & Hb).
  exists id, info, usage, i, f. done.
Qed.

(** X8.  [prepareRemoteSnapshot] answers with the index of the first
    plugin of the chain whose [Mount] on the snapshot's [fs] directory
    returns nil, the plugins before it having been tried and having
    failed; it fails when the key is unknown or when no plugin mounts
    the layer.  An index it returns is within the chain. *)
Theorem prepareRemoteSnapshot_first ms key labels fsid :
  prepareRemoteSnapshot o ms key labels = Ok fsid ↔
  ∃ id info usage (i : nat) f,
    GetInfo ms key = Ok (id, info, usage)
    ∧ fsid = Z.of_nat i
    ∧ (i < length (fsChain o))%nat
    ∧ fsChain o !! i = Some f
    ∧ Mount f (upperPath o id) labels = None
    ∧ ∀ (j : nat) g, (j < i)%nat → fsChain o !! j = Some g →
        Mount g (upperPath o id) labels ≠ None.
Proof.
  split.
  - intros H.
    destruct (prepareRemoteSnapshot_inv _ _ _ _ H)
      as (id & info & usage & i & f & Hget & -> & Hi & Hm & Hb).
    exists id, info, usage, i, f. repeat split; try done.
    by eapply lookup_lt_Some.
  - intros (id & info & usage & i & f & Hget & -> & _ & Hi & Hm & Hb).
    unfold prepareRemoteSnapshot. rewrite Hget.
    by rewrite (mountFirst_first _ _ _ i f 0 Hi Hm Hb).
Qed.

Section Removal.
Variable Readdirnames : string → result (list string).

Lemma Remove_store ms key r ms' removed :
  Remove o Readdirnames ms key = (r, ms', removed) →
  ms' = ms
  ∨ ∃ id kind, storage.Remove ms key = Ok (id, kind, ms') ∧ r = None.
Proof.
  unfold Remove. intros H.
  destruct (storage.Remove ms key) as [[[id kind] ms1]|] eqn:HR;
    [|injection H as _ <- _; by left].
  destruct (negb (asyncRemove o)).
  - destruct (getCleanupDirectories o Readdirnames ms1).
    + injection H as <- <- _. right. eauto.
    + injection H as _ <- _. by left.
  - injection H as <- <- _. right. eauto.
Qed.

Lemma createSnapshot_frame ms kind key parent opts r ms' :
  createSnapshot o ms kind key parent opts = (r, ms') →
  ∀ k, k ≠ key → buckets ms' !! k = buckets ms !! k.
Proof.
  unfold createSnapshot. intros H k Hk.
  destruct (prepareDirectory o _ kind) as [td [err|]]; [by injection H as _ <-|].
  destruct (CreateSnapshot ms kind key parent opts) as [[s ms1]|] eqn:Hc;
    [|by injection H as _ <-].
  destruct (CreateSnapshot_inv _ _ _ _ _ _ _ Hc)
    as (base & _ & _ & _ & _ & _ & Hms1 & _).
  assert (buckets ms1 !! k = buckets ms !! k) as Hsame.
  { rewrite Hms1. cbn. by rewrite lookup_insert_ne. }
  destruct (match Snapshot_ParentIDs s with [] => _ | _ => _ end);
    [by injection H as _ <-|].
  destruct (Rename _ _ _); [by injection H as _ <-|].
  destruct (mounts o ms1 s parent); by injection H as _ <-.
Qed.

Lemma Commit_frame ms name key opts r ms' :
  Commit o ms name key opts = (r, ms') →
  ∀ k, k ≠ key → k ≠ name → buckets ms' !! k = buckets ms !! k.
Proof.
  unfold Commit. intros H k Hk Hn.
  destruct (GetInfo ms key) as [[[id info] usage]|]; [|by injection H as _ <-].
  destruct (match Info_Labels info !! targetSnapshotLabel with
            | Some _ => _ | None => _ end) as [u|]; [|by injection H as _ <-].
  destruct (CommitActive ms key name u opts) as [[cid ms1]|] eqn:Hc;
    injection H as _ <-; [|done].
  destruct (CommitActive_inv _ _ _ _ _ _ _ Hc)
    as (base & sb & _ & _ & _ & _ & _ & _ & ->).
  cbn. rewrite lookup_insert_ne by done. by rewrite lookup_delete_ne.
Qed.

(** X27.  The operations that write to the store touch the snapshots
    they are asked about and no other: [View] and [Remove] leave every
    key but theirs as it was, [Commit] every key but the active key and
    the committed name, and [Prepare] every key but its own and the
    target named by the label of a remote snapshot. *)
Theorem operations_frame ms (k : string) :
  (∀ key parent opts r ms',
     Prepare o ms key parent opts = (r, ms') → k ≠ key →
     (∀ base, apply_opts opts Info_zero = Ok base →
        Info_Labels base !! targetSnapshotLabel ≠ Some k) →
     buckets ms' !! k = buckets ms !! k)
  ∧ (∀ key parent opts r ms',
       View o ms key parent opts = (r, ms') → k ≠ key →
       buckets ms' !! k = buckets ms !! k)
  ∧ (∀ name key opts r ms',
       Commit o ms name key opts = (r, ms') → k ≠ key → k ≠ name →
       buckets ms' !! k = buckets ms !! k)
  ∧ (∀ key r ms' removed,
       Remove o Readdirnames ms key = (r, ms', removed) → k ≠ key →
       buckets ms' !! k = buckets ms !! k).
Proof.
  split; [|split; [|split]].
  - intros key parent opts r ms' H Hk Htarget. unfold Prepare in H.
    destruct (createSnapshot o ms KindActive key parent opts)
      as [[m|err] ms1] eqn:Hc;
      pose proof (createSnapshot_frame _ _ _ _ _ _ _ Hc k Hk) as H1;
      [|by injection H as _ <-].
    destruct (apply_opts opts Info_zero) as [base|] eqn:Hbase;
      [|by injection H as _ <-].
    destruct (Info_Labels base !! targetSnapshotLabel) as [target|] eqn:Ht;
      [|by injection H as _ <-].
    destruct (prepareRemoteSnapshot o ms1 key (Info_Labels base)) as [fsid|];
      [|by injection H as _ <-].
    assert (k ≠ target) as Hkt.
    { intros ->. by apply (Htarget base). }
    destruct (Commit o ms1 target key _) as [[err|] ms2] eqn:HC;
      pose proof (Commit_frame _ _ _ _ _ _ HC k Hk Hkt) as H2;
      injection H as _ <-; congruence.
  - intros key parent opts r ms' H Hk. by eapply createSnapshot_frame.
  - intros name key opts r ms' H Hk Hn. by eapply Commit_frame.
  - intros key r ms' removed H Hk.
    destruct (Remove_store _ _ _ _ _ H) as [->|(id & kind & HR & _)]; [done|].
    destruct (Remove_inv _ _ _ _ _ HR) as (b & _ & _ & _ & _ & ->).
    cbn. by rewrite lookup_delete_ne.
Qed.

(** X3.  The operations that write to the store keep it in order,
    whatever they return: the sequence bounds the ids, every parent is a
    committed snapshot older than its child, and no two snapshots have
    the same id, so that no two share a directory under [snapshots]. *)
Theorem store_invariant ms :
  wf_store ms → ids_unique ms →
  (∀ key parent opts r ms',
     Prepare o ms key parent opts = (r, ms') → wf_store ms' ∧ ids_unique ms')
  ∧ (∀ key parent opts r ms',
       View o ms key parent opts = (r, ms') → wf_store ms' ∧ ids_unique ms')
  ∧ (∀ name key opts r ms',
       Commit o ms name key opts = (r, ms') → wf_store ms' ∧ ids_unique ms')
  ∧ (∀ key r ms' removed,
       Remove o Readdirnames ms key = (r, ms', removed) →
       wf_store ms' ∧ ids_unique ms').
Proof.
  intros Hwf Huniq. split; [|split; [|split]].
  - intros key parent opts r ms' H. split.
    + by eapply Prepare_wf.
    + by eapply Prepare_unique.
  - intros key parent opts r ms' H. split.
    + by eapply createSnapshot_wf.
    + by eapply createSnapshot_unique.
  - intros name key opts r ms' H. split.
    + by eapply Commit_wf.
    + by eapply Commit_unique.
  - intros key r ms' removed H.
    destruct (Remove_store _ _ _ _ _ H) as [->|(id & kind & HR & _)]; [done|].
    split.
    + by eapply Remove_wf.
    + by eapply Remove_unique.
Qed.

(** *** Cleanup and Remove *)

Lemma IDMap_live ms d : is_Some (IDMap ms !! d) ↔ live ms d.
Proof.
  unfold IDMap, live. rewrite <- not_eq_None_Some, <- not_elem_of_list_to_map.
  rewrite <- list_fmap_compose. split.
  - intros Hin. apply dec_stable in Hin.
    apply list_elem_of_fmap in Hin as ([k b] & Hd & Hin).
    apply elem_of_map_to_list in Hin. exists k, b. done.
  - intros (k & b & Hb & <-) Hnot. apply Hnot.
    apply list_elem_of_fmap. exists (k, b). split; [done|].
    by apply elem_of_map_to_list.
Qed.

Lemma cleanup_fold (ids : gmap string string) (g : string → string) dirs :
  ∀ acc,
    foldl (λ cleanup d,
             match ids !! d with
             | Some _ => cleanup
             | None => cleanup ++ [g d]
             end) acc dirs
    = acc ++ (g <$> filter (λ d, ids !! d = None) dirs).
Proof.
  induction dirs as [|d dirs IH]; intros acc.
  - cbn. by rewrite app_nil_r.
  - rewrite filter_cons. cbn [foldl]. rewrite IH. destruct (ids !! d) eqn:Hd.
    + by rewrite decide_False.
    + rewrite decide_True by done. cbn. by rewrite <- app_assoc.
Qed.

Lemma getCleanupDirectories_Ok ms dirs :
  Readdirnames (filepath_Join [root o; "snapshots"]) = Ok dirs →
  getCleanupDirectories o Readdirnames ms
  = Ok ((λ d, filepath_Join [filepath_Join [root o; "snapshots"]; d])
          <$> filter (λ d, IDMap ms !! d = None) dirs).
Proof.
  intros Hdirs. unfold getCleanupDirectories. rewrite Hdirs.
  by rewrite cleanup_fold.
Qed.

Lemma orphans_spec ms dirs :
  let orphans := filter (λ d, IDMap ms !! d = None) dirs in
  sublist orphans dirs ∧ ∀ d, d ∈ orphans ↔ d ∈ dirs ∧ ¬ live ms d.
Proof.
  intros orphans. split; [apply sublist_filter|].
  intros d. unfold orphans. rewrite list_elem_of_filter, <- IDMap_live.
  rewrite <- not_eq_None_Some. split.
  - intros [Hnone Hin]. split; [done|]. by intros H.
  - intros [Hin Hnot]. split; [|done]. by apply dec_stable.
Qed.

(** X10.  When the directory [snapshots] can be listed, the directories
    that [getCleanupDirectories] names are those of the listed names that
    are not the id of any snapshot of the store, in the order of the
    listing; the directory of a snapshot that is in the store is never
    among them.  [Cleanup] asks for the removal of each of them and
    returns nil, also when a removal fails. *)
Theorem Cleanup_orphans ms dirs :
  let snapshotDir := filepath_Join [root o; "snapshots"] in
  Readdirnames snapshotDir = Ok dirs →
  ∃ orphans,
    sublist orphans dirs
    ∧ (∀ d, d ∈ orphans ↔ d ∈ dirs ∧ ¬ live ms d)
    ∧ getCleanupDirectories o Readdirnames ms
      = Ok ((λ d, filepath_Join [snapshotDir; d]) <$> orphans)
    ∧ Cleanup o Readdirnames ms
      = (None,
         (λ d, (filepath_Join [snapshotDir; d],
                cleanupSnapshotDirectory o (filepath_Join [snapshotDir; d])))
           <$> orphans).
Proof.
  intros snapshotDir Hdirs.
  exists (filter (λ d, IDMap ms !! d = None) dirs).
  destruct (orphans_spec ms dirs) as [Hsub Hiff].
  split; [done|]. split; [done|].
  pose proof (getCleanupDirectories_Ok ms dirs Hdirs) as Hget.
  split; [done|].
  unfold Cleanup, cleanupDirectories. rewrite Hget.
  unfold removeDirectories. by rewrite <- list_fmap_compose.
Qed.

(** X11.  A [Remove] that fails leaves the store as it was and removes
    no directory, also when the store had accepted the removal and it
    was the listing of [snapshots] that failed.  A [Remove] that succeeds
    takes the key out of the store and leaves the other snapshots as
    they were.  Without [asyncRemove] it then asks for the removal of the
    listed directories that no remaining snapshot owns: the directory of
    the removed snapshot is among them when it is listed, and the
    directory of a remaining snapshot never is.  With [asyncRemove] it
    removes nothing, the directory being left to [Cleanup]. *)
Theorem Remove_spec ms key r ms' removed :
  let snapshotDir := filepath_Join [root o; "snapshots"] in
  wf_store ms → ids_unique ms →
  Remove o Readdirnames ms key = (r, ms', removed) →
  (r ≠ None → ms' = ms ∧ removed = [])
  ∧ (r = None →
     ∃ b,
       buckets ms !! key = Some b
       ∧ buckets ms' = delete key (buckets ms)
       ∧ ¬ live ms' (strconv.FormatInt (b_id b))
       ∧ (asyncRemove o = true → removed = [])
       ∧ (asyncRemove o = false →
          ∃ dirs orphans,
            Readdirnames snapshotDir = Ok dirs
            ∧ sublist orphans dirs
            ∧ (∀ d, d ∈ orphans ↔ d ∈ dirs ∧ ¬ live ms' d)
            ∧ removed
              = (λ d, (filepath_Join [snapshotDir; d],
                       cleanupSnapshotDirectory o
                         (filepath_Join [snapshotDir; d]))) <$> orphans)).
Proof.
  intros snapshotDir [Hseq Hwf] Huniq H. unfold Remove in H.
  destruct (storage.Remove ms key) as [[[id kind] ms1]|] eqn:HR.
  2: { injection H as <- <- <-. split; [done|]. intros [=]. }
  destruct (Remove_inv _ _ _ _ _ HR) as (b & Hb & -> & -> & _ & Hms1).
  assert (¬ live ms1 (strconv.FormatInt (b_id b))) as Hdead.
  { intros (k & kb & Hk & Hid). rewrite Hms1 in Hk. cbn in Hk.
    apply lookup_delete_Some in Hk as [Hne Hk]. apply Hne.
    apply (Huniq _ _ _ _ Hb Hk).
    apply FormatInt_inj; [| |done].
    - destruct (Hwf _ _ Hb) as [? _]. lia.
    - destruct (Hwf _ _ Hk) as [? _]. lia. }
  destruct (asyncRemove o) eqn:Hasync; cbn [negb] in H.
  - injection H as <- <- <-. split; [done|]. intros _. exists b.
    split; [done|]. split; [by rewrite Hms1|]. split; [done|]. split; [done|].
    done.
  - destruct (Readdirnames snapshotDir) as [dirs|err] eqn:Hdirs.
    + rewrite (getCleanupDirectories_Ok ms1 dirs Hdirs) in H.
      injection H as <- <- <-. split; [done|]. intros _. exists b.
      split; [done|]. split; [by rewrite Hms1|]. split; [done|].
      split; [done|]. intros _.
      exists dirs, (filter (λ d, IDMap ms1 !! d = None) dirs).
      destruct (orphans_spec ms1 dirs) as [Hsub Hiff].
      split; [done|]. split; [done|]. split; [done|].
      unfold removeDirectories. by rewrite <- list_fmap_compose.
    + unfold getCleanupDirectories in H. fold snapshotDir in H.
      rewrite Hdirs in H. injection H as <- <- <-. split; [done|]. intros [=].
Qed.

End Removal.
End Snapshotter.

(** *** Later calls

    A snapshot is created by the snapshotter [o] and asked about later,
    when the plugins may answer otherwise: [o'] is the snapshotter at
    that time, with the same root directory. *)

Lemma upperPath_root (o o' : snapshotter) id :
  root o' = root o → upperPath o' id = upperPath o id.
Proof. unfold upperPath. by intros ->. Qed.

Lemma checkLayer_stamp (o : snapshotter) id info (i : nat) :
  Info_Labels info !! filesystemIDLabel = Some (strconv.FormatInt (Z.of_nat i)) →
  Z.of_nat i < 2 ^ 63 →
  checkLayer o id info
  = match fsChain o !! i with
    | Some f => succeeded (Check f (upperPath o id))
    | None => false
    end.
Proof.
  intros Hl Hi. unfold checkLayer. rewrite Hl.
  rewrite strconv_facts.ParseInt_FormatInt by lia.
  rewrite (proj2 (Z.ltb_ge _ _)) by lia. cbn [orb].
  rewrite Nat2Z.id.
  destruct (Z.of_nat (length (fsChain o)) <=? Z.of_nat i) eqn:Hlen; [|done].
  apply Z.leb_le in Hlen. rewrite (proj2 (lookup_ge_None _ _)); [done|lia].
Qed.

(** X5.  [Mounts] of a snapshot right after its creation, whenever it is
    asked: as long as the parent is available at that time (or there is
    no parent), [Mounts] returns the mounts that [createSnapshot] returned
    to [Prepare] or [View]; when the parent has become unavailable, it
    fails with the Unavailable error.  The labels given at the creation
    must not themselves name a filesystem plugin. *)
Theorem Mounts_recovers (o o' : snapshotter) ms kind key parent opts base m
    ms1 :
  wf_store ms →
  apply_opts opts Info_zero = Ok base →
  Info_Labels base !! filesystemIDLabel = None →
  createSnapshot o ms kind key parent opts = (Ok m, ms1) →
  root o' = root o →
  (parent = EmptyString ∨ checkAvailability o' ms1 parent = true →
   Mounts o' ms1 key = Ok m)
  ∧ (parent ≠ EmptyString → checkAvailability o' ms1 parent = false →
     ∃ err, Mounts o' ms1 key = Err err ∧ IsUnavailable err = true).
Proof.
  intros Hwf Hbase Hnolabel H Hroot.
  destruct (createSnapshot_ok _ _ _ _ _ _ _ _ H) as (s & Hc & Hm).
  pose proof (CreateSnapshot_wf _ _ _ _ _ _ _ Hwf Hc) as Hwf1.
  destruct (CreateSnapshot_inv _ _ _ _ _ _ _ Hc)
    as (base' & Hbase' & Hkinds & Hkey & Hfresh & _ & Hms & Hkind & Hid & Hnopar).
  rewrite Hbase in Hbase'. injection Hbase' as <-.
  assert (buckets ms1 !! key
          = Some (mkBucket (sequence ms + 1) kind parent (Info_Labels base)
                    Usage_zero)) as Hb.
  { rewrite Hms. cbn. by rewrite lookup_insert_eq. }
  assert (GetSnapshot ms1 key = Ok s) as Hget.
  { unfold GetSnapshot. rewrite Hb. cbn.
    assert (negb (bool_decide (kind = KindActive))
            && negb (bool_decide (kind = KindView)) = false) as ->.
    { destruct Hkinds as [-> | ->]; done. }
    destruct s as [sk sid sp]. cbn in Hkind, Hid, Hnopar. subst sk sid.
    destruct (decide (parent = EmptyString)) as [Hp|Hp].
    - by rewrite (Hnopar Hp).
    - destruct (CreateSnapshot_parents _ _ _ _ _ _ _ Hc Hp)
        as (pb & Hpb & _ & Hids).
      assert (buckets ms1 !! parent = Some pb) as ->.
      { rewrite Hms. cbn. rewrite lookup_insert_ne; [done|].
        intros <-. congruence. }
      cbn in Hids. by rewrite Hids. }
  assert (checkAvailability o' ms1 key
          = if decide (parent = EmptyString) then true
            else checkAvailability o' ms1 parent) as Hav.
  { rewrite (checkAvailability_step o' ms1 key
               (strconv.FormatInt (sequence ms + 1))
               (mkInfo kind key parent (Info_Labels base)) Usage_zero Hwf1).
    2: { unfold GetInfo. by rewrite Hb. }
    cbn [Info_Parent]. unfold checkLayer. cbn [Info_Labels]. rewrite Hnolabel.
    by rewrite andb_true_r. }
  assert (key ≠ EmptyString) as Hkeyne.
  { intros ->. unfold CreateSnapshot in Hc. rewrite Hbase in Hc.
    destruct (decide (parent = EmptyString));
      [|destruct (buckets ms !! parent) as [pb|];
        [destruct (decide (b_kind pb = KindCommitted))|]];
      destruct kind; discriminate. }
  assert (mounts o' ms1 s EmptyString = Ok m) as Hbody.
  { unfold mounts in Hm |- *. destruct (_ && _) in Hm; [done|].
    rewrite bool_decide_eq_true_2 by done. cbn [negb andb].
    unfold workPath, upperPath in *. by rewrite Hroot. }
  unfold Mounts. rewrite Hget. unfold mounts in Hbody |- *.
  rewrite bool_decide_eq_true_2 in Hbody by done. cbn [negb andb] in Hbody.
  rewrite bool_decide_eq_false_2 by done. cbn [negb andb]. rewrite Hav.
  split.
  - intros [Hp|Hp].
    + by rewrite decide_True.
    + rewrite Hp. by destruct (decide _).
  - intros Hp Hdown. rewrite decide_False, Hdown by done. cbn [negb].
    eexists. split; [done|]. done.
Qed.

(** X9.  The plugin index that [Prepare] writes into the label
    [containerd.io/snapshot/filesystem.id] of a remote snapshot is read
    back by [checkAvailability] as the same position of the chain.  When
    [Prepare] has created the snapshot and returns an error, the error is
    the already-exists one of the remote snapshot and the target carries
    the decimal index of the first plugin whose [Mount] succeeded.
    Whenever it is asked later, the target is available exactly when its
    parent (if it has one) is available at that time and the plugin at
    that index answers the [Check] of the directory that was mounted with
    nil. *)
Theorem Prepare_then_checkAvailability (o o' : snapshotter) ms key parent opts
    base target m ms1 err ms2 :
  let mountpoint := upperPath o (strconv.FormatInt (sequence ms + 1)) in
  wf_store ms →
  Z.of_nat (length (fsChain o)) ≤ 2 ^ 63 →
  apply_opts opts Info_zero = Ok base →
  Info_Labels base !! targetSnapshotLabel = Some target →
  createSnapshot o ms KindActive key parent opts = (Ok m, ms1) →
  Prepare o ms key parent opts = (Err err, ms2) →
  root o' = root o →
  ∃ (i : nat) f,
    fsChain o !! i = Some f
    ∧ Mount f mountpoint (Info_Labels base) = None
    ∧ (∀ (j : nat) g, (j < i)%nat → fsChain o !! j = Some g →
         Mount g mountpoint (Info_Labels base) ≠ None)
    ∧ IsAlreadyExists err = true
    ∧ Stat ms2 target
      = Ok (mkInfo KindCommitted target parent
              (<[filesystemIDLabel := strconv.FormatInt (Z.of_nat i)]>
                 (Info_Labels base)))
    ∧ checkAvailability o' ms2 target
      = (if decide (parent = EmptyString) then true
         else checkAvailability o' ms2 parent)
        && match fsChain o' !! i with
           | Some f' => succeeded (Check f' mountpoint)
           | None => false
           end.
Proof.
  intros mountpoint Hwf Hlen Hbase Htarget Hcreate H Hroot. subst mountpoint.
  pose proof (createSnapshot_wf _ _ _ _ _ _ _ _ Hwf Hcreate) as Hwf1.
  destruct (createSnapshot_GetInfo _ _ _ _ _ _ _ _ _ Hbase Hcreate)
    as [[Hget _]|]; [|done].
  destruct (createSnapshot_ok _ _ _ _ _ _ _ _ Hcreate) as (s & Hc & Hm).
  destruct (CreateSnapshot_inv _ _ _ _ _ _ _ Hc)
    as (base0 & Hbase0 & _ & _ & Hfresh & Hpar & Hms1 & _).
  rewrite Hbase in Hbase0. injection Hbase0 as <-.
  unfold Prepare in H. rewrite Hcreate, Hbase, Htarget in H.
  destruct (prepareRemoteSnapshot o ms1 key (Info_Labels base)) as [fsid|] eqn:Hprep;
    [|done].
  destruct (prepareRemoteSnapshot_inv _ _ _ _ _ Hprep)
    as (id & info & usage & i & f & Hget' & -> & Hi & Hmount & Hbefore).
  rewrite Hget in Hget'. injection Hget' as <- <- <-.
  set (labels := <[filesystemIDLabel := strconv.FormatInt (Z.of_nat i)]>
                   (Info_Labels base)) in *.
  destruct (Commit o ms1 target key (opts ++ [WithLabels labels]))
    as [[cerr|] ms2'] eqn:HC; [done|].
  injection H as <- <-.
  pose proof (Commit_wf _ _ _ _ _ _ _ Hwf1 HC) as Hwf2.
  exists i, f. split; [done|]. split; [done|]. split; [done|]. split; [done|].
  unfold Commit in HC. rewrite Hget in HC. cbn in HC. rewrite Htarget in HC.
  match type of HC with
  | context [CommitActive ?a ?b ?c ?d ?e] =>
      destruct (CommitActive a b c d e) as [[cid ms2]|] eqn:HCA;
        [|discriminate];
      change (CommitActive ms1 key target Usage_zero
                (opts ++ [WithLabels labels]) = Ok (cid, ms2)) in HCA
  end.
  injection HC as <-.
  destruct (CommitActive_inv _ _ _ _ _ _ _ HCA)
    as (base' & sb & Hbase' & Hname & Htfresh & Hkey & Hact & _ & Hms2).
  destruct (apply_opts_WithLabels opts _ _ labels Hbase) as (info & Hinfo & Hl).
  rewrite Hinfo in Hbase'. injection Hbase' as <-.
  apply GetInfo_Ok in Hget as (b & Hb & Hbid & [= _ Hbpar _] & _).
  rewrite Hkey in Hb. injection Hb as ->.
  assert (GetInfo ms2 target
          = Ok (strconv.FormatInt (sequence ms + 1),
                mkInfo KindCommitted target parent labels, Usage_zero))
    as Hget2.
  { rewrite Hms2. unfold GetInfo. cbn. rewrite lookup_insert_eq. cbn.
    by rewrite Hl, <- Hbpar, <- Hbid. }
  split.
  - unfold Stat. by rewrite Hget2.
  - rewrite (checkAvailability_step o' ms2 target _ _ _ Hwf2 Hget2).
    cbn [Info_Parent]. f_equal.
    rewrite (checkLayer_stamp o' _ _ i).
    + by rewrite (upperPath_root o o').
    + unfold labels. cbn. by rewrite lookup_insert_eq.
    + apply lookup_lt_Some in Hi. lia.
Qed.

End lifecycle_facts.

(** *** The life of a snapshot, at work *)

Module lifecycle_examples.
Import storage storage_spec storage_facts mount snapshot snapshot_spec
  snapshot_facts snapshot_fixtures snapshot_examples lifecycle_spec
  lifecycle_facts lifecycle_fixtures.

Lemma triple_eta {A B C} (p : A * B * C) : p = (p.1.1, p.1.2, p.2).
Proof. by destruct p as [[? ?] ?]. Qed.

Lemma store1_unique : ids_unique store1.
Proof.
  eapply Prepare_unique; [apply wf_empty|apply ids_unique_empty|].
  unfold store1. apply surjective_pairing.
Qed.

Lemma store2_unique : ids_unique store2.
Proof.
  eapply Prepare_unique; [apply store1_wf|apply store1_unique|].
  unfold store2. apply surjective_pairing.
Qed.

Lemma store3_unique : ids_unique store3.
Proof.
  eapply Prepare_unique; [apply store2_wf|apply store2_unique|].
  unfold store3. apply surjective_pairing.
Qed.

Lemma sn_down_quiet : os_quiet sn_down.
Proof. repeat split; intros; reflexivity. Qed.

(** [store_invariant] at the first [Prepare]. *)
Lemma store_invariant_witness : wf_store store1 ∧ ids_unique store1.
Proof.
  exact (proj1 (store_invariant sn snapshotsDir empty wf_empty ids_unique_empty)
           "k1" "" [WithLabels (refLabels "c1")] _ _ (surjective_pairing _)).
Defined.

(** [View_read_only]: a view of the first layer binds the directory of
    that layer. *)
Lemma View_read_only_witness :
  Forall read_only
    [mkMount "bind" "/var/lib/remote/snapshots/1/fs" ["ro"; "rbind"]].
Proof.
  refine (proj1 (View_read_only sn store1 "v1" "c1" [] _
                   (View sn store1 "v1" "c1" []).2 _)).
  vm_compute. reflexivity.
Defined.

(** [Mounts_recovers] on the active snapshot [k3]: asked while the
    registry answers, and asked when the registry of the layer below is
    down. *)
Lemma Mounts_recovers_witness :
  Mounts sn store3 "k3"
  = Ok [mkMount "overlay" "overlay"
          ["workdir=/var/lib/remote/snapshots/3/work";
           "upperdir=/var/lib/remote/snapshots/3/fs";
           "lowerdir=/var/lib/remote/snapshots/2/fs:/var/lib/remote/snapshots/1/fs"]]
  ∧ ∃ err, Mounts sn_down store3 "k3" = Err err ∧ IsUnavailable err = true.
Proof.
  split.
  - apply (Mounts_recovers sn sn store2 KindActive "k3" "c2" [] Info_zero _ store3
             store2_wf).
    + reflexivity.
    + reflexivity.
    + vm_compute. reflexivity.
    + reflexivity.
    + right. vm_compute. reflexivity.
  - apply (Mounts_recovers sn sn_down store2 KindActive "k3" "c2" [] Info_zero
             [mkMount "overlay" "overlay"
                ["workdir=/var/lib/remote/snapshots/3/work";
                 "upperdir=/var/lib/remote/snapshots/3/fs";
                 "lowerdir=/var/lib/remote/snapshots/2/fs:/var/lib/remote/snapshots/1/fs"]]
             store3 store2_wf).
    + reflexivity.
    + reflexivity.
    + vm_compute. reflexivity.
    + reflexivity.
    + discriminate.
    + vm_compute. reflexivity.
Defined.

(** [Prepare_on_unavailable_parent]: the registry of the second layer is
    down when a snapshot is prepared on top of it. *)
Lemma Prepare_on_unavailable_parent_witness :
  ∃ err, (Prepare sn_down store2 "k3" "c2" []).1 = Err err
         ∧ IsUnavailable err = true.
Proof.
  destruct (Prepare_on_unavailable_parent sn_down store2 "k3" "c2" []
              (mkSnapshot KindActive "3" ["2"; "1"])
              (createSnapshot sn_down store2 KindActive "k3" "c2" []).2)
    as (err & HP & HU & _).
  - exact sn_down_quiet.
  - exact store2_wf.
  - discriminate.
  - vm_compute. reflexivity.
  - vm_compute. reflexivity.
  - exists err. rewrite HP. split; [reflexivity|exact HU].
Defined.

(** [Commit_usage]: a snapshot without the target label is scanned. *)
Lemma Commit_usage_witness :
  Usage sn (Commit sn store_a "ca" "a" []).2 "ca" = Ok (mkUsage 3 4096).
Proof.
  destruct (Commit_usage sn store_a "ca" "a" [] (Commit sn store_a "ca" "a" []).2
              "1" (mkInfo KindActive "a" "" ∅) Usage_zero)
    as (usage & HU & _ & Hscan).
  - vm_compute. reflexivity.
  - vm_compute. reflexivity.
  - rewrite HU. specialize (Hscan eq_refl). vm_compute in Hscan. congruence.
Defined.

(** [Prepare_then_checkAvailability]: the first layer, asked while its
    plugin answers, and the second layer, asked when its registry is
    down. *)
Lemma Prepare_then_checkAvailability_witness :
  checkAvailability sn store1 "c1" = true
  ∧ checkAvailability sn_down store2 "c2" = false.
Proof.
  split.
  - destruct (Prepare_then_checkAvailability sn sn empty "k1" ""
                [WithLabels (refLabels "c1")]
                (mkInfo KindUnknown "" "" (refLabels "c1")) "c1"
                [mkMount "bind" "/var/lib/remote/snapshots/1/fs" ["rw"; "rbind"]]
                (createSnapshot sn empty KindActive "k1" ""
                   [WithLabels (refLabels "c1")]).2
                (ErrWrap ErrAlreadyExists ("target snapshot " +:+ quote "c1"))
                store1 wf_empty)
      as (i & f & Hi & Hm & _ & _ & _ & Hav).
    + vm_compute. discriminate.
    + reflexivity.
    + reflexivity.
    + vm_compute. reflexivity.
    + vm_compute. reflexivity.
    + reflexivity.
    + rewrite Hav. destruct i as [|[|i]]; cbn in Hi.
      * injection Hi as <-. discriminate Hm.
      * reflexivity.
      * discriminate Hi.
  - destruct (Prepare_then_checkAvailability sn sn_down store1 "k2" "c1"
                [WithLabels (refLabels "c2")]
                (mkInfo KindUnknown "" "" (refLabels "c2")) "c2"
                [mkMount "overlay" "overlay"
                   ["workdir=/var/lib/remote/snapshots/2/work";
                    "upperdir=/var/lib/remote/snapshots/2/fs";
                    "lowerdir=/var/lib/remote/snapshots/1/fs"]]
                (createSnapshot sn store1 KindActive "k2" "c1"
                   [WithLabels (refLabels "c2")]).2
                (ErrWrap ErrAlreadyExists ("target snapshot " +:+ quote "c2"))
                store2 store1_wf)
      as (i & f & Hi & Hm & _ & _ & _ & Hav).
    + vm_compute. discriminate.
    + reflexivity.
    + reflexivity.
    + vm_compute. reflexivity.
    + vm_compute. reflexivity.
    + reflexivity.
    + rewrite Hav. destruct i as [|[|i]]; cbn in Hi.
      * injection Hi as <-. discriminate Hm.
      * reflexivity.
      * discriminate Hi.
Defined.

(** [Cleanup_orphans] on the store with two layers. *)
Lemma Cleanup_orphans_witness :
  ∃ orphans,
    sublist orphans ["1"; "2"; "3"; "new-0"]
    ∧ (Cleanup sn snapshotsDir store2).1 = None.
Proof.
  destruct (Cleanup_orphans sn snapshotsDir store2 ["1"; "2"; "3"; "new-0"] eq_refl)
    as (orphans & Hsub & _ & _ & HC).
  exists orphans. split; [exact Hsub|]. rewrite HC. reflexivity.
Defined.

Example Cleanup_store2 :
  Cleanup sn snapshotsDir store2
  = (None, [("/var/lib/remote/snapshots/3", None);
            ("/var/lib/remote/snapshots/new-0", None)]).
Proof. vm_compute. reflexivity. Qed.

(** [Remove_spec]: the active snapshot [k3] is removed, and its id is
    that of no snapshot any more. *)
Lemma Remove_spec_witness :
  ∃ b, buckets store3 !! "k3" = Some b
       ∧ ¬ live (Remove sn_sync snapshotsDir store3 "k3").1.2
             (strconv.FormatInt (b_id b)).
Proof.
  destruct (Remove_spec sn_sync snapshotsDir store3 "k3" None
              (Remove sn_sync snapshotsDir store3 "k3").1.2
              (Remove sn_sync snapshotsDir store3 "k3").2
              store3_wf store3_unique) as [_ Hdone].
  - vm_compute. reflexivity.
  - destruct (Hdone eq_refl) as (b & Hb & _ & Hdead & _).
    exists b. split; [exact Hb|exact Hdead].
Defined.

Example Remove_k3 :
  (Remove sn_sync snapshotsDir store3 "k3").2
  = [("/var/lib/remote/snapshots/3", None);
     ("/var/lib/remote/snapshots/new-0", None)].
Proof. vm_compute. reflexivity. Qed.

End lifecycle_examples.

(** ** The plugin: connections, transports and mounting *)

Module stargz_more_facts.
Import stargz stargz_spec stargz_facts stargz_more_spec.

Section Plugin.
Variable lib : Libs.

(** *** Check *)

(** X12.  [Check] changes nothing but the time of the last check of the
    mountpoint it is asked about: it adds and drops no connection, keeps
    the URL and the transport of every connection, leaves the other
    mountpoints, the transport cache and the settings alone, and hands
    at most one request to the transport. *)
Theorem Check_keeps_connections fs now mountpoint r fs' reqs :
  Check lib fs now mountpoint = (r, fs', reqs) →
  pullTransports fs' = pullTransports fs
  ∧ layerValidInterval fs' = layerValidInterval fs
  ∧ insecure fs' = insecure fs
  ∧ (∀ mp, mp ≠ mountpoint → conn fs' !! mp = conn fs !! mp)
  ∧ (conn fs !! mountpoint = None → conn fs' !! mountpoint = None)
  ∧ (∀ c, conn fs !! mountpoint = Some c →
       ∃ t, conn fs' !! mountpoint = Some (mkConnection (url c) (tr c) t)
            ∧ (t = lastCheck c ∨ t = now))
  ∧ (length reqs ≤ 1)%nat.
Proof.
  unfold Check. intros H.
  destruct (conn fs !! mountpoint) as [c|] eqn:Hc.
  2: { injection H as <- <- <-. repeat split; try done. cbn. lia. }
  destruct (time_Sub now (lastCheck c) <? layerValidInterval fs).
  { injection H as <- <- <-. repeat split; try done; [|cbn; lia].
    intros c' [= <-]. exists (lastCheck c). rewrite Hc. split; [|by left].
    by destruct c. }
  assert (∀ r0 reqs0,
            (r0, set_conn fs
                   (<[mountpoint := mkConnection (url c) (tr c) now]> (conn fs)),
             reqs0) = (r, fs', reqs) →
            (length reqs0 ≤ 1)%nat →
            pullTransports fs' = pullTransports fs
            ∧ layerValidInterval fs' = layerValidInterval fs
            ∧ insecure fs' = insecure fs
            ∧ (∀ mp, mp ≠ mountpoint → conn fs' !! mp = conn fs !! mp)
            ∧ (Some c = None → conn fs' !! mountpoint = None)
            ∧ (∀ c0, Some c = Some c0 →
                 ∃ t, conn fs' !! mountpoint
                      = Some (mkConnection (url c0) (tr c0) t)
                      ∧ (t = lastCheck c0 ∨ t = now))
            ∧ (length reqs ≤ 1)%nat) as Hdone.
  { intros r0 reqs0 [= <- <- <-] Hlen. cbn.
    split; [done|]. split; [done|]. split; [done|]. split.
    { intros mp Hne. by rewrite lookup_insert_ne. }
    split; [done|]. split; [|done].
    intros c0 [= <-]. exists now. rewrite lookup_insert_eq. auto. }
  cbn [url tr] in H.
  destruct (NewRequest lib "GET" (url c)) as [req|].
  - destruct (tr c (probe req)) as [res|].
    + destruct (_ && _); apply (Hdone _ _ H); cbn; lia.
    + apply (Hdone _ _ H); cbn; lia.
  - apply (Hdone _ _ H); cbn; lia.
Qed.

(** X13.  The time of the last check is written before the registry is
    asked, so a check that failed counts as a check: within the validity
    interval after it, [Check] of the same mountpoint answers nil without
    a request, although the registry was last seen failing. *)
Theorem Check_failure_is_forgotten fs now now' mountpoint c err fs' reqs :
  conn fs !! mountpoint = Some c →
  layerValidInterval fs ≤ time_Sub now (lastCheck c) →
  Check lib fs now mountpoint = (Some err, fs', reqs) →
  time_Sub now' now < layerValidInterval fs →
  Check lib fs' now' mountpoint = (None, fs', []).
Proof. intros. by eapply Check_failed_then_fresh. Qed.

(** X14.  [OnUnmount] drops the connection of the node's mountpoint:
    [Check] of that mountpoint then fails without a request, whatever
    the time.  The other mountpoints are not concerned: a [Check] of one
    of them answers the same, asks the same and leaves the same behind,
    before or after the unmount. *)
Theorem OnUnmount_then_Check (n : node) fs now :
  (∃ err,
     Check lib (OnUnmount n fs) now (node_root n)
     = (Some err, OnUnmount n fs, []))
  ∧ ∀ mp, mp ≠ node_root n →
      Check lib (OnUnmount n fs) now mp
      = ((Check lib fs now mp).1.1,
         OnUnmount n (Check lib fs now mp).1.2,
         (Check lib fs now mp).2).
Proof.
  split.
  - eexists. unfold Check, OnUnmount. cbn. by rewrite lookup_delete_eq.
  - intros mp Hne. unfold Check, OnUnmount. cbn.
    rewrite lookup_delete_ne by done.
    destruct (conn fs !! mp) as [c|] eqn:Hc; [|done].
    destruct (time_Sub now (lastCheck c) <? layerValidInterval fs); [done|].
    cbn [url tr].
    assert (set_conn (set_conn fs (delete (node_root n) (conn fs)))
              (<[mp := mkConnection (url c) (tr c) now]>
                 (delete (node_root n) (conn fs)))
            = set_conn
                (set_conn fs (<[mp := mkConnection (url c) (tr c) now]> (conn fs)))
                (delete (node_root n)
                   (<[mp := mkConnection (url c) (tr c) now]> (conn fs))))
      as ->.
    { unfold set_conn. cbn. f_equal. by rewrite delete_insert_ne. }
    destruct (NewRequest lib "GET" (url c)) as [req|]; [|done].
    destruct (tr c (probe req)) as [res|]; [|done].
    by destruct (_ && _).
Qed.

(** *** resolve *)

Lemma checkAndRedirect_requests u t r reqs :
  checkAndRedirect lib u t = (r, reqs) →
  (length reqs ≤ 1)%nat ∧ (is_ok r = true → length reqs = 1%nat).
Proof.
  unfold checkAndRedirect. intros H.
  destruct (NewRequest lib "GET" u) as [req|].
  2: { injection H as <- <-. cbn. split; [lia|done]. }
  destruct (t (probe req)) as [res|].
  2: { injection H as <- <-. cbn. split; [lia|done]. }
  destruct (400 <=? StatusCode res).
  { injection H as <- <-. cbn. split; [lia|done]. }
  destruct (_ && _); injection H as <- <-; cbn; split; done || lia.
Qed.

(** [resolve] writes to the transport cache only. *)
Lemma resolve_keeps_conn fs ref digest r fs' reqs :
  resolve lib fs ref digest = (r, fs', reqs) →
  conn fs' = conn fs ∧ layerValidInterval fs' = layerValidInterval fs.
Proof.
  unfold resolve. intros H.
  destruct (ParseDockerRef lib ref) as [named|];
    [|by injection H as <- <- <-].
  destruct (name_ParseReference lib _ _) as [nameref|];
    [|by injection H as <- <- <-].
  set (u0 := blobURL _ _ _ _) in H.
  destruct (pullTransports fs !! Reference_Name nameref) as [t0|].
  - destruct (checkAndRedirect lib u0 t0) as [[u1|e1] reqs0];
      [by injection H as <- <- <-|].
    destruct (refreshTransport lib nameref) as [t1|];
      [|by injection H as <- <- <-].
    destruct (checkAndRedirect lib u0 t1) as [[u2|e2] reqs1];
      by injection H as <- <- <-.
  - destruct (refreshTransport lib nameref) as [t1|];
      [|by injection H as <- <- <-].
    destruct (checkAndRedirect lib u0 t1) as [[u2|e2] reqs1];
      by injection H as <- <- <-.
Qed.

(** What a call of [resolve] leaves behind. *)
Lemma resolve_cache_inv fs ref digest r fs' reqs :
  resolve lib fs ref digest = (r, fs', reqs) →
  conn fs' = conn fs
  ∧ layerValidInterval fs' = layerValidInterval fs
  ∧ insecure fs' = insecure fs
  ∧ (length reqs ≤ 2)%nat
  ∧ (∀ err, r = Err err → fs' = fs)
  ∧ (∀ u t, r = Ok (u, t) →
       ∃ named nameref,
         ParseDockerRef lib ref = Ok named
         ∧ name_ParseReference lib
             (resolveHost named +:+ "/" +:+ Path named)
             (isInsecure lib fs (resolveHost named)) = Ok nameref
         ∧ pullTransports fs' !! Reference_Name nameref = Some t
         ∧ (∀ k, k ≠ Reference_Name nameref →
              pullTransports fs' !! k = pullTransports fs !! k)
         ∧ (pullTransports fs !! Reference_Name nameref = None →
            length reqs = 1%nat)).
Proof.
  unfold resolve. intros H.
  destruct (ParseDockerRef lib ref) as [named|] eqn:Hnamed.
  2: { injection H as <- <- <-. repeat split; try done. cbn. lia. }
  destruct (name_ParseReference lib _ _) as [nameref|] eqn:Hnameref.
  2: { injection H as <- <- <-. repeat split; try done. cbn. lia. }
  set (u0 := blobURL _ _ _ _) in H.
  destruct (pullTransports fs !! Reference_Name nameref) as [t0|] eqn:Hcached.
  - destruct (checkAndRedirect lib u0 t0) as [[u1|e1] reqs0] eqn:Hc0;
      destruct (checkAndRedirect_requests _ _ _ _ Hc0) as [Hlen0 Hone0].
    + injection H as <- <- <-. repeat split; try done; [lia|].
      intros u t [= <- <-]. exists named, nameref. repeat split; try done.
      intros _. by apply Hone0.
    + destruct (refreshTransport lib nameref) as [t1|].
      2: { injection H as <- <- <-. repeat split; try done. lia. }
      destruct (checkAndRedirect lib u0 t1) as [[u2|e2] reqs1] eqn:Hc1;
        destruct (checkAndRedirect_requests _ _ _ _ Hc1) as [Hlen1 Hone1];
        injection H as <- <- <-.
      * cbn. repeat split; try done.
        { rewrite length_app. lia. }
        intros u t [= <- <-]. exists named, nameref. split; [done|].
        split; [done|]. split; [by rewrite lookup_insert_eq|].
        split; [|intros ?; congruence]. intros k Hk. by rewrite lookup_insert_ne.
      * repeat split; try done. rewrite length_app. lia.
  - destruct (refreshTransport lib nameref) as [t1|].
    2: { injection H as <- <- <-. repeat split; try done. cbn. lia. }
    destruct (checkAndRedirect lib u0 t1) as [[u2|e2] reqs1] eqn:Hc1;
      destruct (checkAndRedirect_requests _ _ _ _ Hc1) as [Hlen1 Hone1];
      injection H as <- <- <-.
    + cbn. repeat split; try done; [lia|].
      intros u t [= <- <-]. exists named, nameref. split; [done|].
      split; [done|]. split; [by rewrite lookup_insert_eq|].
      split; [|by auto]. intros k Hk. by rewrite lookup_insert_ne.
    + repeat split; try done. cbn. lia.
Qed.

(** What [resolve] asks of the registry when it has no transport for the
    name, and when the reference does not parse. *)
Lemma resolve_requests fs ref digest r fs' reqs :
  resolve lib fs ref digest = (r, fs', reqs) →
  (∀ named nameref,
     ParseDockerRef lib ref = Ok named →
     name_ParseReference lib
       (resolveHost named +:+ "/" +:+ Path named)
       (isInsecure lib fs (resolveHost named)) = Ok nameref →
     pullTransports fs !! Reference_Name nameref = None →
     (length reqs ≤ 1)%nat)
  ∧ (is_ok (ParseDockerRef lib ref) = false → reqs = []).
Proof.
  unfold resolve. intros H. split.
  - intros named nameref Hnamed Hnameref Hnone.
    rewrite Hnamed, Hnameref, Hnone in H.
    destruct (refreshTransport lib nameref) as [t1|].
    2: { injection H as <- <- <-. cbn. lia. }
    destruct (checkAndRedirect lib _ t1) as [[u2|e2] reqs1] eqn:Hc1;
      destruct (checkAndRedirect_requests _ _ _ _ Hc1) as [Hlen1 _];
      by injection H as <- <- <-.
  - destruct (ParseDockerRef lib ref) as [named|]; [done|].
    intros _. by injection H as <- <- <-.
Qed.

(** X15.  [resolve] keeps one transport per reference name.  A
    successful call returns a transport that is, afterwards, the cached
    one for the name of the reference, the entries of the other names
    being as before; a failed call leaves the filesystem as it was.  The
    connections are not touched.  The registry is probed at most twice
    in a call; at most once when no transport was cached for the name,
    and exactly once when such a call succeeds; not at all when the
    reference does not parse. *)
Theorem resolve_transport_cache fs ref digest r fs' reqs :
  resolve lib fs ref digest = (r, fs', reqs) →
  conn fs' = conn fs
  ∧ layerValidInterval fs' = layerValidInterval fs
  ∧ insecure fs' = insecure fs
  ∧ (length reqs ≤ 2)%nat
  ∧ (∀ err, r = Err err → fs' = fs)
  ∧ (∀ u t, r = Ok (u, t) →
       ∃ named nameref,
         ParseDockerRef lib ref = Ok named
         ∧ name_ParseReference lib
             (resolveHost named +:+ "/" +:+ Path named)
             (isInsecure lib fs (resolveHost named)) = Ok nameref
         ∧ pullTransports fs' !! Reference_Name nameref = Some t
         ∧ (∀ k, k ≠ Reference_Name nameref →
              pullTransports fs' !! k = pullTransports fs !! k)
         ∧ (pullTransports fs !! Reference_Name nameref = None →
            length reqs = 1%nat))
  ∧ (∀ named nameref,
       ParseDockerRef lib ref = Ok named →
       name_ParseReference lib
         (resolveHost named +:+ "/" +:+ Path named)
         (isInsecure lib fs (resolveHost named)) = Ok nameref →
       pullTransports fs !! Reference_Name nameref = None →
       (length reqs ≤ 1)%nat)
  ∧ (is_ok (ParseDockerRef lib ref) = false → reqs = []).
Proof.
  intros H.
  destruct (resolve_cache_inv _ _ _ _ _ _ H)
    as (Hconn & Hint & Hins & Hlen & Herr & Hok).
  destruct (resolve_requests _ _ _ _ _ _ H) as (Hone & Hnone).
  done.
Qed.

(** *** The size of a layer *)

(** X16.  [getSize] succeeds exactly when the URL parses, the transport
    answers the HEAD request with status 200 and the [Content-Length]
    of the answer reads as a decimal [int64], which is then the size;
    any other status, 206 included, is an error.  When the URL parses,
    one request is made: a HEAD of the URL under a deadline of 30
    seconds, with no [Range] header. *)
Theorem getSize_spec (t : RoundTripper) (u : string) :
  (∀ size,
     (getSize lib t u).1 = Ok size ↔
     url_valid lib u = true
     ∧ ∃ res, t (headRequest u) = Ok res
              ∧ StatusCode res = 200
              ∧ strconv.ParseInt
                  (Header_Get (ResponseHeader res) "Content-Length")
                = Some size)
  ∧ (url_valid lib u = true → (getSize lib t u).2 = [headRequest u])
  ∧ (url_valid lib u = false → (getSize lib t u).2 = []).
Proof.
  unfold getSize, NewRequest. destruct (url_valid lib u); cbn [Method URL Header].
  2: { split; [|done]. intros size. split; [done|]. by intros [? _]. }
  change (mkRequest "HEAD" u ∅ (30 * Second) false) with (headRequest u).
  destruct (t (headRequest u)) as [res|] eqn:Ht.
  2: { split; [|done]. intros size. split; [done|].
       by intros (_ & res & ? & _). }
  unfold StatusOK. destruct (StatusCode res =? 200) eqn:H200; cbn [negb].
  2: { apply Z.eqb_neq in H200. split; [|done]. intros size. split; [done|].
       intros (_ & res' & [= <-] & ? & _). done. }
  apply Z.eqb_eq in H200.
  destruct (strconv.ParseInt _) as [size0|] eqn:Hparse.
  - split; [|done]. intros size. cbn. split.
    + intros [= <-]. split; [done|]. exists res. done.
    + intros (_ & res' & [= <-] & _ & Hp). congruence.
  - split; [|done]. intros size. cbn. split; [done|].
    intros (_ & res' & [= <-] & _ & Hp). congruence.
Qed.

(** *** Mount *)

Section Mounting.
Variable env : MountEnv.

Lemma Mount_resolved fs now mountpoint labels ref digest u t fs1 reqs1
    r fs' reqs n :
  labels !! TargetRefLabel env = Some ref →
  labels !! TargetDigestLabel env = Some digest →
  resolve lib fs ref digest = (Ok (u, t), fs1, reqs1) →
  Mount lib env fs now mountpoint labels = (r, fs', reqs, n) →
  fs' = set_conn fs1 (<[mountpoint := mkConnection u t now]> (conn fs1))
  ∧ ∀ n0, n = Some n0 →
      node_root n0 = mountpoint ∧ node_opaque n0 = false
      ∧ statFile_name (state_statFile (node_s n0)) = digest +:+ ".json".
Proof.
  intros Href Hdigest Hres H. unfold Mount in H.
  rewrite Href, Hdigest, Hres in H.
  destruct (getSize lib t u) as [[size|] reqs2].
  2: { by injection H as <- <- <- <-. }
  destruct (stargz_Open env u size) as [[root|]|].
  2,3: by injection H as <- <- <- <-.
  destruct (if noprefetch _ then None else prefetch env u size).
  { by injection H as <- <- <- <-. }
  destruct (newState_addrs env mountpoint) as [stateAddr fileAddr].
  destruct (fuse_NewServer env mountpoint).
  { by injection H as <- <- <- <-. }
  injection H as <- <- <- <-. split; [done|]. by intros n0 [= <-].
Qed.

(** X17.  [Mount] needs the two labels of the reference and of the
    digest: without one of them it fails at once, with no request and no
    change.  Once [resolve] has answered with a URL and a transport, the
    connection of the mountpoint is registered with them and with the
    time of the call, before the size of the layer is asked for; it stays
    registered whatever happens next, also when [Mount] then fails, and
    [Check] of the mountpoint answers nil without a request for as long
    as the validity interval lasts. *)
Theorem Mount_registers_connection fs now mountpoint labels r fs' reqs n :
  Mount lib env fs now mountpoint labels = (r, fs', reqs, n) →
  (labels !! TargetRefLabel env = None ∨ labels !! TargetDigestLabel env = None →
     r ≠ None ∧ fs' = fs ∧ reqs = [] ∧ n = None)
  ∧ (∀ ref digest u t fs1 reqs1,
       labels !! TargetRefLabel env = Some ref →
       labels !! TargetDigestLabel env = Some digest →
       resolve lib fs ref digest = (Ok (u, t), fs1, reqs1) →
       conn fs' = <[mountpoint := mkConnection u t now]> (conn fs)
       ∧ pullTransports fs' = pullTransports fs1
       ∧ ∀ now', time_Sub now' now < layerValidInterval fs →
           Check lib fs' now' mountpoint = (None, fs', [])).
Proof.
  intros H. split.
  - intros Hmissing. unfold Mount in H.
    destruct (labels !! TargetRefLabel env) as [ref|].
    + destruct (labels !! TargetDigestLabel env) as [digest|].
      * by destruct Hmissing.
      * by injection H as <- <- <- <-.
    + by injection H as <- <- <- <-.
  - intros ref digest u t fs1 reqs1 Href Hdigest Hres.
    destruct (Mount_resolved _ _ _ _ _ _ _ _ _ _ _ _ _ _ Href Hdigest Hres H)
      as [-> _].
    destruct (resolve_keeps_conn _ _ _ _ _ _ Hres) as (Hconn & Hint).
    cbn. rewrite Hconn. split; [done|]. split; [done|].
    intros now' Hfresh.
    apply (Check_fresh lib _ now' mountpoint (mkConnection u t now)).
    + cbn. by rewrite lookup_insert_eq.
    + cbn. by rewrite Hint.
Qed.

(** X18.  The root node that [Mount] hands to the FUSE server carries
    the mountpoint, so that [OnUnmount] of that node drops the
    connection that the [Mount] registered and no other: a mount
    followed by the unmount leaves the connections as they were before
    the mount.  The node is not marked opaque, and its state file is
    named after the digest of the layer. *)
Theorem Mount_then_OnUnmount fs now mountpoint labels r fs' reqs n :
  Mount lib env fs now mountpoint labels = (r, fs', reqs, Some n) →
  node_root n = mountpoint
  ∧ node_opaque n = false
  ∧ (∃ digest, labels !! TargetDigestLabel env = Some digest
               ∧ statFile_name (state_statFile (node_s n)) = digest +:+ ".json")
  ∧ conn (OnUnmount n fs') = delete mountpoint (conn fs)
  ∧ (conn fs !! mountpoint = None → conn (OnUnmount n fs') = conn fs).
Proof.
  intros H.
  destruct (labels !! TargetRefLabel env) as [ref|] eqn:Href.
  2: { unfold Mount in H. by rewrite Href in H. }
  destruct (labels !! TargetDigestLabel env) as [digest|] eqn:Hdigest.
  2: { unfold Mount in H. by rewrite Href, Hdigest in H. }
  destruct (resolve lib fs ref digest) as [[[[u t]|err] fs1] reqs1] eqn:Hres.
  2: { unfold Mount in H. by rewrite Href, Hdigest, Hres in H. }
  destruct (Mount_resolved _ _ _ _ _ _ _ _ _ _ _ _ _ _ Href Hdigest Hres H)
    as [-> Hn].
  destruct (Hn n eq_refl) as (Hroot & Hopaque & Hname).
  destruct (resolve_keeps_conn _ _ _ _ _ _ Hres) as (Hconn & _).
  split; [done|]. split; [done|]. split; [by eauto|].
  assert (conn (OnUnmount n
                  (set_conn fs1
                     (<[mountpoint := mkConnection u t now]> (conn fs1))))
          = delete mountpoint (conn fs)) as Hdel.
  { unfold OnUnmount. cbn. by rewrite Hroot, Hconn, delete_insert_eq. }
  split; [done|]. intros Hfree. rewrite Hdel. by apply delete_id.
Qed.

End Mounting.

End Plugin.
(** *** Names *)

Lemma prefix_nil s : String.prefix "" s = true.
Proof. by destruct s. Qed.

Lemma prefix_app p s : String.prefix p (p +:+ s) = true.
Proof.
  induction p as [|a p IH].
  - change ("" +:+ s) with s. apply prefix_nil.
  - change (String a p +:+ s) with (String a (p +:+ s)).
    cbn. by destruct (ascii_dec a a).
Qed.

Lemma string_drop_app p s : string_drop (String.length p) (p +:+ s) = s.
Proof.
  induction p as [|a p IH]; [done|].
  change (String a p +:+ s) with (String a (p +:+ s)). cbn. exact IH.
Qed.

Lemma prefix_split p :
  ∀ k, String.prefix p k = true → k = p +:+ string_drop (String.length p) k.
Proof.
  induction p as [|a p IH]; intros k H; [done|].
  destruct k as [|b k]; [done|]. cbn in H.
  destruct (ascii_dec a b) as [<-|]; [|done].
  change (String a k = String a (p +:+ string_drop (String.length p) k)).
  f_equal. by apply IH.
Qed.

(** *** Lookup and OpenDir *)

Section Listing.
Variable n : node.

Lemma OpenDir_listing : (OpenDir n).1 ≡ₚ OpenDir_amended n.
Proof.
  pose proof (NoDup_fst_map_to_list (children (node_e n))) as Hnd.
  destruct (OpenDir_visit_fold n _ Hnd) as (He & Hw & Hn).
  unfold OpenDir, ForeachChild, sort_by_Name. cbn [fst].
  set (acc := foldl _ _ _) in *.
  rewrite merge_sort_Permutation. unfold OpenDir_amended.
  assert (whiteouts acc
          = filter (λ kv, is_whiteout kv.1) (children (node_e n))) as HW.
  { apply map_eq. intros k. apply option_eq. intros v.
    rewrite Hw, map_lookup_filter_Some, elem_of_map_to_list. cbn.
    by intuition. }
  assert (OpenDir_whiteouts acc
          ≡ₚ (normal_entry <$>
                filter (λ kv, shown n kv.1) (map_to_list (children (node_e n))))
             ++ (whiteout_entry <$>
                   filter (λ kv, is_whiteout kv.1
                                 ∧ ¬ has_shown_sibling n (target kv.1))
                     (map_to_list (children (node_e n))))) as Hperm.
  { rewrite OpenDir_whiteouts_fold, He. apply Permutation_app_head.
    apply fmap_Permutation. rewrite HW, map_to_list_filter_perm.
    rewrite list_filter_filter.
    erewrite list_filter_iff; [reflexivity|].
    intros [k v]. cbn [fst]. unfold has_shown_sibling.
    rewrite <- elem_of_fst_map_to_list.
    pose proof (Hn (target k)) as Ht.
    destruct (default false (normalEnts acc !! target k)); cbn [negb].
    - split; [by intros [[] _]|]. intros [_ Hno]. exfalso. apply Hno.
      destruct (proj1 Ht eq_refl). done.
    - split; [|by intuition]. intros [_ Hwh]. split; [done|].
      intros [Hin Hs]. discriminate (proj2 Ht (conj Hs Hin)). }
  destruct (decide (Name (node_e n) = EmptyString)).
  - rewrite Hperm. by rewrite <- app_assoc.
  - rewrite Hperm. by rewrite app_nil_r.
Qed.

(** The entries of a listing, one kind at a time. *)
Lemma OpenDir_elem_of d :
  d ∈ (OpenDir n).1 ↔
  (∃ k v, children (node_e n) !! k = Some v ∧ shown n k = true
          ∧ d = normal_entry (k, v))
  ∨ (∃ k v, children (node_e n) !! k = Some v ∧ is_whiteout k = true
            ∧ ¬ has_shown_sibling n (target k)
            ∧ d = whiteout_entry (k, v))
  ∨ (Name (node_e n) = EmptyString ∧ d = state_entry n).
Proof.
  rewrite OpenDir_listing. unfold OpenDir_amended.
  rewrite !elem_of_app, !list_elem_of_fmap.
  setoid_rewrite list_elem_of_filter. setoid_rewrite elem_of_map_to_list'.
  split.
  - intros [([k v] & -> & Hs & Hin)|[([k v] & -> & [Hw Hno] & Hin)|Hstate]].
    + left. exists k, v. cbn in *. split; [done|]. split; [|done].
      by destruct (shown n k).
    + right. left. exists k, v. cbn in *. split; [done|].
      split; [by destruct (is_whiteout k)|]. done.
    + right. right. destruct (decide (Name (node_e n) = EmptyString)).
      * apply list_elem_of_singleton in Hstate. done.
      * by apply elem_of_nil in Hstate.
  - intros [(k & v & Hin & Hs & ->)|[(k & v & Hin & Hw & Hno & ->)|[Hroot ->]]].
    + left. exists (k, v). cbn. rewrite Hs. done.
    + right. left. exists (k, v). cbn. rewrite Hw. done.
    + right. right. rewrite decide_True by done.
      by apply list_elem_of_singleton.
Qed.

Lemma Lookup_cached kids name :
  kids_ok n kids → (Lookup n kids name).1 = (Lookup n ∅ name).1.
Proof.
  intros Hok. destruct (kids !! name) as [c|] eqn:Hhit.
  - rewrite (Hok _ _ Hhit). unfold Lookup. by rewrite Hhit.
  - by rewrite (Lookup_miss _ _ _ Hhit).
Qed.

(** X19.  What a directory lists is what can be looked up in it.  A name
    prefixed with [.wh.], and the [.prefetch.landmark] of the root, are
    never found.  For any other name, [Lookup] finds a node exactly when
    [OpenDir] lists an entry of that name, and the listing has an entry
    of that name whose mode and inode are those that [GetAttr] of the
    node reports: a file or directory of the layer, a character device
    for a whiteout, the state directory for [.stargz-snapshotter] in the
    root.  The children that the inode already holds do not change the
    answer. *)
Theorem Lookup_OpenDir_coherent kids name :
  kids_ok n kids →
  (Lookup n kids name).1 = (Lookup n ∅ name).1
  ∧ (HasPrefix name whiteoutPrefix = true ∨ root_landmark n name = true →
     (Lookup n kids name).1 = (None, ENOENT))
  ∧ (HasPrefix name whiteoutPrefix = false → root_landmark n name = false →
     (∀ c, (Lookup n kids name).1 = (Some c, OK) →
        ∃ d, d ∈ (OpenDir n).1 ∧ DirEntry_Name d = name ∧ listed_as c d)
     ∧ (∀ d, d ∈ (OpenDir n).1 → DirEntry_Name d = name →
          ∃ c, (Lookup n kids name).1 = (Some c, OK))
     ∧ ((Lookup n kids name).1 = (None, ENOENT)
        ∨ ∃ c, (Lookup n kids name).1 = (Some c, OK))).
Proof.
  intros Hok. pose proof (Lookup_cached kids name Hok) as Hcached.
  split; [done|]. rewrite Hcached. clear Hcached.
  unfold Lookup. rewrite lookup_empty. fold (root_landmark n name).
  split.
  - intros [Hwh|Hlm].
    + rewrite Hwh. by destruct (root_landmark n name).
    + by rewrite Hlm.
  - intros Hwh Hlm. rewrite Hwh, Hlm.
    assert (shown n name = true) as Hshown.
    { unfold shown. by rewrite Hwh, Hlm. }
    destruct (bool_decide (Name (node_e n) = EmptyString)
              && bool_decide (name = stateDirName)) eqn:Hstate.
    { apply andb_true_iff in Hstate as [Hroot Hname].
      apply bool_decide_eq_true in Hroot, Hname. cbn [fst snd].
      split; [|split; [by eauto|by eauto]].
      intros c [= <-]. exists (state_entry n). split; [|done].
      apply OpenDir_elem_of. right. right. done. }
    unfold LookupChild.
    destruct (children (node_e n) !! name) as [ce|] eqn:Hce.
    { cbn [fst snd]. split; [|split; [by eauto|by eauto]].
      intros c [= <-]. exists (normal_entry (name, ce)). split; [|done].
      apply OpenDir_elem_of. left. exists name, ce. done. }
    destruct (children (node_e n) !! (whiteoutPrefix +:+ name)) as [wh|] eqn:Hw.
    { cbn [fst snd]. split; [|split; [by eauto|by eauto]].
      intros c [= <-]. exists (whiteout_entry (whiteoutPrefix +:+ name, wh)).
      assert (target (whiteoutPrefix +:+ name) = name) as Ht
        by apply string_drop_app.
      split; [|by rewrite <- Ht at 2].
      apply OpenDir_elem_of. right. left.
      exists (whiteoutPrefix +:+ name), wh. split; [done|]. split.
      - unfold is_whiteout, HasPrefix. rewrite prefix_app. cbn [andb].
        apply negb_true_iff, bool_decide_eq_false. intros Heq.
        assert (name = ".wh..opq") as ->.
        { rewrite <- Ht, Heq. reflexivity. }
        discriminate Hwh.
      - split; [|done]. rewrite Ht. intros [[? Hsome] _]. congruence. }
    cbn [fst snd]. split; [done|]. split; [|by left].
    intros d Hd Hname. exfalso.
    apply OpenDir_elem_of in Hd
      as [(k & v & Hin & Hs & ->)|[(k & v & Hin & Hwk & Hno & ->)|[Hroot ->]]].
    + cbn in Hname. congruence.
    + change (target k = name) in Hname. unfold is_whiteout in Hwk.
      apply andb_true_iff in Hwk as [Hpre _].
      apply prefix_split in Hpre.
      change (string_drop (String.length whiteoutPrefix) k) with (target k)
        in Hpre.
      rewrite Hname in Hpre. congruence.
    + cbn in Hname. subst name.
      rewrite bool_decide_eq_true_2 in Hstate by done.
      by rewrite bool_decide_eq_true_2 in Hstate.
Qed.

Lemma names_normal (l : list (string * TOCEntry)) :
  DirEntry_Name <$> (normal_entry <$> l) = l.*1.
Proof. rewrite <- list_fmap_compose. by apply list_fmap_ext. Qed.

Lemma names_whiteout (l : list (string * TOCEntry)) :
  DirEntry_Name <$> (whiteout_entry <$> l) = target <$> l.*1.
Proof. rewrite <- !list_fmap_compose. by apply list_fmap_ext. Qed.

(** X28.  The names in a listing are distinct, with one exception that
    the code leaves open: in the root, the entry of the state directory
    is added without a look at the archive, so an archive whose root
    holds [.stargz-snapshotter], or a whiteout of it, makes that name
    appear twice.  Such an archive apart, no name is listed twice. *)
Theorem OpenDir_names_distinct :
  (Name (node_e n) = EmptyString →
   children (node_e n) !! stateDirName = None
   ∧ children (node_e n) !! (whiteoutPrefix +:+ stateDirName) = None) →
  NoDup (DirEntry_Name <$> (OpenDir n).1).
Proof.
  intros Hstate. rewrite OpenDir_listing. unfold OpenDir_amended.
  rewrite !fmap_app, names_normal, names_whiteout.
  set (L := map_to_list (children (node_e n))).
  assert (NoDup L.*1) as HL by apply NoDup_fst_map_to_list.
  assert (∀ k, k ∈ (filter (λ kv, shown n kv.1) L).*1 →
            is_Some (children (node_e n) !! k) ∧ shown n k = true) as Hnormal.
  { intros k ([k' v] & -> & Hin)%list_elem_of_fmap.
    apply list_elem_of_filter in Hin as [Hs Hin]. cbn in *.
    apply elem_of_map_to_list in Hin. split; [by eauto|].
    by destruct (shown n k'). }
  assert (∀ k, k ∈ (filter (λ kv, is_whiteout kv.1
                              ∧ ¬ has_shown_sibling n (target kv.1)) L).*1 →
            is_Some (children (node_e n) !! k)
            ∧ k = whiteoutPrefix +:+ target k
            ∧ ¬ has_shown_sibling n (target k)) as Hwhite.
  { intros k ([k' v] & -> & Hin)%list_elem_of_fmap.
    apply list_elem_of_filter in Hin as [[Hw Hno] Hin]. cbn in *.
    apply elem_of_map_to_list in Hin. split; [by eauto|]. split; [|done].
    unfold is_whiteout in Hw. destruct (HasPrefix k' whiteoutPrefix) eqn:Hp;
      [|done].
    by apply prefix_split in Hp. }
  apply NoDup_app. split; [|split].
  - eapply sublist_NoDup; [exact HL|]. apply fmap_sublist, sublist_filter.
  - intros x Hx [Hin|Hin]%elem_of_app.
    + apply list_elem_of_fmap in Hin as (k & -> & Hk).
      destruct (Hnormal _ Hx) as [Hsome Hshown].
      destruct (Hwhite _ Hk) as (_ & _ & Hno). apply Hno.
      split; [done|]. by rewrite Hshown.
    + destruct (decide (Name (node_e n) = EmptyString)) as [Hroot|];
        [|by apply elem_of_nil in Hin].
      apply list_elem_of_singleton in Hin. cbn in Hin. subst x.
      destruct (Hnormal _ Hx) as [[v Hv] _].
      destruct (Hstate Hroot) as [Hnone _]. congruence.
  - apply NoDup_app. split; [|split].
    + apply NoDup_fmap_2_strong.
      * intros k1 k2 Hk1 Hk2 Heq.
        destruct (Hwhite _ Hk1) as (_ & E1 & _).
        destruct (Hwhite _ Hk2) as (_ & E2 & _).
        rewrite E1, E2. by rewrite Heq.
      * eapply sublist_NoDup; [exact HL|]. apply fmap_sublist, sublist_filter.
    + intros x Hx Hin.
      destruct (decide (Name (node_e n) = EmptyString)) as [Hroot|];
        [|by apply elem_of_nil in Hin].
      apply list_elem_of_singleton in Hin. cbn in Hin. subst x.
      apply list_elem_of_fmap in Hx as (k & Ht & Hk).
      destruct (Hwhite _ Hk) as ([v Hv] & Hsplit & _).
      rewrite <- Ht in Hsplit. subst k.
      destruct (Hstate Hroot) as [_ Hnone]. congruence.
    + destruct (decide (Name (node_e n) = EmptyString)); cbn.
      * apply NoDup_singleton.
      * apply NoDup_nil_2.
Qed.

End Listing.

(** *** Extended attributes *)

(** X20.  [ListXAttr] and [GetXAttr] agree: an attribute is listed
    exactly when it can be read.  A read answers with a value and [OK],
    or with no value and the no-attribute error. *)
Theorem ListXAttr_GetXAttr_coherent (n : node) (a : string) :
  (ListXAttr n).2 = OK
  ∧ (a ∈ (ListXAttr n).1 ↔ (GetXAttr n a).2 = OK)
  ∧ ((∃ v, GetXAttr n a = (Some v, OK)) ∨ GetXAttr n a = (None, ENOATTR)).
Proof.
  split; [done|]. unfold ListXAttr, GetXAttr. cbn [fst snd]. split.
  - rewrite elem_of_app, elem_of_fst_map_to_list.
    destruct (node_opaque n); [destruct (decide (a = opaqueXattr)) as [->|Hne]|].
    + rewrite bool_decide_eq_true_2 by done. cbn. split; [done|].
      intros _. left. by apply list_elem_of_singleton.
    + rewrite bool_decide_eq_false_2 by done. cbn [andb].
      rewrite list_elem_of_singleton.
      destruct (Xattrs (node_e n) !! a); cbn.
      * split; [done|]. by eauto.
      * split; [|done]. by intros [?|[? ?]].
    + rewrite andb_false_r.
      destruct (Xattrs (node_e n) !! a); cbn.
      * split; [done|]. by eauto.
      * split; [|done]. intros [?%elem_of_nil|[? ?]]; done.
  - destruct (_ && _); [by eauto|].
    destruct (Xattrs (node_e n) !! a); by eauto.
Qed.

(** *** File modes *)

Lemma land_lor_const a b c : Z.land (Z.lor a b) c = Z.lor (Z.land a c) (Z.land b c).
Proof. apply Z.land_lor_distr_l. Qed.

Lemma land_land_const m a b : Z.land (Z.land m a) b = Z.land m (Z.land a b).
Proof. by rewrite Z.land_assoc. Qed.

(** X21.  [fileModeToSystemMode] keeps the nine permission bits of the
    mode, sets the bits of exactly one file type (a regular file for
    every combination of type bits other than the six it knows), and
    carries the setuid, setgid and sticky bits over to their places in
    [st_mode]; it sets no other bit. *)
Theorem fileModeToSystemMode_bits (m : Z) :
  let sm := fileModeToSystemMode m in
  let ty := Z.land m ModeType in
  Z.land sm 511 = Z.land m 511
  ∧ Z.land sm S_IFMT
    = (if ty =? ModeDevice then S_IFBLK
       else if ty =? Z.lor ModeDevice ModeCharDevice then S_IFCHR
       else if ty =? ModeDir then S_IFDIR
       else if ty =? ModeNamedPipe then S_IFIFO
       else if ty =? ModeSymlink then S_IFLNK
       else if ty =? ModeSocket then S_IFSOCK
       else S_IFREG)
  ∧ (Z.land sm S_ISUID ≠ 0 ↔ Z.land m ModeSetuid ≠ 0)
  ∧ (Z.land sm S_ISGID ≠ 0 ↔ Z.land m ModeSetgid ≠ 0)
  ∧ (Z.land sm S_ISVTX ≠ 0 ↔ Z.land m ModeSticky ≠ 0)
  ∧ Z.land sm (Z.lor 511 (Z.lor S_IFMT (Z.lor S_ISUID (Z.lor S_ISGID S_ISVTX))))
    = sm.
Proof.
  intros sm ty. subst sm. unfold fileModeToSystemMode. fold ty.
  unfold S_IFMT, S_IFBLK, S_IFCHR, S_IFDIR, S_IFIFO, S_IFLNK, S_IFREG,
    S_IFSOCK, S_ISGID, S_ISUID, S_ISVTX.
  set (p := Z.land m 511).
  assert (Z.land p 511 = p) as Hp1 by (unfold p; by rewrite land_land_const).
  assert (Z.land p 61440 = 0) as Hp2.
  { unfold p. rewrite land_land_const. apply Z.land_0_r. }
  assert (Z.land p 2048 = 0) as Hp3.
  { unfold p. rewrite land_land_const. apply Z.land_0_r. }
  assert (Z.land p 1024 = 0) as Hp4.
  { unfold p. rewrite land_land_const. apply Z.land_0_r. }
  assert (Z.land p 512 = 0) as Hp5.
  { unfold p. rewrite land_land_const. apply Z.land_0_r. }
  assert (Z.land p 65535 = p) as Hp6 by (unfold p; by rewrite land_land_const).
  change (Z.lor 511 (Z.lor 61440 (Z.lor 2048 (Z.lor 1024 512)))) with 65535.
  set (g := Z.land m ModeSetgid). set (u := Z.land m ModeSetuid).
  set (s := Z.land m ModeSticky).
  clearbody p ty g u s.
  assert (∀ x, (negb (x =? 0) = true ↔ x ≠ 0)) as Hneq.
  { intros x. rewrite negb_true_iff. apply Z.eqb_neq. }
  split; [|split; [|split; [|split; [|split]]]];
    try rewrite <- (Hneq g); try rewrite <- (Hneq u); try rewrite <- (Hneq s);
    destruct (negb (g =? 0)); destruct (negb (u =? 0)); destruct (negb (s =? 0));
    (destruct (ty =? ModeDevice);
     [|destruct (ty =? Z.lor ModeDevice ModeCharDevice);
       [|destruct (ty =? ModeDir);
         [|destruct (ty =? ModeNamedPipe);
           [|destruct (ty =? ModeSymlink);
             [|destruct (ty =? ModeSocket)]]]]]);
    rewrite ?land_lor_const, ?Hp1, ?Hp2, ?Hp3, ?Hp4, ?Hp5, ?Hp6;
    cbn; rewrite ?Z.lor_0_r; done.
Qed.

(** *** Access *)

(** X22.  On a node of the layer, for a caller other than root,
    [Access] grants a request as soon as one of the requested
    permissions is granted, not only when all of them are: a request for
    several permissions succeeds exactly when the request for one of
    them does. *)
Theorem Access_any_bit (n : node) (m1 m2 : Z) (caller : Owner) :
  Owner_Uid caller ≠ 0 → 0 < m1 < 8 → 0 < m2 < 8 →
  (Access n (Z.lor m1 m2) caller = OK
   ↔ Access n m1 caller = OK ∨ Access n m2 caller = OK).
Proof.
  intros Huid H1 H2.
  assert (0 < Z.lor m1 m2 < 8) as H12.
  { assert (m1 = 1 ∨ m1 = 2 ∨ m1 = 3 ∨ m1 = 4 ∨ m1 = 5 ∨ m1 = 6 ∨ m1 = 7)
      as Hc1 by lia.
    assert (m2 = 1 ∨ m2 = 2 ∨ m2 = 3 ∨ m2 = 4 ∨ m2 = 5 ∨ m2 = 6 ∨ m2 = 7)
      as Hc2 by lia.
    destruct Hc1 as [-> | [-> | [-> | [-> | [-> | [-> | ->]]]]]];
      destruct Hc2 as [-> | [-> | [-> | [-> | [-> | [-> | ->]]]]]];
      vm_compute; split; reflexivity. }
  rewrite !Access_compare by done. cbv zeta.
  set (field := Z.land (Z.shiftr _ _) 7).
  rewrite Z.land_lor_distr_l.
  destruct (Z.land m1 field =? 0) eqn:E1; destruct (Z.land m2 field =? 0) eqn:E2;
    [apply Z.eqb_eq in E1 | apply Z.eqb_eq in E1
     | apply Z.eqb_neq in E1 | apply Z.eqb_neq in E1];
    [apply Z.eqb_eq in E2 | apply Z.eqb_neq in E2
     | apply Z.eqb_eq in E2 | apply Z.eqb_neq in E2].
  - rewrite E1, E2. cbn. split; [done|]. by intros [|].
  - rewrite (proj2 (Z.eqb_neq _ 0)); [split; auto|].
    intros [_ ?]%Z.lor_eq_0_iff. done.
  - rewrite (proj2 (Z.eqb_neq _ 0)); [split; auto|].
    intros [? _]%Z.lor_eq_0_iff. done.
  - rewrite (proj2 (Z.eqb_neq _ 0)); [split; auto|].
    intros [? _]%Z.lor_eq_0_iff. done.
Qed.

(** *** Attributes *)

(** X23.  The attributes of an entry of the layer.  For a size within
    [int64], [entryToAttr] reports the size of the entry and, as its
    count of blocks, the least number of 512-byte blocks that hold that
    many bytes; the link count is never 0, a count of 0 in the archive
    being read as 1; mode and inode are those under which [OpenDir]
    lists the entry; the two times that the archive does not have are
    left as the caller passed them.  A whiteout is reported as a
    character device with the device number 0, size 0 and one link. *)
Theorem entryToAttr_spec (e : TOCEntry) (fi : TOCEntryStat) (out : Attr)
    (baseName : string) :
  0 ≤ Stat_Size fi < 2 ^ 63 →
  let a := (entryToAttr e fi out).1 in
  let w := (entryToWhAttr e fi out).1 in
  (entryToAttr e fi out).2 = OK
  ∧ Attr_Size a = Stat_Size fi
  ∧ 512 * (Attr_Blocks a - 1) < Stat_Size fi ≤ 512 * Attr_Blocks a
  ∧ 1 ≤ Attr_Nlink a
  ∧ (0 < NumLink fi < 2 ^ 32 → Attr_Nlink a = NumLink fi)
  ∧ Attr_Mode a = DirEntry_Mode (normal_entry (baseName, e))
  ∧ Attr_Ino a = DirEntry_Ino (normal_entry (baseName, e))
  ∧ Attr_Atime a = Attr_Atime out ∧ Attr_Ctime a = Attr_Ctime out
  ∧ Attr_Mode w = DirEntry_Mode (whiteout_entry (baseName, e))
  ∧ Attr_Ino w = DirEntry_Ino (whiteout_entry (baseName, e))
  ∧ Attr_Mode w = S_IFCHR ∧ Attr_Rdev w = 0 ∧ Attr_Size w = 0
  ∧ Attr_Nlink w = 1.
Proof.
  intros Hsize a w. subst a w. unfold entryToAttr, entryToWhAttr.
  cbn [fst snd Attr_Size Attr_Blocks Attr_Nlink Attr_Mode Attr_Ino Attr_Atime
         Attr_Ctime Attr_Rdev].
  assert (uint64 (Stat_Size fi) = Stat_Size fi) as ->.
  { unfold uint64. apply Z.mod_small. lia. }
  change (uint64 blockSize) with 512.
  pose proof (Z.div_mod (Stat_Size fi) 512 ltac:(lia)) as Hdm.
  pose proof (Z.mod_pos_bound (Stat_Size fi) 512 ltac:(lia)) as Hmod.
  assert (0 ≤ Stat_Size fi / 512 < 2 ^ 54) as Hdiv.
  { split; [apply Z.div_pos; lia|]. apply Z.div_lt_upper_bound; lia. }
  split; [done|]. split; [done|]. split.
  { destruct (0 <? Stat_Size fi mod 512) eqn:Hrem.
    - apply Z.ltb_lt in Hrem. unfold uint64. rewrite Z.mod_small by lia. lia.
    - apply Z.ltb_ge in Hrem. lia. }
  split.
  { pose proof (Z.mod_pos_bound (NumLink fi) (2 ^ 32) ltac:(lia)).
    unfold uint32. destruct (NumLink fi mod 2 ^ 32 =? 0) eqn:Hz; [lia|].
    apply Z.eqb_neq in Hz. lia. }
  split.
  { intros Hn. unfold uint32. rewrite Z.mod_small by lia.
    by rewrite (proj2 (Z.eqb_neq _ 0)) by lia. }
  done.
Qed.

(** *** The state file, its attributes and the errors reported to it *)

Lemma substring_all s : String.substring 0 (String.length s) s = s.
Proof. induction s as [|c s IH]; [done|]. cbn. by rewrite IH. Qed.

(** In [float64] arithmetic a division by zero gives an infinity or no
    number at all, and so does its product with 100. *)
Lemma div_zero_mul (x : float) :
  let p := PrimFloat.mul (PrimFloat.div x 0%float) 100%float in
  PrimFloat.is_nan p || PrimFloat.is_infinity p = true.
Proof.
  intros p.
  assert (Prim2SF p = S754_nan ∨ ∃ s, Prim2SF p = S754_infinity s) as Hp.
  { unfold p. rewrite FloatAxioms.mul_spec, FloatAxioms.div_spec.
    change (Prim2SF 0%float) with (S754_zero false).
    destruct (Prim2SF x) as [s|s| |s m e]; cbn; eauto. }
  unfold PrimFloat.is_nan, PrimFloat.is_infinity.
  rewrite !FloatAxioms.eqb_spec, FloatAxioms.abs_spec.
  destruct Hp as [-> | [s ->]]; [reflexivity|].
  cbn. apply orb_true_r.
Qed.

Section StateFile.
Variable lib : Libs.

Lemma updateStatUnlocked_render e :
  updateStatUnlocked lib e
  = (if percent_finite e then Ok (render lib e)
     else Err (ErrNew "json: unsupported value"),
     refreshed e).
Proof.
  unfold updateStatUnlocked, json_Marshal, refreshed, percent_finite, percent.
  cbn [FetchedPercent Error Digest Size FetchedSize statFile_statJSON].
  destruct (_ || _); [done|]. cbn [negb]. f_equal. f_equal.
  unfold render, render_rest, percent, json_key, newline.
  by rewrite !append_assoc.
Qed.

Lemma Read_render e destLen :
  Read lib e destLen 0
  = if percent_finite e
    then (Some (String.substring 0
                  (Nat.min destLen (String.length (render lib e)))
                  (render lib e)),
          OK, refreshed e)
    else (None, EIO, refreshed e).
Proof.
  unfold Read. rewrite updateStatUnlocked_render.
  destruct (percent_finite e); [|done].
  unfold ReadAt. cbn [Z.ltb Z.compare Z.to_nat].
  destruct (Z.of_nat (String.length (render lib e)) <=? 0) eqn:Hlen.
  - apply Z.leb_le in Hlen.
    replace (String.length (render lib e)) with 0%nat by lia.
    by rewrite Nat.min_0_r, substring_none.
  - by rewrite Nat.sub_0_r.
Qed.

(** X24.  A stat and a read of the state file agree.  Both render the
    text anew and store the two computed fields in the node; both
    succeed when the percentage is a number and fail with [EIO] when it
    is not.  The size that the stat reports is the length of the text
    that a read of the whole file returns, and its count of blocks is
    that size divided by 512, rounded down.  The state directory lists
    the file alone, under its name and with the mode and the inode that
    the stat reports. *)
Theorem statFile_attr_Read (e : statFile) (out : Attr) (destLen : nat) :
  (statFile_attr lib e out).1.2 = (Read lib e destLen 0).1.2
  ∧ (statFile_attr lib e out).2 = (Read lib e destLen 0).2
  ∧ (percent_finite e = true →
     let a := (statFile_attr lib e out).1.1 in
     (statFile_attr lib e out).1.2 = OK
     ∧ Attr_Size a = uint64 (Z.of_nat (String.length (render lib e)))
     ∧ Attr_Blocks a = Attr_Size a / 512
     ∧ Attr_Mode a = Z.lor S_IFREG 256
     ∧ ((String.length (render lib e) ≤ destLen)%nat →
        (Read lib e destLen 0).1.1 = Some (render lib e)))
  ∧ (percent_finite e = false →
     (statFile_attr lib e out).1 = (out, EIO)
     ∧ (Read lib e destLen 0).1 = (None, EIO))
  ∧ (∀ s, state_statFile s = e →
       ∃ d, state_OpenDir s = ([d], OK)
            ∧ DirEntry_Name d = statFile_name e
            ∧ (percent_finite e = true →
               DirEntry_Mode d = Attr_Mode (statFile_attr lib e out).1.1
               ∧ DirEntry_Ino d = Attr_Ino (statFile_attr lib e out).1.1)).
Proof.
  rewrite Read_render. unfold statFile_attr.
  rewrite updateStatUnlocked_render.
  destruct (percent_finite e).
  - split; [done|]. split; [done|]. split; [|split; [done|]].
    + intros _. cbn [fst snd]. repeat split; try done.
      intros Hfit. f_equal. rewrite Nat.min_r by done. apply substring_all.
    + intros s <-. eexists. split; [done|]. done.
  - split; [done|]. split; [done|]. split; [done|]. split; [done|].
    intros s <-. eexists. split; [done|]. done.
Qed.

(** X25.  When the size of the layer is 0, the percentage is a division
    by zero, which JSON cannot hold: every read and every stat of the
    state file fails with [EIO], whatever has been fetched. *)
Theorem state_file_of_empty_layer (e : statFile) (out : Attr)
    (destLen : nat) (off : Z) :
  Size (statFile_statJSON e) = 0 →
  (Read lib e destLen off).1 = (None, EIO)
  ∧ (statFile_attr lib e out).1 = (out, EIO).
Proof.
  intros Hsize. unfold statFile_attr, Read.
  rewrite updateStatUnlocked_render.
  assert (percent_finite e = false) as ->.
  { unfold percent_finite, percent. rewrite Hsize.
    change (float64 0) with 0%float. by rewrite div_zero_mul. }
  done.
Qed.

(** X26.  A read of a file of the layer that fails is answered with
    [EIO] and is reported to the state file: from then on the text of
    the state file starts with the member [error], holding the text
    ["failed to read node: "] followed by the error of the reader, and
    is otherwise as before; a read of the whole state file returns it.
    A read that succeeds leaves the state file alone.  A failure to open
    a file is reported in the same way, with the text
    ["failed to open node: "]. *)
Theorem file_Read_failure_reported (ra : ReaderAt) (s : state)
    (destLen : nat) (off : Z) (data : string) (err : string) :
  ra destLen off = (data, Some err) →
  let s' := (file_Read ra s destLen off).2 in
  (file_Read ra s destLen off).1 = (None, EIO)
  ∧ render lib (state_statFile s')
    = "{" +:+ quote "error" +:+ ":"
      +:+ json_string lib ("failed to read node: " +:+ err) +:+ ","
      +:+ render_rest lib (state_statFile s)
  ∧ (percent_finite (state_statFile s) = true →
     ∀ len, (String.length (render lib (state_statFile s')) ≤ len)%nat →
       (Read lib (state_statFile s') len 0).1
       = (Some (render lib (state_statFile s')), OK))
  ∧ (∀ ra' data', ra' destLen off = (data', None) →
       file_Read ra' s destLen off = (Some data', OK, s))
  ∧ (∀ openFile (n : node) cause,
       node_s n = s → openFile (Name (node_e n)) = inr cause →
       (Open openFile n).1 = (None, EIO)
       ∧ render lib (state_statFile (Open openFile n).2)
         = "{" +:+ quote "error" +:+ ":"
           +:+ json_string lib ("failed to open node: " +:+ cause) +:+ ","
           +:+ render_rest lib (state_statFile s)).
Proof.
  intros Hra s'. subst s'. unfold file_Read. rewrite Hra. cbn [fst snd].
  assert (∀ msg, msg ≠ EmptyString →
            render lib (state_statFile (state_report s msg))
            = "{" +:+ quote "error" +:+ ":" +:+ json_string lib msg +:+ ","
              +:+ render_rest lib (state_statFile s)) as Hreport.
  { intros msg Hmsg. unfold render, state_report, report.
    cbn [state_statFile statFile_statJSON Error].
    rewrite decide_False by done.
    by rewrite !append_assoc. }
  split; [done|].
  assert (render lib (state_statFile
                        (state_report s ("failed to read node: " +:+ err)))
          = "{" +:+ quote "error" +:+ ":"
            +:+ json_string lib ("failed to read node: " +:+ err) +:+ ","
            +:+ render_rest lib (state_statFile s)) as Hrender.
  { unfold render, state_report, report.
    cbn [state_statFile statFile_statJSON Error].
    rewrite decide_False by done.
    by rewrite !append_assoc. }
  split; [done|]. split; [|split].
  - intros Hfin len Hlen. rewrite Read_render.
    assert (percent_finite
              (state_statFile
                 (state_report s ("failed to read node: " +:+ err)))
            = percent_finite (state_statFile s)) as -> by done.
    rewrite Hfin. cbn [fst]. f_equal. f_equal.
    rewrite Nat.min_r by done. apply substring_all.
  - intros ra' data' Hra'. by rewrite Hra'.
  - intros openFile n cause <- Hopen. unfold Open. rewrite Hopen.
    cbn [fst snd]. split; [done|]. by apply Hreport.
Qed.

End StateFile.

End stargz_more_facts.

(** *** Connections, mounts and nodes, at work *)

Module stargz_more_examples.
Import stargz stargz_spec stargz_facts stargz_fixtures stargz_more_spec
  stargz_more_facts stargz_more_fixtures.

Lemma result_eta {A B C} (p : A * B * C) : p = (p.1.1, p.1.2, p.2).
Proof. by destruct p as [[? ?] ?]. Qed.

Lemma result4_eta {A B C D} (p : A * B * C * D) :
  p = (p.1.1.1, p.1.1.2, p.1.2, p.2).
Proof. by destruct p as [[[? ?] ?] ?]. Qed.

(** [Check_keeps_connections] on a check that probes the registry. *)
Lemma Check_keeps_connections_witness :
  pullTransports (Check exampleLibs (mounted 0) (120 * Second) "/mnt/1").1.2
  = pullTransports (mounted 0).
Proof.
  exact (proj1 (Check_keeps_connections exampleLibs (mounted 0) (120 * Second)
                  "/mnt/1" _ _ _ (result_eta _))).
Defined.

(** [Check_failure_is_forgotten]: two minutes after the mount the
    registry answers 503 and the check fails; ten seconds later the check
    succeeds without a request. *)
Lemma Check_failure_is_forgotten_witness :
  Check exampleLibs
    (Check exampleLibs mounted_down (120 * Second) "/mnt/1").1.2
    (130 * Second) "/mnt/1"
  = (None, (Check exampleLibs mounted_down (120 * Second) "/mnt/1").1.2, []).
Proof.
  apply (Check_failure_is_forgotten exampleLibs mounted_down (120 * Second)
           (130 * Second) "/mnt/1"
           (mkConnection "https://registry/v2/a/blobs/d" downRegistry 0)
           (ErrNew "unexpected status code 503")
           (Check exampleLibs mounted_down (120 * Second) "/mnt/1").1.2
           (Check exampleLibs mounted_down (120 * Second) "/mnt/1").2).
  - reflexivity.
  - vm_compute. discriminate.
  - vm_compute. reflexivity.
  - vm_compute. reflexivity.
Defined.

(** [resolve_transport_cache]: the connections are as before. *)
Lemma resolve_transport_cache_witness :
  conn (resolve exampleLibs (mounted 0) "reg.local:5000/ubuntu:18.04"
          "sha256:0a").1.2
  = conn (mounted 0).
Proof.
  exact (proj1 (resolve_transport_cache exampleLibs (mounted 0)
                  "reg.local:5000/ubuntu:18.04" "sha256:0a" _ _ _
                  (result_eta _))).
Defined.

Example getSize_layer :
  getSize mountLibs layerRegistry "http://reg.local:5000/v2/ubuntu/blobs/sha256:0a"
  = (Ok 120000,
     [headRequest "http://reg.local:5000/v2/ubuntu/blobs/sha256:0a"]).
Proof. vm_compute. reflexivity. Qed.

(** [Mount_registers_connection] on a second layer. *)
Lemma Mount_registers_connection_witness :
  conn (Mount mountLibs exampleEnv (mounted 0) 5 "/mnt/2" mountLabels).1.1.2
  = <["/mnt/2" :=
        mkConnection "http://reg.local:5000/v2/ubuntu/blobs/sha256:0a"
          layerRegistry 5]> (conn (mounted 0)).
Proof.
  destruct (Mount_registers_connection mountLibs exampleEnv (mounted 0) 5
              "/mnt/2" mountLabels _ _ _ _ (result4_eta _)) as [_ H].
  refine (proj1 (H "reg.local:5000/ubuntu:18.04" "sha256:0a"
                   "http://reg.local:5000/v2/ubuntu/blobs/sha256:0a"
                   layerRegistry
                   (resolve mountLibs (mounted 0) "reg.local:5000/ubuntu:18.04"
                      "sha256:0a").1.2
                   (resolve mountLibs (mounted 0) "reg.local:5000/ubuntu:18.04"
                      "sha256:0a").2 _ _ _)).
  - reflexivity.
  - reflexivity.
  - vm_compute. reflexivity.
Defined.

(** [Mount_then_OnUnmount]: the mount of a second layer, undone. *)
Lemma Mount_then_OnUnmount_witness :
  match Mount mountLibs exampleEnv (mounted 0) 5 "/mnt/2" mountLabels with
  | (_, fs', _, Some n) => conn (OnUnmount n fs') = conn (mounted 0)
  | _ => False
  end.
Proof.
  destruct (Mount mountLibs exampleEnv (mounted 0) 5 "/mnt/2" mountLabels)
    as [[[r fs'] reqs] [n|]] eqn:HM.
  - apply (Mount_then_OnUnmount mountLibs exampleEnv (mounted 0) 5 "/mnt/2"
             mountLabels r fs' reqs n HM). reflexivity.
  - vm_compute in HM. discriminate HM.
Defined.

(** [Lookup_OpenDir_coherent]: the whiteout of scenario 5 is not found
    under its own name. *)
Lemma Lookup_OpenDir_coherent_witness :
  (Lookup (mkNode scenario5 exampleState "/mnt/1" false) ∅ ".wh.b").1
  = (None, ENOENT).
Proof.
  refine (proj1 (proj2 (Lookup_OpenDir_coherent
                          (mkNode scenario5 exampleState "/mnt/1" false)
                          ∅ ".wh.b" _)) _).
  - intros name c H. rewrite lookup_empty in H. discriminate H.
  - left. reflexivity.
Defined.

Example Lookup_whiteout_b :
  ∃ w, (Lookup (mkNode scenario5 exampleState "/mnt/1" false) ∅ "b").1
       = (Some (ChildWhiteout w), OK).
Proof. eexists. vm_compute. reflexivity. Qed.

(** [OpenDir_names_distinct] on the root of the examples; with a
    [.stargz-snapshotter] of its own in the archive, the name is listed
    twice. *)
Lemma OpenDir_names_distinct_witness :
  NoDup (DirEntry_Name <$> (OpenDir (rootNode opaqueRoot exampleState "/mnt/1")).1).
Proof.
  apply OpenDir_names_distinct. intros _. split; vm_compute; reflexivity.
Defined.

Example OpenDir_state_directory_twice :
  DirEntry_Name <$> (OpenDir (rootNode clashRoot exampleState "/mnt/1")).1
  = [".stargz-snapshotter"; ".stargz-snapshotter"].
Proof. vm_compute. reflexivity. Qed.

(** [Access_any_bit]: the owner of a file of mode 0644 asks for reading
    and executing. *)
Lemma Access_any_bit_witness :
  Access (mkNode (regular "a" 11) exampleState "/mnt/1" false) (Z.lor 4 1)
    (mkOwner 1000 1000) = OK
  ↔ Access (mkNode (regular "a" 11) exampleState "/mnt/1" false) 4
      (mkOwner 1000 1000) = OK
    ∨ Access (mkNode (regular "a" 11) exampleState "/mnt/1" false) 1
        (mkOwner 1000 1000) = OK.
Proof.
  apply (Access_any_bit (mkNode (regular "a" 11) exampleState "/mnt/1" false)
           4 1 (mkOwner 1000 1000)).
  - discriminate.
  - lia.
  - lia.
Defined.

Example Access_read_and_execute :
  Access (mkNode (regular "a" 11) exampleState "/mnt/1" false) 5
    (mkOwner 1000 1000) = OK
  ∧ Access (mkNode (regular "a" 11) exampleState "/mnt/1" false) 1
      (mkOwner 1000 1000) = EPERM.
Proof. split; vm_compute; reflexivity. Qed.

(** [entryToAttr_spec]: a file of 1000 bytes takes two blocks. *)
Lemma entryToAttr_spec_witness :
  512 * (Attr_Blocks
           (entryToAttr (regular "a" 11) (mkTOCEntryStat 1000 0 0 0 0 0)
              zeroAttr).1 - 1) < 1000
  ≤ 512 * Attr_Blocks
            (entryToAttr (regular "a" 11) (mkTOCEntryStat 1000 0 0 0 0 0)
               zeroAttr).1.
Proof.
  refine (proj1 (proj2 (proj2 (entryToAttr_spec (regular "a" 11)
                                 (mkTOCEntryStat 1000 0 0 0 0 0) zeroAttr "a" _)))).
  cbn. lia.
Defined.

(** [state_file_of_empty_layer]. *)
Lemma state_file_of_empty_layer_witness :
  (Read exampleLibs
     (state_statFile (newState "sha256:0a" (mkUrlReaderAt 0 60000) 900 901))
     4096 0).1
  = (None, EIO).
Proof.
  exact (proj1 (state_file_of_empty_layer exampleLibs
                  (state_statFile
                     (newState "sha256:0a" (mkUrlReaderAt 0 60000) 900 901))
                  zeroAttr 4096 0 eq_refl)).
Defined.

(** [file_Read_failure_reported]. *)
Lemma file_Read_failure_reported_witness :
  (file_Read failingReader exampleState 4096 0).1 = (None, EIO).
Proof.
  exact (proj1 (file_Read_failure_reported exampleLibs failingReader
                  exampleState 4096 0 EmptyString "unexpected EOF" eq_refl)).
Defined.

Example state_file_after_failure :
  (Read exampleLibs
     (state_statFile (file_Read failingReader exampleState 4096 0).2) 4096 0).1
  = (Some ("{" +:+ quote "error" +:+ ":"
           +:+ quote "failed to read node: unexpected EOF" +:+ ","
           +:+ quote "digest" +:+ ":" +:+ quote "sha256:0a" +:+ ","
           +:+ quote "size" +:+ ":120000,"
           +:+ quote "fetchedSize" +:+ ":60000,"
           +:+ quote "fetchedPercent" +:+ ":50}"
           +:+ String (ascii_of_nat 10) EmptyString), OK).
Proof. vm_compute. reflexivity. Qed.

End stargz_more_examples.
